(** * Dialect transpiler of the reference generator

    A shallow embedding of [apps/backend/services/reference_generator/
    sql_converter.py]: the type tables, the regular-expression rewrites of
    [SQLConverter], the DDL parser, the migration diff and the
    stored-procedure transpiler.

    Text is a [string] of 8-bit characters.  Character classes and case
    folding are Python's on the ASCII range ([\w] is [A-Za-z0-9_], [\s] is
    the code points 9-13, 28-31 and 32, [\d] is [0-9]); code points above
    127 are taken as caseless symbols that are neither word characters nor
    white space.  Python dictionaries are association lists in insertion
    order. *)

From Stdlib Require Import List String Ascii Bool Arith Lia.
Import ListNotations.
Open Scope list_scope.
Open Scope string_scope.

Set Implicit Arguments.

(** ** Python [str] operations *)

Module Str.

Definition code (a : ascii) : nat := nat_of_ascii a.

Definition between (lo hi : nat) (a : ascii) : bool :=
  Nat.leb lo (code a) && Nat.leb (code a) hi.

Definition is_upper (a : ascii) : bool := between 65 90 a.
Definition is_lower (a : ascii) : bool := between 97 122 a.
Definition is_digit (a : ascii) : bool := between 48 57 a.
Definition is_alpha (a : ascii) : bool := is_upper a || is_lower a.

(** [\w] *)
Definition is_word (a : ascii) : bool :=
  is_alpha a || is_digit a || Ascii.eqb a "_".

(** [\s], and the characters removed by [str.strip()] *)
Definition is_space (a : ascii) : bool :=
  between 9 13 a || between 28 32 a.

Definition lower_chr (a : ascii) : ascii :=
  if is_upper a then ascii_of_nat (code a + 32) else a.

Definition upper_chr (a : ascii) : ascii :=
  if is_lower a then ascii_of_nat (code a - 32) else a.

Fixpoint map (f : ascii -> ascii) (s : string) : string :=
  match s with
  | EmptyString => EmptyString
  | String a s' => String (f a) (map f s')
  end.

Definition lower : string -> string := map lower_chr.
Definition upper : string -> string := map upper_chr.

(** [rev_onto s acc] is the reverse of [s] followed by [acc]. *)
Fixpoint rev_onto (s acc : string) : string :=
  match s with
  | EmptyString => acc
  | String a s' => rev_onto s' (String a acc)
  end.

Definition rev (s : string) : string := rev_onto s "".

(** The first [n] characters of [s], reversed, followed by [acc]. *)
Fixpoint take_rev (n : nat) (s acc : string) : string :=
  match n, s with
  | S n', String a s' => take_rev n' s' (String a acc)
  | _, _ => acc
  end.

Fixpoint drop (n : nat) (s : string) : string :=
  match n, s with
  | S n', String _ s' => drop n' s'
  | _, _ => s
  end.

(** [s.lstrip(chars)] for a one-character predicate *)
Fixpoint lstrip_by (p : ascii -> bool) (s : string) : string :=
  match s with
  | String a s' => if p a then lstrip_by p s' else s
  | EmptyString => EmptyString
  end.

Definition rstrip_by (p : ascii -> bool) (s : string) : string :=
  rev (lstrip_by p (rev s)).

(** [s.strip()] *)
Definition strip (s : string) : string :=
  rstrip_by is_space (lstrip_by is_space s).

(** [s.startswith(p)] *)
Fixpoint startswith (s p : string) : bool :=
  match p, s with
  | EmptyString, _ => true
  | String b p', String a s' => Ascii.eqb a b && startswith s' p'
  | String _ _, EmptyString => false
  end.

(** [sub in s] *)
Fixpoint contains (sub s : string) : bool :=
  startswith s sub ||
  match s with
  | EmptyString => false
  | String _ s' => contains sub s'
  end.

(** [s.replace(old, new)]: non-overlapping occurrences, left to right;
    an empty [old] matches before every character and at the end.
    [skip] counts the characters of an occurrence still to be dropped. *)
Fixpoint replace_from (old new : string) (skip : nat) (s : string) : string :=
  match skip, s with
  | S n, String _ s' => replace_from old new n s'
  | S _, EmptyString => EmptyString
  | O, EmptyString => if startswith "" old then new else EmptyString
  | O, String a s' =>
      if startswith s old then
        match String.length old with
        | O => new ++ String a (replace_from old new 0 s')
        | S n => new ++ replace_from old new n s'
        end
      else String a (replace_from old new 0 s')
  end.

Definition replace (s old new : string) : string := replace_from old new 0 s.

(** [sep.join(parts)] *)
Definition join (sep : string) (parts : list string) : string :=
  String.concat sep parts.

End Str.

(** ** Python [dict] as an association list in insertion order *)

Module Dict.

Section Dict.
Variable V : Type.

Definition t := list (string * V).

Fixpoint get (k : string) (d : t) : option V :=
  match d with
  | [] => None
  | (k', v) :: d' => if String.eqb k k' then Some v else get k d'
  end.

(** [k in d] *)
Definition mem (k : string) (d : t) : bool :=
  match get k d with
  | Some _ => true
  | None => false
  end.

(** [d[k] = v]: an existing key keeps its place and takes the new value, a
    new key goes last. *)
Fixpoint set (k : string) (v : V) (d : t) : t :=
  match d with
  | [] => [(k, v)]
  | (k', v') :: d' =>
      if String.eqb k k' then (k', v) :: d' else (k', v') :: set k v d'
  end.

Definition keys (d : t) : list string := List.map fst d.

Definition values (d : t) : list V := List.map snd d.

End Dict.

End Dict.

(** ** Python's [re]: a backtracking matcher

    The matcher follows the search order of Python's engine: a sequence is
    matched left to right, an alternation tries its branches in order, [?]
    and [*] are greedy and give characters back one at a time.  The patterns
    of [sql_converter.py] repeat single characters only, so [Star] takes a
    character predicate.  A position in the text is the pair of the consumed
    prefix, reversed, and the remaining suffix. *)

Module Re.

(** Captured groups: group number and text, most recent binding first. *)
Definition caps := list (nat * string).

Fixpoint cap_get (n : nat) (c : caps) : option string :=
  match c with
  | [] => None
  | (i, v) :: c' => if Nat.eqb n i then Some v else cap_get n c'
  end.

Inductive regex : Type :=
| Eps
| Chr (p : ascii -> bool)
| Seq (r1 r2 : regex)
| Alt (r1 r2 : regex)
| Opt (r : regex)
| Star (p : ascii -> bool)
| Grp (n : nat) (r : regex)
| WordB
| Bol
| EolM
| NotAhead (r : regex).

Definition word_first (s : string) : bool :=
  match s with
  | String a _ => Str.is_word a
  | EmptyString => false
  end.

(** [\b]: exactly one of the characters around the position is a word
    character; outside the text counts as a non-word character. *)
Definition at_boundary (pre s : string) : bool :=
  xorb (word_first pre) (word_first s).

(** [$] under [re.MULTILINE]: at the end of the text or before a newline. *)
Definition at_eol (s : string) : bool :=
  match s with
  | EmptyString => true
  | String a _ => Ascii.eqb a "010"
  end.

Definition cont (R : Type) := string -> string -> caps -> option R.

Fixpoint star_exec (R : Type) (p : ascii -> bool) (pre s : string) (c : caps)
  (k : cont R) {struct s} : option R :=
  match s with
  | String a s' =>
      if p a then
        match star_exec p (String a pre) s' c k with
        | Some x => Some x
        | None => k pre s c
        end
      else k pre s c
  | EmptyString => k pre s c
  end.

(** The text between two positions of the same run. *)
Definition consumed (pre pre' : string) : string :=
  Str.take_rev (String.length pre' - String.length pre) pre' "".

Fixpoint exec (R : Type) (r : regex) (pre s : string) (c : caps)
  (k : cont R) {struct r} : option R :=
  match r with
  | Eps => k pre s c
  | Chr p =>
      match s with
      | String a s' => if p a then k (String a pre) s' c else None
      | EmptyString => None
      end
  | Seq r1 r2 => exec r1 pre s c (fun pre' s' c' => exec r2 pre' s' c' k)
  | Alt r1 r2 =>
      match exec r1 pre s c k with
      | Some x => Some x
      | None => exec r2 pre s c k
      end
  | Opt r1 =>
      match exec r1 pre s c k with
      | Some x => Some x
      | None => k pre s c
      end
  | Star p => star_exec p pre s c k
  | Grp n r1 =>
      exec r1 pre s c (fun pre' s' c' => k pre' s' ((n, consumed pre pre') :: c'))
  | WordB => if at_boundary pre s then k pre s c else None
  | Bol => match pre with EmptyString => k pre s c | String _ _ => None end
  | EolM => if at_eol s then k pre s c else None
  | NotAhead r1 =>
      match exec r1 pre s c (fun _ _ _ => Some tt) with
      | Some _ => None
      | None => k pre s c
      end
  end.

(** A match object: [m.group(0)] and the groups that took part. *)
Record rmatch : Type := { m_text : string; m_caps : caps }.

Definition group (m : rmatch) (n : nat) : option string :=
  match n with
  | O => Some (m_text m)
  | S _ => cap_get n (m_caps m)
  end.

(** [m.group(n) or ""] *)
Definition group_text (m : rmatch) (n : nat) : string :=
  match group m n with
  | Some g => g
  | None => ""
  end.

(** The match object of an attempt from [pre] that ends at [pre'].  With
    [must_advance], an empty match is refused and the engine backtracks for
    a longer one. *)
Definition finish_match (must_advance : bool) (pre : string) : cont rmatch :=
  fun pre' _ c =>
    if must_advance && Nat.eqb (String.length pre') (String.length pre)
    then None
    else Some {| m_text := consumed pre pre'; m_caps := c |}.

(** One attempt at one position. *)
Definition match_at (r : regex) (must_advance : bool) (pre s : string)
  : option rmatch :=
  exec r pre s [] (finish_match must_advance pre).

(** [re.match] *)
Definition rematch (r : regex) (s : string) : option rmatch :=
  match_at r false "" s.

Fixpoint search_from (r : regex) (pre s : string) : option rmatch :=
  match match_at r false pre s with
  | Some m => Some m
  | None =>
      match s with
      | EmptyString => None
      | String a s' => search_from r (String a pre) s'
      end
  end.

(** [re.search] *)
Definition search (r : regex) (s : string) : option rmatch :=
  search_from r "" s.

Definition seg_cons (A B : Type) (x : A) (p : list A * B) : list A * B :=
  (x :: fst p, snd p).

(** The non-overlapping matches of [r] from left to right, each with the
    text since the previous match, and the text after the last one.  [skip]
    counts the characters of the current match still to be passed and [gap]
    is the reversed text since the previous match.  After an empty match the
    same position is tried once more for a match that advances. *)
Fixpoint scan (r : regex) (skip : nat) (gap pre s : string)
  : list (string * rmatch) * string :=
  match skip, s with
  | S n, String a s' => scan r n gap (String a pre) s'
  | S _, EmptyString => ([], Str.rev gap)
  | O, EmptyString =>
      match match_at r false pre s with
      | Some m => ([(Str.rev gap, m)], "")
      | None => ([], Str.rev gap)
      end
  | O, String a s' =>
      match match_at r false pre s with
      | None => scan r 0 (String a gap) (String a pre) s'
      | Some m =>
          seg_cons (Str.rev gap, m)
            match String.length (m_text m) with
            | S n => scan r n "" (String a pre) s'
            | O =>
                match match_at r true pre s with
                | Some m' =>
                    seg_cons ("", m')
                      (scan r (String.length (m_text m') - 1) "" (String a pre) s')
                | None => scan r 0 (String a "") (String a pre) s'
                end
            end
      end
  end.

Definition segments (r : regex) (s : string) : list (string * rmatch) * string :=
  scan r 0 "" "" s.

(** [re.finditer] *)
Definition finditer (r : regex) (s : string) : list rmatch :=
  List.map snd (fst (segments r s)).

(** The text between the matches with each match replaced. *)
Definition spliced (repl : rmatch -> string)
  (sg : list (string * rmatch) * string) : string :=
  String.concat "" (List.map (fun gm => fst gm ++ repl (snd gm)) (fst sg)) ++ snd sg.

(** [re.sub] with a function as replacement *)
Definition sub_with (r : regex) (repl : rmatch -> string) (s : string) : string :=
  spliced repl (segments r s).

(** [re.split] for a pattern without capturing groups *)
Definition split (r : regex) (s : string) : list string :=
  let sg := segments r s in
  (List.map fst (fst sg) ++ [snd sg])%list.

(** *** Building patterns *)

(** A literal character, and the same under [re.IGNORECASE]. *)
Definition chr (a : ascii) : regex := Chr (Ascii.eqb a).

Definition chr_i (a : ascii) : regex :=
  Chr (fun x => Ascii.eqb (Str.lower_chr x) (Str.lower_chr a)).

(** A literal text, as [re.escape] produces it. *)
Fixpoint lit (s : string) : regex :=
  match s with
  | EmptyString => Eps
  | String a s' => Seq (chr a) (lit s')
  end.

Fixpoint lit_i (s : string) : regex :=
  match s with
  | EmptyString => Eps
  | String a s' => Seq (chr_i a) (lit_i s')
  end.

(** [x+] for a one-character [x] *)
Definition plus (p : ascii -> bool) : regex := Seq (Chr p) (Star p).

Fixpoint seqs (l : list regex) : regex :=
  match l with
  | [] => Eps
  | r :: l' => Seq r (seqs l')
  end.

Fixpoint char_in (cs : string) (a : ascii) : bool :=
  match cs with
  | EmptyString => false
  | String b cs' => Ascii.eqb a b || char_in cs' a
  end.

(** [[^cs]] *)
Definition none_of (cs : string) (a : ascii) : bool := negb (char_in cs a).

(** [.] without [re.DOTALL] *)
Definition dot (a : ascii) : bool := negb (Ascii.eqb a "010").

(** [\s+], [\s*], [\w+], [\d+] *)
Definition spaces1 : regex := plus Str.is_space.
Definition spaces0 : regex := Star Str.is_space.
Definition word1 : regex := plus Str.is_word.
Definition digits1 : regex := plus Str.is_digit.

(** The number of capturing groups, [pattern.groups]. *)
Fixpoint ngroups (r : regex) : nat :=
  match r with
  | Seq r1 r2 | Alt r1 r2 => ngroups r1 + ngroups r2
  | Opt r1 | NotAhead r1 => ngroups r1
  | Grp _ r1 => S (ngroups r1)
  | _ => 0
  end.

(** *** Replacement templates *)

Inductive titem : Type :=
| TLit (s : string)
| TGroup (n : nat).

Definition template := list titem.

Definition is_octdigit (a : ascii) : bool := Str.between 48 55 a.
Definition digit_val (a : ascii) : nat := Str.code a - 48.

Fixpoint all_digits (s : string) : bool :=
  match s with
  | EmptyString => true
  | String a s' => Str.is_digit a && all_digits s'
  end.

Fixpoint nat_of_digits (acc : nat) (s : string) : nat :=
  match s with
  | EmptyString => acc
  | String a s' => nat_of_digits (10 * acc + digit_val a) s'
  end.

(** The text up to the first [>], if there is one. *)
Fixpoint until_gt (s : string) : option string :=
  match s with
  | EmptyString => None
  | String a s' =>
      if Ascii.eqb a ">" then Some EmptyString
      else option_map (String a) (until_gt s')
  end.

Definition one (a : ascii) : string := String a EmptyString.

Definition group_ref (groups n extra : nat) : option (titem * nat) :=
  if Nat.leb n groups then Some (TGroup n, extra) else None.

(** The escape sequences of a template that stand for one character. *)
Definition escape_code (c : ascii) : option nat :=
  if Ascii.eqb c "a" then Some 7
  else if Ascii.eqb c "b" then Some 8
  else if Ascii.eqb c "f" then Some 12
  else if Ascii.eqb c "n" then Some 10
  else if Ascii.eqb c "r" then Some 13
  else if Ascii.eqb c "t" then Some 9
  else if Ascii.eqb c "v" then Some 11
  else if Ascii.eqb c "\" then Some 92
  else None.

(** What follows a backslash in a template ([c] and then [r1]): the item it
    stands for and how many characters it takes after the backslash, or
    [None] where [re] raises. *)
Definition template_escape (groups : nat) (c : ascii) (r1 : string)
  : option (titem * nat) :=
  if Ascii.eqb c "g" then
    match r1 with
    | String lt r2 =>
        if Ascii.eqb lt "<" then
          match until_gt r2 with
          | Some name =>
              if negb (Nat.eqb (String.length name) 0) && all_digits name
              then group_ref groups (nat_of_digits 0 name) (String.length name + 3)
              else None
          | None => None
          end
        else None
    | EmptyString => None
    end
  else if Ascii.eqb c "0" then
    match r1 with
    | String d1 r2 =>
        if is_octdigit d1 then
          match r2 with
          | String d2 _ =>
              if is_octdigit d2
              then Some (TLit (one (ascii_of_nat (8 * digit_val d1 + digit_val d2))), 3)
              else Some (TLit (one (ascii_of_nat (digit_val d1))), 2)
          | EmptyString => Some (TLit (one (ascii_of_nat (digit_val d1))), 2)
          end
        else Some (TLit (one zero), 1)
    | EmptyString => Some (TLit (one zero), 1)
    end
  else if Str.is_digit c then
    match r1 with
    | String d1 r2 =>
        if Str.is_digit d1 then
          match r2 with
          | String d2 _ =>
              if is_octdigit c && is_octdigit d1 && is_octdigit d2 then
                let v := 64 * digit_val c + 8 * digit_val d1 + digit_val d2 in
                if Nat.ltb 255 v then None
                else Some (TLit (one (ascii_of_nat v)), 3)
              else group_ref groups (10 * digit_val c + digit_val d1) 2
          | EmptyString => group_ref groups (10 * digit_val c + digit_val d1) 2
          end
        else group_ref groups (digit_val c) 1
    | EmptyString => group_ref groups (digit_val c) 1
    end
  else
    match escape_code c with
    | Some n => Some (TLit (one (ascii_of_nat n)), 1)
    | None =>
        if Str.is_alpha c then None
        else Some (TLit (String "\" (one c)), 1)
    end.

(** [re]'s parsing of a replacement text; [None] where it raises
    ([bad escape], [invalid group reference], a malformed or unknown
    [\g<name>]).  No pattern of this program names a group. *)
Fixpoint parse_template (groups skip : nat) (s : string) : option template :=
  match s with
  | EmptyString => Some []
  | String a rest =>
      match skip with
      | S n => parse_template groups n rest
      | O =>
          if Ascii.eqb a "\" then
            match rest with
            | EmptyString => None
            | String c r1 =>
                match template_escape groups c r1 with
                | Some (it, n) =>
                    option_map (cons it) (parse_template groups n rest)
                | None => None
                end
            end
          else option_map (cons (TLit (one a))) (parse_template groups 0 rest)
      end
  end.

(** [match.expand]: a group that took no part gives the empty text. *)
Definition expand_item (m : rmatch) (it : titem) : string :=
  match it with
  | TLit s => s
  | TGroup n => group_text m n
  end.

Definition expand (t : template) (m : rmatch) : string :=
  String.concat "" (List.map (expand_item m) t).

(** [re.sub] with a parsed template, and with a replacement text. *)
Definition sub_t (r : regex) (t : template) (s : string) : string :=
  sub_with r (expand t) s.

Definition sub (r : regex) (repl s : string) : option string :=
  option_map (fun t => sub_t r t s) (parse_template (ngroups r) 0 repl).

(** The template of a replacement text written in the program itself,
    which [re] accepts. *)
Definition template_of (r : regex) (repl : string) : template :=
  match parse_template (ngroups r) 0 repl with
  | Some t => t
  | None => []
  end.

Definition sub_fixed (r : regex) (repl s : string) : string :=
  sub_t r (template_of r repl) s.

End Re.

(** ** Type mappings *)

(** Oracle to PostgreSQL type mappings *)
Definition ORACLE_TO_POSTGRES : Dict.t string :=
  [ ("NUMBER", "NUMERIC");
    ("NUMBER(10)", "INTEGER");
    ("NUMBER(19)", "BIGINT");
    ("NUMBER(10,2)", "DECIMAL(10,2)");
    ("NUMBER(19,2)", "DECIMAL(19,2)");
    ("NUMBER(38)", "NUMERIC");
    ("BINARY_FLOAT", "REAL");
    ("BINARY_DOUBLE", "DOUBLE PRECISION");
    ("VARCHAR2", "VARCHAR");
    ("NVARCHAR2", "VARCHAR");
    ("CHAR", "CHAR");
    ("NCHAR", "CHAR");
    ("CLOB", "TEXT");
    ("NCLOB", "TEXT");
    ("LONG", "TEXT");
    ("DATE", "TIMESTAMP");
    ("TIMESTAMP", "TIMESTAMP");
    ("TIMESTAMP WITH TIME ZONE", "TIMESTAMPTZ");
    ("TIMESTAMP WITH LOCAL TIME ZONE", "TIMESTAMPTZ");
    ("INTERVAL YEAR TO MONTH", "INTERVAL");
    ("INTERVAL DAY TO SECOND", "INTERVAL");
    ("BLOB", "BYTEA");
    ("RAW", "BYTEA");
    ("LONG RAW", "BYTEA");
    ("NUMBER(1)", "BOOLEAN");
    ("ROWID", "TEXT");
    ("UROWID", "TEXT");
    ("XMLTYPE", "XML") ].

(** MySQL to PostgreSQL type mappings *)
Definition MYSQL_TO_POSTGRES : Dict.t string :=
  [ ("TINYINT", "SMALLINT");
    ("SMALLINT", "SMALLINT");
    ("MEDIUMINT", "INTEGER");
    ("INT", "INTEGER");
    ("INTEGER", "INTEGER");
    ("BIGINT", "BIGINT");
    ("DECIMAL", "DECIMAL");
    ("NUMERIC", "NUMERIC");
    ("FLOAT", "REAL");
    ("DOUBLE", "DOUBLE PRECISION");
    ("DOUBLE PRECISION", "DOUBLE PRECISION");
    ("VARCHAR", "VARCHAR");
    ("CHAR", "CHAR");
    ("TINYTEXT", "TEXT");
    ("TEXT", "TEXT");
    ("MEDIUMTEXT", "TEXT");
    ("LONGTEXT", "TEXT");
    ("ENUM", "VARCHAR(255)");
    ("SET", "VARCHAR(255)");
    ("DATE", "DATE");
    ("DATETIME", "TIMESTAMP");
    ("TIMESTAMP", "TIMESTAMP");
    ("TIME", "TIME");
    ("YEAR", "SMALLINT");
    ("TINYBLOB", "BYTEA");
    ("BLOB", "BYTEA");
    ("MEDIUMBLOB", "BYTEA");
    ("LONGBLOB", "BYTEA");
    ("BINARY", "BYTEA");
    ("VARBINARY", "BYTEA");
    ("BOOL", "BOOLEAN");
    ("BOOLEAN", "BOOLEAN");
    ("JSON", "JSONB") ].

(** [sorted(keys, key=len, reverse=True)]: longest first, keys of one
    length in their original order. *)
Fixpoint insert_by_len (k : string) (l : list string) : list string :=
  match l with
  | [] => [k]
  | x :: l' =>
      if Nat.ltb (String.length k) (String.length x)
      then x :: insert_by_len k l'
      else k :: l
  end.

Definition sorted_by_len_desc (l : list string) : list string :=
  fold_right insert_by_len [] l.

(** ** Data model ([models.py]) *)

Record SQLTransformation : Type := {
  original_table : string;
  new_table : string;
  column_mappings : Dict.t string;
  type_conversions : Dict.t string;
  dialect_conversion : string
}.

(** One column dictionary of [SQLTable.columns]. *)
Record Column : Type := {
  col_name : string;
  col_type : string;
  col_nullable : bool;
  col_primary_key : bool;
  col_unique : bool;
  col_default : option string
}.

Record ForeignKey : Type := {
  fk_column : string;
  references_table : string;
  references_column : string
}.

Record SQLTable : Type := {
  name : string;
  columns : list Column;
  primary_key : string;
  foreign_keys : list ForeignKey;
  indexes : list string;
  original_sql : string;
  dialect : string
}.

(** The exception that [convert_schema] catches; its message is [re]'s. *)
Inductive failure : Type := ConversionFailed.

Record ConversionResult : Type := {
  success : bool;
  converted_sql : string;
  transformations : list SQLTransformation;
  tables_converted : list string;
  warnings : list string;
  errors : list failure
}.


(** The newline character as a text. *)
Definition nl : string := String "010" EmptyString.

(** ** SQLConverter *)

Module SQLConverter.
Import Re.

Definition _type_mappings : Dict.t (Dict.t string) :=
  [ ("oracle_to_postgresql", ORACLE_TO_POSTGRES);
    ("mysql_to_postgresql", MYSQL_TO_POSTGRES) ].

(** [(\([^)]+\))?], the optional size behind a type *)
Definition size_group : regex :=
  Opt (Grp 1 (seqs [chr "("; plus (none_of ")"); chr ")"])).

(** [rf"\b{re.escape(oracle_type)}\b(\([^)]+\))?"], [re.IGNORECASE] *)
Definition type_pattern (t : string) : regex :=
  seqs [WordB; lit_i t; WordB; size_group].

(** [lambda m: pg_type + (m.group(1) or "")] *)
Definition type_replacement (pg_type : string) (m : rmatch) : string :=
  pg_type ++ group_text m 1.

(** The body of the loop of [_convert_types]: the substitution of one
    source type. *)
Definition convert_type (type_map : Dict.t string) (converted t : string) : string :=
  match Dict.get t type_map with
  | Some pg_type => sub_with (type_pattern t) (type_replacement pg_type) converted
  | None => converted
  end.

Definition _convert_types (sql : string) (type_map : Dict.t string) : string :=
  fold_left (convert_type type_map) (sorted_by_len_desc (Dict.keys type_map)) sql.

(** [\s+KEYWORD\s+\d+], [re.IGNORECASE] *)
Definition storage_number (kw : string) : regex :=
  seqs [spaces1; lit_i kw; spaces1; digits1].

(** [\bWORD\b], [re.IGNORECASE] *)
Definition whole_word (w : string) : regex := seqs [WordB; lit_i w; WordB].

(** The substitutions of [_convert_oracle_syntax], in the order they are
    applied, each with its replacement text. *)
Definition oracle_rules : list (regex * string) :=
  [ (whole_word "SYSDATE", "CURRENT_DATE");
    (whole_word "SYSTIMESTAMP", "CURRENT_TIMESTAMP");
    (seqs [WordB; lit_i "NVL"; spaces0; chr "("], "COALESCE(");
    (seqs [spaces1; lit_i "TABLESPACE"; spaces1; word1], "");
    (seqs [spaces1; lit_i "STORAGE"; spaces0; chr "("; plus (none_of ")"); chr ")"], "");
    (storage_number "PCTFREE", "");
    (storage_number "PCTUSED", "");
    (storage_number "INITRANS", "");
    (storage_number "MAXTRANS", "");
    (whole_word "VARCHAR2", "VARCHAR");
    (whole_word "NUMBER(10)", "INTEGER");
    (whole_word "NUMBER(19)", "BIGINT");
    (whole_word "NUMBER(1)", "BOOLEAN");
    (seqs [WordB; lit_i "NUMBER("; Grp 1 digits1; chr ","; spaces0;
           Grp 2 digits1; chr ")"], "DECIMAL(\1,\2)");
    (whole_word "NUMBER", "NUMERIC") ].

Definition apply_rule (converted : string) (rule : regex * string) : string :=
  sub_fixed (fst rule) (snd rule) converted.

Definition _convert_oracle_syntax (sql : string) : string :=
  fold_left apply_rule oracle_rules sql.

(** [(\w+)\s+(?:NUMBER|INTEGER)\s+DEFAULT\s+\w+\.NEXTVAL], [re.IGNORECASE] *)
Definition sequence_pattern : regex :=
  seqs [Grp 1 word1; spaces1; Alt (lit_i "NUMBER") (lit_i "INTEGER"); spaces1;
        lit_i "DEFAULT"; spaces1; word1; chr "."; lit_i "NEXTVAL"].

Definition _convert_sequences (sql : string) : string :=
  sub_fixed sequence_pattern "\1 SERIAL" sql.

(** Both renames raise where the new name is not a well-formed
    replacement template. *)
Definition _replace_table_name (sql old_name new_name : string) : option string :=
  sub (whole_word old_name) new_name sql.

Definition _replace_column_name (sql table old_col new_col : string)
  : option string :=
  sub (whole_word old_col) new_col sql.

(** [\n\s*\n\s*\n] *)
Definition blank_lines : regex :=
  seqs [chr "010"; spaces0; chr "010"; spaces0; chr "010"].

(** [;\s*$], [re.MULTILINE] *)
Definition statement_end : regex := seqs [chr ";"; spaces0; EolM].

Definition _clean_sql (sql : string) : string :=
  let sql := sub_fixed blank_lines (nl ++ nl) sql in
  let sql := sub_fixed statement_end (";" ++ nl) sql in
  Str.strip sql.

(** *** The body of [convert_schema]: the result object is updated in place
    and keeps its updates when a step raises. *)

Definition M (A : Type) : Type := ConversionResult -> option A * ConversionResult.

Definition ret (A : Type) (a : A) : M A := fun r => (Some a, r).

Definition bind (A B : Type) (m : M A) (f : A -> M B) : M B :=
  fun r =>
    match m r with
    | (Some a, r') => f a r'
    | (None, r') => (None, r')
    end.

Definition raising (A : Type) (o : option A) : M A := fun r => (o, r).

Definition update (f : ConversionResult -> ConversionResult) : M unit :=
  fun r => (Some tt, f r).

Notation "x <- m ;; k" := (bind m (fun x => k))
  (at level 61, m at next level, right associativity).

Fixpoint for_each (X A : Type) (l : list X) (body : A -> X -> M A) (a : A) : M A :=
  match l with
  | [] => ret a
  | x :: l' => a' <- body a x ;; for_each l' body a'
  end.

Definition empty_result : ConversionResult :=
  {| success := false; converted_sql := ""; transformations := [];
     tables_converted := []; warnings := []; errors := [] |}.

Definition add_table (type_key old_table new_table : string)
  (r : ConversionResult) : ConversionResult :=
  {| success := success r;
     converted_sql := converted_sql r;
     transformations :=
       List.app (transformations r)
         [ {| original_table := old_table; new_table := new_table;
              column_mappings := []; type_conversions := [];
              dialect_conversion := type_key |} ];
     tables_converted :=
       List.app (tables_converted r) [old_table ++ " -> " ++ new_table];
     warnings := warnings r;
     errors := errors r |}.

Definition note_column (table old_col new_col : string) (t : SQLTransformation)
  : SQLTransformation :=
  if String.eqb (original_table t) table then
    {| original_table := original_table t; new_table := new_table t;
       column_mappings := Dict.set old_col new_col (column_mappings t);
       type_conversions := type_conversions t;
       dialect_conversion := dialect_conversion t |}
  else t.

Definition add_column (table old_col new_col : string) (r : ConversionResult)
  : ConversionResult :=
  {| success := success r;
     converted_sql := converted_sql r;
     transformations := List.map (note_column table old_col new_col) (transformations r);
     tables_converted := tables_converted r;
     warnings := warnings r;
     errors := errors r |}.

Definition finish (converted : string) (r : ConversionResult) : ConversionResult :=
  {| success := true;
     converted_sql := converted;
     transformations := transformations r;
     tables_converted := tables_converted r;
     warnings := warnings r;
     errors := errors r |}.

Definition fail (r : ConversionResult) : ConversionResult :=
  {| success := success r;
     converted_sql := converted_sql r;
     transformations := transformations r;
     tables_converted := tables_converted r;
     warnings := warnings r;
     errors := List.app (errors r) [ConversionFailed] |}.

(** Steps 1 and 2: data types, then Oracle-specific syntax. *)
Definition convert_dialect (sql source_dialect target_dialect : string) : string :=
  let type_key := source_dialect ++ "_to_" ++ target_dialect in
  let converted :=
    match Dict.get type_key _type_mappings with
    | Some type_map => _convert_types sql type_map
    | None => sql
    end in
  if String.eqb source_dialect "oracle"
  then _convert_oracle_syntax converted
  else converted.

Definition rename_tables (type_key : string) (table_mappings : Dict.t string)
  : string -> M string :=
  for_each table_mappings
    (fun converted m =>
       c <- raising (_replace_table_name converted (fst m) (snd m)) ;;
       _ <- update (add_table type_key (fst m) (snd m)) ;;
       ret c).

(** One rename of step 4 with its entry in the log. *)
Definition rename_column_step (table : string) (converted : string)
  (m : string * string) : M string :=
  c <- raising (_replace_column_name converted table (fst m) (snd m)) ;;
  _ <- update (add_column table (fst m) (snd m)) ;;
  ret c.

(** The inner loop of step 4: the renames of one table's column map. *)
Definition rename_table_columns (table : string) (cols : Dict.t string)
  : string -> M string :=
  for_each cols (rename_column_step table).

Definition rename_columns (column_mappings : Dict.t (Dict.t string))
  : string -> M string :=
  for_each column_mappings
    (fun converted tc => rename_table_columns (fst tc) (snd tc) converted).

Definition convert_schema (original_sql : string)
  (table_mappings : Dict.t string) (column_mappings : Dict.t (Dict.t string))
  (source_dialect target_dialect : string) : ConversionResult :=
  let type_key := source_dialect ++ "_to_" ++ target_dialect in
  let body : M unit :=
    converted <- rename_tables type_key table_mappings
                   (convert_dialect original_sql source_dialect target_dialect) ;;
    converted <- rename_columns column_mappings converted ;;
    let converted :=
      if String.eqb source_dialect "oracle" && String.eqb target_dialect "postgresql"
      then _convert_sequences converted
      else converted in
    update (finish (_clean_sql converted)) in
  match body empty_result with
  | (Some _, r) => r
  | (None, r) => fail r
  end.

(** *** The DDL parser *)

(** [CREATE\s+TABLE\s+(?:IF\s+NOT\s+EXISTS\s+)?(\w+)\s*\(([^;]+)\)],
    [re.IGNORECASE | re.DOTALL] *)
Definition create_table_pattern : regex :=
  seqs [lit_i "CREATE"; spaces1; lit_i "TABLE"; spaces1;
        Opt (seqs [lit_i "IF"; spaces1; lit_i "NOT"; spaces1; lit_i "EXISTS"; spaces1]);
        Grp 1 word1; spaces0; chr "("; Grp 2 (plus (none_of ";")); chr ")"].

(** [PRIMARY\s+KEY\s*\((\w+)\)], [re.IGNORECASE] *)
Definition primary_key_pattern : regex :=
  seqs [lit_i "PRIMARY"; spaces1; lit_i "KEY"; spaces0;
        chr "("; Grp 1 word1; chr ")"].

(** [FOREIGN\s+KEY\s*\((\w+)\)\s*REFERENCES\s+(\w+)\s*\((\w+)\)],
    [re.IGNORECASE] *)
Definition foreign_key_pattern : regex :=
  seqs [lit_i "FOREIGN"; spaces1; lit_i "KEY"; spaces0;
        chr "("; Grp 1 word1; chr ")"; spaces0; lit_i "REFERENCES"; spaces1;
        Grp 2 word1; spaces0; chr "("; Grp 3 word1; chr ")"].

(** [,(?![^()]*\))]: a comma that no closing parenthesis follows before
    the next parenthesis. *)
Definition top_level_comma : regex :=
  seqs [chr ","; NotAhead (seqs [Star (none_of "()"); chr ")"])].

(** [^\s*(PRIMARY|FOREIGN|UNIQUE|CHECK|CONSTRAINT)], [re.IGNORECASE] *)
Definition constraint_pattern : regex :=
  seqs [Bol; spaces0;
        Grp 1 (Alt (lit_i "PRIMARY") (Alt (lit_i "FOREIGN") (Alt (lit_i "UNIQUE")
              (Alt (lit_i "CHECK") (lit_i "CONSTRAINT")))))].

(** [\w+(?:\([^)]+\))?] *)
Definition sized_type : regex :=
  seqs [word1; Opt (seqs [chr "("; plus (none_of ")"); chr ")"])].

(** [(\w+)\s+(\w+(?:\([^)]+\))?)\s*] and then the group [.*] of the
    attributes, [re.IGNORECASE] *)
Definition column_pattern : regex :=
  seqs [Grp 1 word1; spaces1; Grp 2 sized_type; spaces0; Grp 3 (Star dot)].

(** [DEFAULT\s+([^,\s]+(?:\([^)]*\))?)], [re.IGNORECASE] *)
Definition default_pattern : regex :=
  seqs [lit_i "DEFAULT"; spaces1;
        Grp 1 (seqs [plus (fun a => negb (Ascii.eqb a "," || Str.is_space a));
                     Opt (seqs [chr "("; Star (none_of ")"); chr ")"])])].

Definition _extract_default (attrs : string) : option string :=
  match search default_pattern attrs with
  | Some m => group m 1
  | None => None
  end.

(** The body of the loop of [_parse_columns]: the column of one fragment,
    or nothing where the loop continues. *)
Definition parse_column (part : string) : option Column :=
  let part := Str.strip part in
  if String.eqb part "" then None
  else
    match rematch constraint_pattern part with
    | Some _ => None
    | None =>
        match rematch column_pattern part with
        | Some col_match =>
            let col_attrs := group_text col_match 3 in
            Some {| col_name := group_text col_match 1;
                    col_type := group_text col_match 2;
                    col_nullable := negb (Str.contains "NOT NULL" (Str.upper col_attrs));
                    col_primary_key := Str.contains "PRIMARY KEY" (Str.upper col_attrs);
                    col_unique := Str.contains "UNIQUE" (Str.upper col_attrs);
                    col_default := _extract_default col_attrs |}
        | None => None
        end
    end.

Fixpoint collect (A B : Type) (f : A -> option B) (l : list A) : list B :=
  match l with
  | [] => []
  | x :: l' =>
      match f x with
      | Some y => y :: collect f l'
      | None => collect f l'
      end
  end.

Definition _parse_columns (columns_str : string) : list Column :=
  collect parse_column (split top_level_comma columns_str).

Definition foreign_key_of (fk : rmatch) : ForeignKey :=
  {| fk_column := group_text fk 1;
     references_table := group_text fk 2;
     references_column := group_text fk 3 |}.

(** The table-level constraint if there is one, else the first column
    declared [PRIMARY KEY], else the default of [SQLTable]. *)
Definition find_primary_key (columns_str : string) (cols : list Column) : string :=
  match search primary_key_pattern columns_str with
  | Some pk_match => group_text pk_match 1
  | None =>
      match List.find col_primary_key cols with
      | Some col => col_name col
      | None => ""
      end
  end.

(** The body of the loop of [parse_create_table]. *)
Definition parse_table (m : rmatch) : SQLTable :=
  let columns_str := group_text m 2 in
  let cols := _parse_columns columns_str in
  {| name := group_text m 1;
     columns := cols;
     primary_key := find_primary_key columns_str cols;
     foreign_keys := List.map foreign_key_of (finditer foreign_key_pattern columns_str);
     indexes := [];
     original_sql := group_text m 0;
     dialect := "postgresql" |}.

Definition parse_create_table (sql : string) : list SQLTable :=
  List.map parse_table (finditer create_table_pattern sql).

(** *** The migration diff *)

(** [{t.name.lower(): t for t in tables}] *)
Definition index_tables (tables : list SQLTable) : Dict.t SQLTable :=
  fold_left (fun d t => Dict.set (Str.lower (name t)) t d) tables [].

Definition create_block (table : SQLTable) : list string :=
  [ "-- Create new table: " ++ name table; original_sql table; "" ].

Definition drop_block (table : SQLTable) : list string :=
  [ "-- Drop table: " ++ name table;
    "DROP TABLE IF EXISTS " ++ name table ++ " CASCADE;"; "" ].

(** One of the two loops: the items of [d] whose key is not in [other]
    append their block. *)
Definition emit_missing (block : SQLTable -> list string)
  (d other : Dict.t SQLTable) (lines : list string) : list string :=
  fold_left
    (fun lines item =>
       if negb (Dict.mem (fst item) other)
       then List.app lines (block (snd item))
       else lines)
    d lines.

Definition migration_header : list string :=
  [ "-- Migration Script";
    "-- Generated by ReferenceGenerator SQLConverter"; "" ].

Definition migration_lines (from_tables to_tables : list SQLTable) : list string :=
  let from_dict := index_tables from_tables in
  let to_dict := index_tables to_tables in
  let lines := emit_missing create_block to_dict from_dict migration_header in
  emit_missing drop_block from_dict to_dict lines.

Definition generate_migration (from_tables to_tables : list SQLTable) : string :=
  Str.join nl (migration_lines from_tables to_tables).

End SQLConverter.

(** ** StoredProcedureConverter *)

Module StoredProcedureConverter.
Import Re.

(** One parameter dictionary of [_parse_parameters]. *)
Record ProcedureParameter : Type := {
  param_name : string;
  direction : string;
  oracle_type : string;
  python_type : string
}.

(** [CREATE\s+(?:OR\s+REPLACE\s+)?PROCEDURE\s+(\w+)\s*\(], then the group
    [[^)]*] of the parameters and [\)]; [re.IGNORECASE] *)
Definition procedure_pattern : regex :=
  seqs [lit_i "CREATE"; spaces1;
        Opt (seqs [lit_i "OR"; spaces1; lit_i "REPLACE"; spaces1]);
        lit_i "PROCEDURE"; spaces1; Grp 1 word1; spaces0;
        chr "("; Grp 2 (Star (none_of ")")); chr ")"].

(** [([A-Z])] *)
Definition upper_letter : regex := Grp 1 (Chr Str.is_upper).

Definition apply_entity (n : string) (m : string * string) : string :=
  Str.replace n (Str.lower (fst m)) (Str.lower (snd m)).

Definition _convert_procedure_name (proc_name : string)
  (entity_mapping : Dict.t string) : string :=
  let n :=
    if Str.startswith (Str.upper proc_name) "SP_"
    then Str.drop 3 proc_name
    else proc_name in
  let n := Str.lstrip_by (Ascii.eqb "_") (Str.lower (sub_fixed upper_letter "_\1" n)) in
  fold_left apply_entity entity_mapping n.

Definition _oracle_type_to_python (oracle_type : string) : string :=
  let type_upper := Str.upper oracle_type in
  if Str.contains "NUMBER" type_upper || Str.contains "INT" type_upper then "int"
  else if Str.contains "VARCHAR" type_upper || Str.contains "CHAR" type_upper then "str"
  else if Str.contains "DATE" type_upper || Str.contains "TIMESTAMP" type_upper then "datetime"
  else if Str.contains "CLOB" type_upper || Str.contains "BLOB" type_upper then "bytes"
  else if Str.contains "CURSOR" type_upper then "list[dict[str, Any]]"
  else if Str.contains "BOOLEAN" type_upper then "bool"
  else "Any".

(** [(\w+)\s+(IN(?:\s+OUT)?|OUT)?\s*(\w+(?:\([^)]+\))?)], [re.IGNORECASE] *)
Definition parameter_pattern : regex :=
  seqs [Grp 1 word1; spaces1;
        Opt (Grp 2 (Alt (seqs [lit_i "IN"; Opt (seqs [spaces1; lit_i "OUT"])])
                        (lit_i "OUT")));
        spaces0;
        Grp 3 (seqs [word1; Opt (seqs [chr "("; plus (none_of ")"); chr ")"])])].

(** [(match.group(2) or "IN").upper().replace(" ", "")] *)
Definition direction_of (m : rmatch) : string :=
  let d := match group m 2 with
           | Some (String a g) => String a g
           | _ => "IN"
           end in
  Str.replace (Str.upper d) " " "".

(** The body of the loop of [_parse_parameters]. *)
Definition parse_parameter (entity_mapping : Dict.t string) (part : string)
  : option ProcedureParameter :=
  let part := Str.strip part in
  if String.eqb part "" then None
  else
    match rematch parameter_pattern part with
    | Some m =>
        let py_name := Str.lower (group_text m 1) in
        let py_name :=
          if Str.startswith py_name "p_" then Str.drop 2 py_name else py_name in
        Some {| param_name := fold_left apply_entity entity_mapping py_name;
                direction := direction_of m;
                oracle_type := group_text m 3;
                python_type := _oracle_type_to_python (group_text m 3) |}
    | None => None
    end.

Definition _parse_parameters (params_str : string)
  (entity_mapping : Dict.t string) : list ProcedureParameter :=
  if String.eqb (Str.strip params_str) "" then []
  else
    SQLConverter.collect (parse_parameter entity_mapping)
      (split SQLConverter.top_level_comma params_str).

Definition is_in (p : ProcedureParameter) : bool :=
  String.eqb (direction p) "IN" || String.eqb (direction p) "INOUT".

Definition is_out (p : ProcedureParameter) : bool :=
  String.eqb (direction p) "OUT" || String.eqb (direction p) "INOUT".

Definition non_empty (A : Type) (l : list A) : bool :=
  match l with
  | [] => false
  | _ :: _ => true
  end.

Definition _generate_docstring (proc_name : string)
  (in_params out_params : list ProcedureParameter) : string :=
  let parts : list string :=
    if non_empty in_params then
      "Args:" ::
      List.map (fun p => "            " ++ param_name p ++ ": " ++ python_type p)
        in_params
    else [] in
  let parts :=
    if non_empty out_params then
      List.app parts
        [ "        Returns:";
          match out_params with
          | [p] => "            " ++ python_type p
          | _ => "            dict with: " ++
                 Str.join ", " (List.map param_name out_params)
          end ]
    else parts in
  if non_empty parts then Str.join nl parts
  else "Converted from " ++ proc_name ++ ".".

(** The return annotation of the stub. *)
Definition return_type_of (out_params : list ProcedureParameter) : string :=
  match List.length out_params with
  | 0 => "None"
  | 1 => match out_params with
         | p :: _ => python_type p
         | [] => "None"
         end
  | _ => "dict[str, Any]"
  end.

Definition triple_quote : string :=
  String "034" (String "034" (String "034" EmptyString)).

(** The lines of the stub, for a matched header. *)
Definition stub_lines (proc_name params_str : string)
  (entity_mapping : Dict.t string) : list string :=
  let method_name := _convert_procedure_name proc_name entity_mapping in
  let params := _parse_parameters params_str entity_mapping in
  let in_params := List.filter is_in params in
  let out_params := List.filter is_out params in
  let param_str :=
    Str.join ", "
      (List.map (fun p => param_name p ++ ": " ++ python_type p) in_params) in
  let return_type := return_type_of out_params in
  List.app
    [ "    async def " ++ method_name ++ "("; "        self," ]
    (List.app
       (if String.eqb param_str "" then [] else [ "        " ++ param_str ++ "," ])
       [ "    ) -> " ++ return_type ++ ":";
         "        " ++ triple_quote;
         "        " ++ _generate_docstring proc_name in_params out_params;
         "        Replaces Oracle " ++ proc_name ++ " procedure.";
         "        " ++ triple_quote;
         "        # TODO: Implement business logic";
         "        pass" ]).

Definition convert_to_python (procedure_sql : string)
  (entity_mapping : Dict.t string) : string :=
  match rematch procedure_pattern procedure_sql with
  | None => "# Could not parse procedure"
  | Some proc_match =>
      Str.join nl
        (stub_lines (group_text proc_match 1) (group_text proc_match 2)
           entity_mapping)
  end.

End StoredProcedureConverter.

(** ** Notions used in the statements *)

(** [re.search] finds nothing. *)
Definition no_match (r : Re.regex) (s : string) : bool :=
  match Re.search r s with
  | None => true
  | Some _ => false
  end.

(** None of the patterns of [_convert_oracle_syntax] matches in [s]. *)
Definition oracle_pattern_free (s : string) : bool :=
  forallb (fun rule => no_match (fst rule) s) SQLConverter.oracle_rules.

(** Two results that differ at most in their transformation log. *)
Definition same_outcome (r1 r2 : ConversionResult) : Prop :=
  success r1 = success r2 /\
  converted_sql r1 = converted_sql r2 /\
  tables_converted r1 = tables_converted r2 /\
  warnings r1 = warnings r2 /\
  errors r1 = errors r2.

(** Two column maps with the same renames in the same order, under table
    names that may differ. *)
Definition same_renames (cm1 cm2 : Dict.t (Dict.t string)) : Prop :=
  Dict.values cm1 = Dict.values cm2.

(** A table with a name and its CREATE statement, as the parser leaves it. *)
Definition table_named (n sql : string) : SQLTable :=
  {| name := n; columns := []; primary_key := ""; foreign_keys := [];
     indexes := []; original_sql := sql; dialect := "postgresql" |}.

(** ** Notions for the trailing size qualifier *)

Fixpoint all_chars (p : ascii -> bool) (s : string) : bool :=
  match s with
  | EmptyString => true
  | String a s' => p a && all_chars p s'
  end.

(** The text between the parentheses of a size qualifier: not empty, no
    letter and no parenthesis (digits, commas, blanks, quotes). *)
Definition size_char (a : ascii) : bool :=
  negb (Str.is_alpha a) && negb (Ascii.eqb "(" a) && negb (Ascii.eqb ")" a).

Definition size_body (b : string) : bool :=
  negb (String.eqb b "") && all_chars size_char b.

Definition qualifier (b : string) : string := "(" ++ b ++ ")".

(** How a key compares, whatever the case, with the start of a text: it
    matches and leaves a rest, it differs at a character, or the text ends
    first. *)
Inductive prefix_result : Type :=
| PMatch (matched rest : string)
| PMismatch
| PShort.

Fixpoint ci_prefix (K Y : string) : prefix_result :=
  match K with
  | EmptyString => PMatch "" Y
  | String k K1 =>
      match Y with
      | EmptyString => PShort
      | String y Y1 =>
          if Ascii.eqb (Str.lower_chr y) (Str.lower_chr k) then
            match ci_prefix K1 Y1 with
            | PMatch a b => PMatch (String y a) b
            | PMismatch => PMismatch
            | PShort => PShort
            end
          else PMismatch
      end
  end.

Definition starts_with_letter (K : string) : bool :=
  match K with
  | String k _ => Str.is_alpha k
  | EmptyString => false
  end.

(** The key differs from the text at every position of [X] and at the
    parenthesis that follows [X]. *)
Fixpoint differs_everywhere (K X : string) : bool :=
  match ci_prefix K (X ++ "(") with
  | PMismatch =>
      match X with
      | EmptyString => true
      | String _ X1 => differs_everywhere K X1
      end
  | _ => false
  end.

(** Neither the key nor the text has an opening parenthesis. *)
Definition no_parenthesis (K X : string) : bool :=
  all_chars (fun k => negb (Ascii.eqb (Str.lower_chr "(") (Str.lower_chr k))) K &&
  all_chars (fun c => negb (Ascii.eqb "(" c)) X.

(** One key leaves a qualifier behind [X] alone: the key cannot match in
    [X] followed by a qualifier, or no parenthesis is in the way. *)
Definition key_keeps_qualifier (K X : string) : bool :=
  starts_with_letter K && (differs_everywhere K X || no_parenthesis K X).

(** All keys, in the order they are applied, leave the qualifier alone. *)
Fixpoint keys_keep_qualifier (type_map : Dict.t string) (keys : list string)
  (X : string) : bool :=
  match keys with
  | [] => true
  | K :: keys' =>
      key_keeps_qualifier K X &&
      keys_keep_qualifier type_map keys' (SQLConverter.convert_type type_map X K)
  end.

(** The keys that the checks below leave out: [DOUBLE PRECISION], which
    the shorter key [DOUBLE] rewrites once more, and the precision forms
    [NUMBER(...)]. *)
Definition left_out (T : string) : bool :=
  String.eqb T "DOUBLE PRECISION" || Str.startswith T "NUMBER(".

(** Every key of the table that is not left out converts alone to its
    target and, unless it is [NUMBER], keeps a qualifier behind it. *)
Definition table_converts_in_isolation (type_map : Dict.t string) : bool :=
  forallb
    (fun kv =>
       left_out (fst kv) ||
       (String.eqb (SQLConverter._convert_types (fst kv) type_map) (snd kv) &&
        (String.eqb (fst kv) "NUMBER" ||
         keys_keep_qualifier type_map (sorted_by_len_desc (Dict.keys type_map))
           (fst kv))))
    type_map.

(** ** The convenience function of [sql_converter.py] *)

(** [convert_oracle_to_postgres]: [None] where it raises [ValueError]. *)
Definition convert_oracle_to_postgres (sql : string)
  (table_mappings : Dict.t string) (column_mappings : Dict.t (Dict.t string))
  : option (string * list SQLTransformation) :=
  let result :=
    SQLConverter.convert_schema sql table_mappings column_mappings
      "oracle" "postgresql" in
  if negb (success result) then None
  else Some (converted_sql result, transformations result).

(** ** Notions for the outcome of a conversion *)

(** A new name that [re] accepts as a replacement template. *)
Definition well_formed (new_name : string) : bool :=
  match Re.parse_template 0 0 new_name with
  | Some _ => true
  | None => false
  end.

Definition renames_well_formed (renames : Dict.t string) : bool :=
  forallb (fun m => well_formed (snd m)) renames.

Definition names_well_formed (table_mappings : Dict.t string)
  (column_mappings : Dict.t (Dict.t string)) : bool :=
  renames_well_formed table_mappings &&
  forallb (fun tc => renames_well_formed (snd tc)) column_mappings.

(** A name without a backslash. *)
Definition plain_name (new_name : string) : bool :=
  all_chars (fun a => negb (Ascii.eqb a "\")) new_name.

Definition plain_names (table_mappings : Dict.t string)
  (column_mappings : Dict.t (Dict.t string)) : bool :=
  forallb (fun m => plain_name (snd m)) table_mappings &&
  forallb (fun tc => forallb (fun m => plain_name (snd m)) (snd tc)) column_mappings.

(** What the log says of one transformation, its column map apart. *)
Definition rename_of (t : SQLTransformation) : string * string * string :=
  (original_table t, new_table t, dialect_conversion t).

(** The entry of [tables_converted] for one table rename. *)
Definition rename_label (m : string * string) : string :=
  fst m ++ " -> " ++ snd m.

(** What a run of the column loops leaves as it found it. *)
Definition columns_only (r r' : ConversionResult) : Prop :=
  success r' = success r /\
  converted_sql r' = converted_sql r /\
  tables_converted r' = tables_converted r /\
  warnings r' = warnings r /\
  errors r' = errors r /\
  List.map rename_of (transformations r') = List.map rename_of (transformations r).

(** No character of the class [p] at the start of [s]. *)
Definition starts_clean (p : ascii -> bool) (s : string) : bool :=
  match s with
  | EmptyString => true
  | String a _ => negb (p a)
  end.

(** No white space at either end. *)
Definition trimmed (s : string) : bool :=
  starts_clean Str.is_space s && starts_clean Str.is_space (Str.rev s).

(** ** Notions for the migration diff *)

(** The key of a table in the index of [generate_migration]. *)
Definition table_key (t : SQLTable) : string := Str.lower (name t).

Definition has_key (k : string) (tables : list SQLTable) : bool :=
  existsb (fun t => String.eqb k (table_key t)) tables.

(** Every table of either list has a namesake, whatever the case, in the
    other. *)
Definition same_table_names (a b : list SQLTable) : bool :=
  forallb (fun t => has_key (table_key t) b) a &&
  forallb (fun t => has_key (table_key t) a) b.

(** No two tables of the list have the same name, whatever the case. *)
Fixpoint distinct_names (tables : list SQLTable) : bool :=
  match tables with
  | [] => true
  | t :: tables' => negb (has_key (table_key t) tables') && distinct_names tables'
  end.

(** The texts of a list without their repetitions, each at its first place. *)
Definition first_occurrences (l : list string) : list string :=
  fold_left
    (fun acc k => if existsb (String.eqb k) acc then acc else (acc ++ [k])%list)
    l [].

(** ** Notions for the generated names *)

(** No upper-case letter. *)
Definition no_upper (s : string) : bool :=
  all_chars (fun a => negb (Str.is_upper a)) s.

(** ** Notions for what a pattern can take *)

(** Every character that the pattern can take is of the class [q]
    (a lookahead takes none). *)
Fixpoint consumes_only (q : ascii -> bool) (r : Re.regex) : Prop :=
  match r with
  | Re.Chr p | Re.Star p => forall a, p a = true -> q a = true
  | Re.Seq r1 r2 | Re.Alt r1 r2 => consumes_only q r1 /\ consumes_only q r2
  | Re.Opt r1 | Re.Grp _ r1 => consumes_only q r1
  | _ => True
  end.

(** Every character that group [n] of the pattern can take is of the class
    [q n]. *)
Fixpoint groups_consume (q : nat -> ascii -> bool) (r : Re.regex) : Prop :=
  match r with
  | Re.Seq r1 r2 | Re.Alt r1 r2 => groups_consume q r1 /\ groups_consume q r2
  | Re.Opt r1 => groups_consume q r1
  | Re.Grp n r1 => consumes_only (q n) r1 /\ groups_consume q r1
  | _ => True
  end.

(** The numbers of the groups of a pattern that can take part in a match. *)
Fixpoint group_numbers (r : Re.regex) : list nat :=
  match r with
  | Re.Seq r1 r2 | Re.Alt r1 r2 => (group_numbers r1 ++ group_numbers r2)%list
  | Re.Opt r1 => group_numbers r1
  | Re.Grp n r1 => n :: group_numbers r1
  | _ => []
  end.

(** A captured group of one of the numbers [ns] whose text is of its class. *)
Definition capture_ok (q : nat -> ascii -> bool) (ns : list nat)
  (nv : nat * string) : Prop :=
  In (fst nv) ns /\ all_chars (q (fst nv)) (snd nv) = true.

(** [t] occurs in [s]. *)
Definition part_of (t s : string) : Prop := exists a b : string, s = a ++ t ++ b.

(** A non-empty run of word characters. *)
Definition is_identifier (w : string) : bool :=
  negb (String.eqb w "") && all_chars Str.is_word w.

Definition without (c : ascii) (s : string) : bool :=
  all_chars (fun a => negb (Ascii.eqb a c)) s.

(** The key words that open a table constraint in [_parse_columns]. *)
Definition constraint_keywords : list string :=
  ["PRIMARY"; "FOREIGN"; "UNIQUE"; "CHECK"; "CONSTRAINT"].

(** [p] starts with the letters of [K], whatever their case. *)
Definition starts_like (K p : string) : bool :=
  match ci_prefix K p with
  | PMatch _ _ => true
  | _ => false
  end.

Definition starts_with_constraint_keyword (p : string) : bool :=
  existsb (fun K => starts_like K p) constraint_keywords.

(** The class of the characters of group [n] of the procedure header. *)
Definition header_groups (n : nat) (a : ascii) : bool :=
  if Nat.eqb n 2 then negb (Ascii.eqb a ")") else true.

(** ** Template helpers ([code_generator.py]) *)

(** [s.split(sep)] for a one-character separator *)
Fixpoint split_on (sep : ascii) (s : string) : list string :=
  match s with
  | EmptyString => [""]
  | String a s' =>
      if Ascii.eqb a sep then "" :: split_on sep s'
      else
        match split_on sep s' with
        | h :: t => String a h :: t
        | [] => [String a ""]
        end
  end.

(** [s.title()]: a letter behind a letter is lower-cased, any other letter
    is upper-cased. *)
Fixpoint title_from (previous_is_cased : bool) (s : string) : string :=
  match s with
  | EmptyString => EmptyString
  | String a s' =>
      String (if previous_is_cased then Str.lower_chr a else Str.upper_chr a)
        (title_from (Str.is_alpha a) s')
  end.

Definition title (s : string) : string := title_from false s.

(** [re.sub(r"([A-Z])", r"_\1", name).lower().lstrip("_")] *)
Definition to_snake_case (name : string) : string :=
  Str.lstrip_by (Ascii.eqb "_")
    (Str.lower (Re.sub_fixed StoredProcedureConverter.upper_letter "_\1" name)).

(** ["".join(p.title() for p in name.split("_") if p)] *)
Definition to_camel_case (name : string) : string :=
  String.concat ""
    (List.map title
       (List.filter (fun p => negb (String.eqb p "")) (split_on "_" name))).

Definition to_pascal_case (name : string) : string := to_camel_case name.

Definition to_kebab_case (name : string) : string :=
  Str.replace (to_snake_case name) "_" "-".

(** An underscore before every capital letter. *)
Fixpoint underscore_capitals (s : string) : string :=
  match s with
  | EmptyString => EmptyString
  | String a s' =>
      if Str.is_upper a then String "_" (String a (underscore_capitals s'))
      else String a (underscore_capitals s')
  end.

(** The letters of a text, one by one. *)
Fixpoint letters (s : string) : list string :=
  match s with
  | EmptyString => []
  | String a s' => String a "" :: letters s'
  end.

(** Words of lower-case letters, none of them empty. *)
Definition snake_words (ws : list string) : bool :=
  forallb (fun w => negb (String.eqb w "") && all_chars Str.is_lower w) ws.

(** ** Notions for the log of column renames *)

(** The renames of one column map, written over a logged map. *)
Definition log_renames (cols logged : Dict.t string) : Dict.t string :=
  fold_left (fun d m => Dict.set (fst m) (snd m) d) cols logged.

(** The column renames that the log files under a table: those of the
    column maps given under exactly that table name. *)
Definition logged_columns (column_mappings : Dict.t (Dict.t string))
  (table : string) (logged : Dict.t string) : Dict.t string :=
  fold_left
    (fun d tc => if String.eqb table (fst tc) then log_renames (snd tc) d else d)
    column_mappings logged.

(** The entry of the log for one table rename. *)
Definition logged_table (type_key : string)
  (column_mappings : Dict.t (Dict.t string)) (m : string * string)
  : SQLTransformation :=
  {| original_table := fst m;
     new_table := snd m;
     column_mappings := logged_columns column_mappings (fst m) [];
     type_conversions := [];
     dialect_conversion := type_key |}.

(** The loop over the log for one column map, and for all of them. *)
Definition note_columns (table : string) (cols : Dict.t string)
  (t : SQLTransformation) : SQLTransformation :=
  fold_left (fun t m => SQLConverter.note_column table (fst m) (snd m) t) cols t.

Definition note_column_maps (column_mappings : Dict.t (Dict.t string))
  (t : SQLTransformation) : SQLTransformation :=
  fold_left (fun t tc => note_columns (fst tc) (snd tc) t) column_mappings t.

(** ** Notions for a parsed parameter *)

(** The Python name of a parameter: lower case, without a leading [p_], after
    the entity mapping. *)
Definition python_name (entity_mapping : Dict.t string) (n : string) : string :=
  let py_name := Str.lower n in
  let py_name :=
    if Str.startswith py_name "p_" then Str.drop 2 py_name else py_name in
  fold_left StoredProcedureConverter.apply_entity entity_mapping py_name.

(** ** Notions for the order of the types and for parsed keys *)

(** No text of the list is shorter than a later one. *)
Fixpoint longest_first (l : list string) : bool :=
  match l with
  | [] => true
  | x :: l' =>
      forallb (fun y => Nat.leb (String.length y) (String.length x)) l' &&
      longest_first l'
  end.

(** The texts of a given length, in their order. *)
Definition of_length (n : nat) (l : list string) : list string :=
  List.filter (fun k => Nat.eqb (String.length k) n) l.

(** Nothing or an identifier. *)
Definition empty_or_identifier (w : string) : bool :=
  String.eqb w "" || is_identifier w.

Definition foreign_key_named (fk : ForeignKey) : bool :=
  is_identifier (fk_column fk) &&
  is_identifier (references_table fk) &&
  is_identifier (references_column fk).

(** ** The texts the statements speak of *)

(** A text of ASCII characters.  The character classes, the letter cases and
    the comparison without case of [Str] and [Re] are those of Python on
    such a text; the statements that rest on them take one. *)
Definition ascii_text (s : string) : bool :=
  all_chars (fun a => Nat.ltb (Str.code a) 128) s.

(** A new name that holds no group reference in angle brackets.  That is
    the one place where Python versions read a replacement template
    differently: from 3.12 on the brackets take a group number or name and
    nothing else, as [Re.template_escape] has it, and 3.10 and 3.11 also
    take a sign, blanks or underscores with the number. *)
Definition no_bracket_reference (new_name : string) : bool :=
  negb (Str.contains "\g<" new_name).

Definition no_bracket_references (table_mappings : Dict.t string)
  (column_mappings : Dict.t (Dict.t string)) : bool :=
  forallb (fun m => no_bracket_reference (snd m)) table_mappings &&
  forallb (fun tc => forallb (fun m => no_bracket_reference (snd m)) (snd tc))
    column_mappings.

(** The table renames that are applied: those before the first new name
    that is not a well-formed template. *)
Fixpoint accepted_renames (table_mappings : Dict.t string) : Dict.t string :=
  match table_mappings with
  | [] => []
  | m :: rest =>
      if well_formed (snd m) then m :: accepted_renames rest else []
  end.

(** ** Notions for the passes of the syntax rewriter *)

(** The rules of [_convert_oracle_syntax] that remove text: the storage
    clauses. *)
Definition storage_rules : list (Re.regex * string) :=
  filter (fun rule => String.eqb (snd rule) "") SQLConverter.oracle_rules.

(** None of the storage clauses is found in [s]. *)
Definition storage_free (s : string) : bool :=
  forallb (fun rule => no_match (fst rule) s) storage_rules.

Definition found (A : Type) (o : option A) : bool :=
  match o with
  | Some _ => true
  | None => false
  end.

Definition first_is (p : ascii -> bool) (s : string) : bool :=
  match s with
  | String a _ => p a
  | EmptyString => false
  end.

(** The leading characters of [s] that satisfy [p]. *)
Fixpoint leading (p : ascii -> bool) (s : string) : string :=
  match s with
  | String a s' => if p a then String a (leading p s') else ""
  | EmptyString => ""
  end.

(** The patterns of the rewrite have one form: a keyword, matched whatever
    the case, behind a word boundary or white space, and followed by a word
    boundary, by an opening parenthesis, by a word, by a number or by a
    parenthesised text. *)
Inductive keyword_lead : Type :=
| LeadBoundary
| LeadSpaces.

Inductive keyword_tail : Type :=
| TailBoundary
| TailParen
| TailWord
| TailDigits
| TailStorage.

Record keyword_pattern : Type :=
  { kp_lead : keyword_lead; kp_key : string; kp_tail : keyword_tail }.

Definition lead_regex (l : keyword_lead) : Re.regex :=
  match l with
  | LeadBoundary => Re.WordB
  | LeadSpaces => Re.spaces1
  end.

Definition tail_regex (t : keyword_tail) : list Re.regex :=
  match t with
  | TailBoundary => [Re.WordB]
  | TailParen => [Re.spaces0; Re.chr "("]
  | TailWord => [Re.spaces1; Re.word1]
  | TailDigits => [Re.spaces1; Re.digits1]
  | TailStorage => [Re.spaces0; Re.chr "("; Re.plus (Re.none_of ")"); Re.chr ")"]
  end.

Definition kp_regex (q : keyword_pattern) : Re.regex :=
  Re.seqs (lead_regex (kp_lead q) :: Re.lit_i (kp_key q) :: tail_regex (kp_tail q)).

(** A keyword is a non-empty text of word characters that starts with a
    letter. *)
Definition wordy (K : string) : bool :=
  first_is Str.is_alpha K && all_chars Str.is_word K.

(** What stands before the keyword, and what stands behind it. *)
Definition lead_ok (l : keyword_lead) (pre : string) : bool :=
  match l with
  | LeadBoundary => negb (Re.word_first pre)
  | LeadSpaces => first_is Str.is_space pre
  end.

(** The text has a [)]. *)
Definition closes (r : string) : bool :=
  first_is (Ascii.eqb ")") (Str.lstrip_by (Re.none_of ")") r).

(** A text that starts outside [)] and has a [)]. *)
Definition storage_body (r : string) : bool :=
  first_is (Re.none_of ")") r && closes r.

Definition tail_ok (t : keyword_tail) (rest : string) : bool :=
  match t with
  | TailBoundary => negb (Re.word_first rest)
  | TailParen => first_is (Ascii.eqb "(") (Str.lstrip_by Str.is_space rest)
  | TailWord =>
      first_is Str.is_space rest &&
      first_is Str.is_word (Str.lstrip_by Str.is_space rest)
  | TailDigits =>
      first_is Str.is_space rest &&
      first_is Str.is_digit (Str.lstrip_by Str.is_space rest)
  | TailStorage =>
      match Str.lstrip_by Str.is_space rest with
      | String a r => Ascii.eqb "(" a && storage_body r
      | EmptyString => false
      end
  end.

(** The keyword of [q] stands at the position between [pre] (reversed) and
    [s], with what the pattern asks before and behind it. *)
Definition kw_hit (q : keyword_pattern) (pre s : string) : bool :=
  lead_ok (kp_lead q) pre &&
  match ci_prefix (kp_key q) s with
  | PMatch _ rest => tail_ok (kp_tail q) rest
  | _ => false
  end.

(** The keyword stands at the position or further on. *)
Fixpoint occurs_from (q : keyword_pattern) (pre s : string) : bool :=
  kw_hit q pre s ||
  match s with
  | String a s' => occurs_from q (String a pre) s'
  | EmptyString => false
  end.

(** A match of the pattern of [q] starts at the position. *)
Definition kp_start (q : keyword_pattern) (pre s : string) : bool :=
  match kp_lead q with
  | LeadBoundary => kw_hit q pre s
  | LeadSpaces =>
      first_is Str.is_space s &&
      kw_hit q (Str.rev_onto (leading Str.is_space s) pre) (Str.lstrip_by Str.is_space s)
  end.

Fixpoint starts_from (q : keyword_pattern) (pre s : string) : bool :=
  kp_start q pre s ||
  match s with
  | String a s' => starts_from q (String a pre) s'
  | EmptyString => false
  end.

(** One substitution, as a derivation that walks the text [x] and its
    rewriting [y] side by side, from the position behind [px] in [x] and
    behind [py] in [y]: a character at which no match starts is kept, a
    match [M] is replaced by [R]. *)
Inductive rewritten (gap_ok : string -> string -> Prop)
  (step : string -> string -> string -> string -> Prop)
  : string -> string -> string -> string -> Prop :=
| rw_end (px py : string) : rewritten gap_ok step px "" py ""
| rw_keep (a : ascii) (px sx py sy : string) :
    gap_ok px (String a sx) ->
    rewritten gap_ok step (String a px) sx (String a py) sy ->
    rewritten gap_ok step px (String a sx) py (String a sy)
| rw_repl (M R px sx py sy : string) :
    step px M sx R ->
    rewritten gap_ok step (Str.rev_onto M px) sx (Str.rev_onto R py) sy ->
    rewritten gap_ok step px (M ++ sx) py (R ++ sy).

(** No match of [r] starts at the position. *)
Definition gap_of (r : Re.regex) (px sx : string) : Prop :=
  Re.match_at r false px sx = None.

(** At the position [r] matches [M], which [repl] turns into [R]. *)
Definition step_of (r : Re.regex) (repl : Re.rmatch -> string)
  (px M sx R : string) : Prop :=
  exists m : Re.rmatch,
    Re.match_at r false px (M ++ sx) = Some m /\ Re.m_text m = M /\ R = repl m.

(** In a rewritten text no keyword can start inside a replacement: behind
    each of its characters that is not a word character comes a character
    that is not a letter. *)
Fixpoint tight (R : string) : bool :=
  match R with
  | String a R' =>
      match R' with
      | String b _ => (Str.is_word a || negb (Str.is_alpha b)) && tight R'
      | EmptyString => true
      end
  | EmptyString => true
  end.

(** The keyword [K] cannot start where the replacement that starts with
    [head] starts; [closed] says that the replacement is [head] and is
    followed by no word character. *)
Definition clash (K head : string) (closed : bool) : bool :=
  match ci_prefix K head with
  | PMismatch => true
  | PShort => closed
  | PMatch _ _ => false
  end.

(** What a substitution must keep for the keywords to stay where they
    are: a match starts with a letter behind a character that is no word
    character; its replacement starts with [head], holds no white space,
    is tight, has a [)] only if the match has one, and ends in a word
    character unless the match ends in none. *)
Definition tidy (head : string) (closed : bool)
  (step : string -> string -> string -> string -> Prop) : Prop :=
  forall px M sx R : string,
    step px M sx R ->
    Re.word_first px = false /\
    first_is Str.is_alpha M = true /\
    (closes R = true -> closes M = true) /\
    (Re.word_first (Str.rev R) = false -> Re.word_first (Str.rev M) = false) /\
    (exists more : string,
        R = head ++ more /\ (closed = true -> more = "" /\ Re.word_first sx = false)) /\
    all_chars (fun a => negb (Str.is_space a)) R = true /\
    tight R = true.

(** What stands before a position of the rewriting stands before the
    position of the text: no word character, or white space. *)
Definition lead_kept (px py : string) : Prop :=
  (Re.word_first py = false -> Re.word_first px = false) /\
  (first_is Str.is_space py = true -> first_is Str.is_space px = true).

(** Every match of [r] holds a character. *)
Definition never_empty (r : Re.regex) : Prop :=
  forall (ma : bool) (pre s : string) (m : Re.rmatch),
    Re.match_at r ma pre s = Some m -> Re.m_text m <> "".

(** A rule that replaces the whole word [K] by the word [R0]: what the
    two must be like; [closed] asks that [K] holds word characters only. *)
Definition word_rule_ok (K R0 : string) (closed : bool) : bool :=
  first_is Str.is_alpha K &&
  implb closed (all_chars Str.is_word K) &&
  first_is Str.is_alpha R0 &&
  negb (closes R0) &&
  Re.word_first (Str.rev R0) &&
  all_chars (fun a => negb (Str.is_space a)) R0 &&
  tight R0.

(** The keyword [K] stays away under a rule whose replacement starts with
    [head]. *)
Definition stays_away (head : string) (closed : bool) (q : keyword_pattern) : bool :=
  wordy (kp_key q) && clash (kp_key q) head closed.

(** The patterns of the rules as keyword patterns. *)
Definition word_pattern (K : string) : keyword_pattern :=
  {| kp_lead := LeadBoundary; kp_key := K; kp_tail := TailBoundary |}.

Definition nvl_pattern : keyword_pattern :=
  {| kp_lead := LeadBoundary; kp_key := "NVL"; kp_tail := TailParen |}.

Definition tablespace_pattern : keyword_pattern :=
  {| kp_lead := LeadSpaces; kp_key := "TABLESPACE"; kp_tail := TailWord |}.

Definition storage_pattern : keyword_pattern :=
  {| kp_lead := LeadSpaces; kp_key := "STORAGE"; kp_tail := TailStorage |}.

Definition storage_number_pattern (kw : string) : keyword_pattern :=
  {| kp_lead := LeadSpaces; kp_key := kw; kp_tail := TailDigits |}.

(** The keywords that one pass leaves nowhere in a text without storage
    clause. *)
Definition settled_patterns : list keyword_pattern :=
  [ word_pattern "SYSDATE"; word_pattern "SYSTIMESTAMP"; nvl_pattern;
    tablespace_pattern; storage_pattern;
    storage_number_pattern "PCTFREE"; storage_number_pattern "PCTUSED";
    storage_number_pattern "INITRANS"; storage_number_pattern "MAXTRANS";
    word_pattern "VARCHAR2"; word_pattern "NUMBER" ].

(** [\bNUMBER\((\d+),\s*(\d+)\)] *)
Definition decimal_pattern : Re.regex :=
  Re.seqs [Re.WordB; Re.lit_i "NUMBER("; Re.Grp 1 Re.digits1; Re.chr ","; Re.spaces0;
           Re.Grp 2 Re.digits1; Re.chr ")"].

(** * Properties *)

Unset Implicit Arguments.

(** Splits a conjunction of closed equations and evaluates each side. *)
Ltac evaluate :=
  repeat match goal with |- _ /\ _ => split end;
  vm_compute; reflexivity.

(** ** The matcher on a text without a match *)

Lemma scan_no_match (r : Re.regex) (s : string) :
  forall gap pre : string,
    Re.search_from r pre s = None ->
    Re.scan r 0 gap pre s = ([], Str.rev_onto gap s).
Proof.
  induction s as [| a s IH]; intros gap pre H; simpl in *.
  - destruct (Re.match_at r false pre "") eqn:E; [discriminate | reflexivity].
  - destruct (Re.match_at r false pre (String a s)) eqn:E; [discriminate |].
    rewrite (IH (String a gap) (String a pre) H). reflexivity.
Qed.

Lemma segments_no_match (r : Re.regex) (s : string) :
  Re.search r s = None -> Re.segments r s = ([], s).
Proof.
  intros H. unfold Re.segments. rewrite (scan_no_match r s "" "" H). reflexivity.
Qed.

Lemma finditer_no_match (r : Re.regex) (s : string) :
  Re.search r s = None -> Re.finditer r s = [].
Proof.
  intros H. unfold Re.finditer. rewrite (segments_no_match r s H). reflexivity.
Qed.

Lemma sub_with_no_match (r : Re.regex) (f : Re.rmatch -> string) (s : string) :
  Re.search r s = None -> Re.sub_with r f s = s.
Proof.
  intros H. unfold Re.sub_with. rewrite (segments_no_match r s H). reflexivity.
Qed.

Lemma sub_fixed_no_match (r : Re.regex) (repl s : string) :
  Re.search r s = None -> Re.sub_fixed r repl s = s.
Proof.
  intros H. unfold Re.sub_fixed, Re.sub_t. now apply sub_with_no_match.
Qed.

(** ** The syntax rewriter on settled text *)

Lemma rules_fixed (rules : list (Re.regex * string)) (s : string) :
  forallb (fun rule => no_match (fst rule) s) rules = true ->
  fold_left SQLConverter.apply_rule rules s = s.
Proof.
  induction rules as [| rule rules IH]; simpl; intros H; [reflexivity |].
  apply andb_true_iff in H. destruct H as [Hr Hrs].
  unfold no_match in Hr.
  destruct (Re.search (fst rule) s) eqn:E; [discriminate |].
  unfold SQLConverter.apply_rule at 2.
  rewrite (sub_fixed_no_match (fst rule) (snd rule) s E).
  exact (IH Hrs).
Qed.


(** ** Column renames and their table argument *)

Lemma for_each_cons (X A : Type) (x : X) (l : list X)
  (body : A -> X -> SQLConverter.M A) (a : A) (r : ConversionResult) :
  SQLConverter.for_each (x :: l) body a r =
  match body a x r with
  | (Some a', r') => SQLConverter.for_each l body a' r'
  | (None, r') => (None, r')
  end.
Proof. reflexivity. Qed.

Lemma rename_column_step_same_outcome (t1 t2 converted : string)
  (m : string * string) (r1 r2 : ConversionResult) :
  same_outcome r1 r2 ->
  fst (SQLConverter.rename_column_step t1 converted m r1)
  = fst (SQLConverter.rename_column_step t2 converted m r2) /\
  same_outcome (snd (SQLConverter.rename_column_step t1 converted m r1))
               (snd (SQLConverter.rename_column_step t2 converted m r2)).
Proof.
  intros Hr.
  unfold SQLConverter.rename_column_step, SQLConverter.bind, SQLConverter.raising,
    SQLConverter.update, SQLConverter.ret, SQLConverter._replace_column_name.
  destruct (Re.sub (SQLConverter.whole_word (fst m)) (snd m) converted) as [c |];
    simpl; (split; [reflexivity |]); unfold same_outcome in *; simpl; exact Hr.
Qed.

Lemma rename_table_columns_same_outcome (cols : Dict.t string) (t1 t2 : string) :
  forall (converted : string) (r1 r2 : ConversionResult),
    same_outcome r1 r2 ->
    fst (SQLConverter.rename_table_columns t1 cols converted r1)
    = fst (SQLConverter.rename_table_columns t2 cols converted r2) /\
    same_outcome (snd (SQLConverter.rename_table_columns t1 cols converted r1))
                 (snd (SQLConverter.rename_table_columns t2 cols converted r2)).
Proof.
  unfold SQLConverter.rename_table_columns.
  induction cols as [| m cols IH]; intros converted r1 r2 Hr.
  - simpl. split; [reflexivity | exact Hr].
  - rewrite !for_each_cons.
    destruct (rename_column_step_same_outcome t1 t2 converted m r1 r2 Hr) as [H1 H2].
    destruct (SQLConverter.rename_column_step t1 converted m r1) as [o1 r1'].
    destruct (SQLConverter.rename_column_step t2 converted m r2) as [o2 r2'].
    simpl in H1, H2. subst o2.
    destruct o1 as [c |].
    + apply IH; assumption.
    + split; [reflexivity | exact H2].
Qed.

Lemma rename_columns_same_outcome (cm1 : Dict.t (Dict.t string)) :
  forall (cm2 : Dict.t (Dict.t string)) (converted : string)
         (r1 r2 : ConversionResult),
    same_renames cm1 cm2 ->
    same_outcome r1 r2 ->
    fst (SQLConverter.rename_columns cm1 converted r1)
    = fst (SQLConverter.rename_columns cm2 converted r2) /\
    same_outcome (snd (SQLConverter.rename_columns cm1 converted r1))
                 (snd (SQLConverter.rename_columns cm2 converted r2)).
Proof.
  unfold same_renames, Dict.values, SQLConverter.rename_columns.
  induction cm1 as [| [t1 cols1] cm1 IH]; intros [| [t2 cols2] cm2] converted r1 r2 Hcm Hr;
    simpl in Hcm; try discriminate.
  - simpl. split; [reflexivity | exact Hr].
  - injection Hcm as Hcols Hrest. subst cols2.
    rewrite !for_each_cons. simpl fst. simpl snd.
    destruct (rename_table_columns_same_outcome cols1 t1 t2 converted r1 r2 Hr) as [H1 H2].
    destruct (SQLConverter.rename_table_columns t1 cols1 converted r1) as [o1 r1'].
    destruct (SQLConverter.rename_table_columns t2 cols1 converted r2) as [o2 r2'].
    simpl in H1, H2. subst o2.
    destruct o1 as [c |].
    + apply IH; assumption.
    + split; [reflexivity | exact H2].
Qed.

Lemma same_outcome_refl (r : ConversionResult) : same_outcome r r.
Proof. unfold same_outcome. repeat split. Qed.

Lemma convert_schema_same_outcome (sql : string) (tm : Dict.t string)
  (cm1 cm2 : Dict.t (Dict.t string)) (src tgt : string) :
  same_renames cm1 cm2 ->
  same_outcome (SQLConverter.convert_schema sql tm cm1 src tgt)
               (SQLConverter.convert_schema sql tm cm2 src tgt).
Proof.
  intros Hcm. unfold SQLConverter.convert_schema.
  unfold SQLConverter.bind at 1 3.
  destruct (SQLConverter.rename_tables _ tm _ SQLConverter.empty_result) as [o r].
  destruct o as [converted |]; [| apply same_outcome_refl].
  unfold SQLConverter.bind.
  destruct (rename_columns_same_outcome cm1 cm2 converted r r Hcm (same_outcome_refl r))
    as [H1 H2].
  destruct (SQLConverter.rename_columns cm1 converted r) as [o1 r1].
  destruct (SQLConverter.rename_columns cm2 converted r) as [o2 r2].
  simpl in H1, H2. subst o2.
  destruct o1 as [c |]; unfold same_outcome in *; simpl; intuition congruence.
Qed.

(** C10: the column rename does not depend on its table argument.  The
    rename itself gives the same text for any two table names; in
    [convert_schema] a column map filed under one table or another gives
    the same converted text and the same outcome; and a map filed under
    [users] also renames the column [ID] of [orders], whole words only and
    whatever the case. *)
Theorem column_rename_ignores_table :
  (forall sql t1 t2 old_col new_col : string,
      SQLConverter._replace_column_name sql t1 old_col new_col
      = SQLConverter._replace_column_name sql t2 old_col new_col) /\
  (forall (sql : string) (table_mappings : Dict.t string) (t1 t2 : string)
          (cols : Dict.t string) (src tgt : string),
      same_outcome
        (SQLConverter.convert_schema sql table_mappings [(t1, cols)] src tgt)
        (SQLConverter.convert_schema sql table_mappings [(t2, cols)] src tgt)) /\
  converted_sql
    (SQLConverter.convert_schema
       "CREATE TABLE users (id INTEGER, name VARCHAR2(50)); CREATE TABLE orders (ID INTEGER, user_id INTEGER);"
       [] [("users", [("id", "user_key")])] "oracle" "postgresql")
  = "CREATE TABLE users (user_key INTEGER, name VARCHAR(50)); CREATE TABLE orders (user_key INTEGER, user_id INTEGER);".
Proof.
  split; [| split].
  - intros. reflexivity.
  - intros. apply convert_schema_same_outcome. reflexivity.
  - vm_compute. reflexivity.
Qed.

(** ** The return shape of a procedure stub *)

Lemma collect_in (A B : Type) (f : A -> option B) (l : list A) (y : B) :
  In y (SQLConverter.collect f l) -> exists x, In x l /\ f x = Some y.
Proof.
  induction l as [| x l IH]; simpl; intros H; [contradiction |].
  destruct (f x) as [y' |] eqn:E.
  - destruct H as [H | H].
    + subst y'. exists x. split; [now left | exact E].
    + destruct (IH H) as [x' [Hin Hx']]. exists x'. split; [now right | exact Hx'].
  - destruct (IH H) as [x' [Hin Hx']]. exists x'. split; [now right | exact Hx'].
Qed.

Lemma parsed_parameter_type (entity_mapping : Dict.t string) (params_str : string)
  (p : StoredProcedureConverter.ProcedureParameter) :
  In p (StoredProcedureConverter._parse_parameters params_str entity_mapping) ->
  StoredProcedureConverter.python_type p
  = StoredProcedureConverter._oracle_type_to_python
      (StoredProcedureConverter.oracle_type p).
Proof.
  unfold StoredProcedureConverter._parse_parameters.
  destruct (String.eqb (Str.strip params_str) ""); [intros [] |].
  intros H. apply collect_in in H. destruct H as [part [_ H]].
  unfold StoredProcedureConverter.parse_parameter in H.
  destruct (String.eqb (Str.strip part) ""); [discriminate |].
  destruct (Re.rematch StoredProcedureConverter.parameter_pattern (Str.strip part));
    [| discriminate].
  injection H as H. subst p. reflexivity.
Qed.


(** ** The migration diff *)

Lemma dict_mem_set (V : Type) (k k' : string) (v : V) (d : Dict.t V) :
  Dict.mem k (Dict.set k' v d) = String.eqb k k' || Dict.mem k d.
Proof.
  unfold Dict.mem. induction d as [| [k0 v0] d IH]; simpl.
  - destruct (String.eqb k k'); reflexivity.
  - destruct (String.eqb k' k0) eqn:E0; simpl.
    + apply String.eqb_eq in E0. subst k0.
      destruct (String.eqb k k'); reflexivity.
    + destruct (String.eqb k k0) eqn:E1.
      * now rewrite orb_true_r.
      * exact IH.
Qed.

Lemma dict_in_set (V : Type) (k k' : string) (v v0 : V) (d : Dict.t V) :
  In (k, v0) (Dict.set k' v d) ->
  (k = k' /\ v0 = v) \/ In (k, v0) d.
Proof.
  induction d as [| [k1 v1] d IH]; simpl.
  - intros [H | []]. injection H as H1 H2. left. now split.
  - destruct (String.eqb k' k1) eqn:E1; simpl.
    + apply String.eqb_eq in E1. subst k1.
      intros [H | H].
      * injection H as H1 H2. left. now split.
      * right. now right.
    + intros [H | H].
      * right. now left.
      * destruct (IH H) as [H' | H']; [now left | right; now right].
Qed.

Lemma index_tables_mem (tables : list SQLTable) (k : string) :
  Dict.mem k (SQLConverter.index_tables tables)
  = existsb (fun t => String.eqb k (Str.lower (name t))) tables.
Proof.
  unfold SQLConverter.index_tables.
  assert (G : forall d : Dict.t SQLTable,
             Dict.mem k (fold_left (fun d t => Dict.set (Str.lower (name t)) t d) tables d)
             = Dict.mem k d || existsb (fun t => String.eqb k (Str.lower (name t))) tables).
  { induction tables as [| t tables IH]; intros d; simpl.
    - now rewrite orb_false_r.
    - rewrite IH, dict_mem_set.
      destruct (String.eqb k (Str.lower (name t))); destruct (Dict.mem k d); reflexivity. }
  rewrite G. reflexivity.
Qed.

Lemma index_tables_in (tables : list SQLTable) (k : string) (t : SQLTable) :
  In (k, t) (SQLConverter.index_tables tables) ->
  In t tables /\ Str.lower (name t) = k.
Proof.
  unfold SQLConverter.index_tables.
  assert (G : forall d : Dict.t SQLTable,
             In (k, t) (fold_left (fun d t => Dict.set (Str.lower (name t)) t d) tables d) ->
             (In t tables /\ Str.lower (name t) = k) \/ In (k, t) d).
  { induction tables as [| t0 tables IH]; intros d H; simpl in *.
    - now right.
    - destruct (IH _ H) as [[Hin Hk] | H'].
      + left. split; [now right | exact Hk].
      + apply dict_in_set in H'. destruct H' as [[Hk Ht] | H'].
        * left. subst t0. split; [now left | now symmetry].
        * now right. }
  intros H. destruct (G [] H) as [G' | []]. exact G'.
Qed.

Lemma emit_missing_spec (block : SQLTable -> list string)
  (d other : Dict.t SQLTable) :
  forall lines : list string,
    SQLConverter.emit_missing block d other lines
    = (lines ++
       flat_map block
         (Dict.values (filter (fun item => negb (Dict.mem (fst item) other)) d)))%list.
Proof.
  unfold SQLConverter.emit_missing, Dict.values.
  induction d as [| item d IH]; intros lines; simpl.
  - now rewrite app_nil_r.
  - rewrite IH. destruct (negb (Dict.mem (fst item) other)); simpl.
    + now rewrite <- app_assoc.
    + reflexivity.
Qed.



(** ** Text lemmas *)

Lemma append_nil_r (s : string) : s ++ "" = s.
Proof. induction s as [| a s IH]; simpl; [reflexivity | now rewrite IH]. Qed.

Lemma append_assoc (a b c : string) : (a ++ b) ++ c = a ++ (b ++ c).
Proof. induction a as [| x a IH]; simpl; [reflexivity | now rewrite IH]. Qed.

Lemma length_append (a b : string) :
  String.length (a ++ b) = String.length a + String.length b.
Proof. induction a as [| x a IH]; simpl; [reflexivity | now rewrite IH]. Qed.

Lemma rev_onto_append (a b acc : string) :
  Str.rev_onto (a ++ b) acc = Str.rev_onto b (Str.rev_onto a acc).
Proof.
  revert acc. induction a as [| x a IH]; intros acc; simpl; [reflexivity | apply IH].
Qed.

Lemma rev_onto_acc (s acc : string) :
  Str.rev_onto s acc = Str.rev_onto s "" ++ acc.
Proof.
  revert acc. induction s as [| x s IH]; intros acc; simpl; [reflexivity |].
  rewrite IH. rewrite (IH (String x "")). now rewrite append_assoc.
Qed.

Lemma length_rev_onto (s acc : string) :
  String.length (Str.rev_onto s acc) = String.length s + String.length acc.
Proof.
  revert acc. induction s as [| x s IH]; intros acc; simpl; [reflexivity |].
  rewrite IH. simpl. lia.
Qed.

Lemma take_rev_rev_onto (s : string) :
  forall (n : nat) (pre acc : string),
    Str.take_rev (String.length s + n) (Str.rev_onto s pre) acc
    = Str.take_rev n pre (s ++ acc).
Proof.
  induction s as [| x s IH]; intros n pre acc; [reflexivity |].
  change (Str.take_rev (S (String.length s) + n) (Str.rev_onto s (String x pre)) acc
          = Str.take_rev (S n) (String x pre) (s ++ acc)).
  replace (S (String.length s) + n) with (String.length s + S n) by lia.
  apply IH.
Qed.

(** The text consumed from a position is the text that was passed. *)
Lemma consumed_rev_onto (s pre : string) :
  Re.consumed pre (Str.rev_onto s pre) = s.
Proof.
  unfold Re.consumed. rewrite length_rev_onto.
  replace (String.length s + String.length pre - String.length pre)
    with (String.length s + 0) by lia.
  rewrite take_rev_rev_onto. simpl. apply append_nil_r.
Qed.

(** ** The matcher on a literal *)

Lemma exec_lit_i (R : Type) (K : string) :
  forall (pre Y : string) (c : Re.caps) (k : Re.cont R),
    Re.exec (Re.lit_i K) pre Y c k =
    match ci_prefix K Y with
    | PMatch K' rest => k (Str.rev_onto K' pre) rest c
    | _ => None
    end.
Proof.
  induction K as [| k0 K IH]; intros pre Y c k; simpl; [reflexivity |].
  destruct Y as [| y Y]; [reflexivity |].
  destruct (Ascii.eqb (Str.lower_chr y) (Str.lower_chr k0)); [| reflexivity].
  rewrite IH. destruct (ci_prefix K Y); reflexivity.
Qed.

Lemma ci_prefix_match (K : string) :
  forall Y K' rest : string,
    ci_prefix K Y = PMatch K' rest ->
    Y = K' ++ rest /\ String.length K' = String.length K.
Proof.
  induction K as [| k0 K IH]; intros Y K' rest H; simpl in H.
  - injection H as H1 H2. subst. now split.
  - destruct Y as [| y Y]; [discriminate |].
    destruct (Ascii.eqb (Str.lower_chr y) (Str.lower_chr k0)); [| discriminate].
    destruct (ci_prefix K Y) as [a b | |] eqn:E; try discriminate.
    injection H as H1 H2. subst.
    destruct (IH Y a rest E) as [HY Hlen]. subst Y. simpl. split; [reflexivity | now rewrite Hlen].
Qed.

(** A rest appended to the text does not undo a match or a difference. *)
Lemma ci_prefix_append (K : string) :
  forall Y tail : string,
    match ci_prefix K Y with
    | PMatch K' rest => ci_prefix K (Y ++ tail) = PMatch K' (rest ++ tail)
    | PMismatch => ci_prefix K (Y ++ tail) = PMismatch
    | PShort => True
    end.
Proof.
  induction K as [| k0 K IH]; intros Y tail; simpl; [reflexivity |].
  destruct Y as [| y Y]; simpl; [exact I |].
  destruct (Ascii.eqb (Str.lower_chr y) (Str.lower_chr k0)); [| reflexivity].
  specialize (IH Y tail).
  destruct (ci_prefix K Y); [now rewrite IH | now rewrite IH | exact I].
Qed.

(** A key without parenthesis that runs out of text differs at the
    parenthesis that follows. *)
Lemma ci_prefix_short (K : string) :
  forall Y tail : string,
    all_chars (fun k => negb (Ascii.eqb (Str.lower_chr "(") (Str.lower_chr k))) K = true ->
    ci_prefix K Y = PShort ->
    ci_prefix K (Y ++ String "(" tail) = PMismatch.
Proof.
  induction K as [| k0 K IH]; intros Y tail HK H; simpl in *; [discriminate |].
  apply andb_true_iff in HK. destruct HK as [Hk0 HK].
  destruct Y as [| y Y]; simpl.
  - apply negb_true_iff in Hk0. now rewrite Hk0.
  - destruct (Ascii.eqb (Str.lower_chr y) (Str.lower_chr k0)); [| discriminate].
    destruct (ci_prefix K Y) eqn:E; try discriminate.
    now rewrite (IH Y tail HK E).
Qed.

(** ** One source type against a text that ends in a size qualifier *)

Lemma match_at_type_pattern (K : string) (ma : bool) (pre Y : string) :
  Re.match_at (SQLConverter.type_pattern K) ma pre Y =
  if Re.at_boundary pre Y then
    match ci_prefix K Y with
    | PMatch K' rest =>
        if Re.at_boundary (Str.rev_onto K' pre) rest
        then Re.exec SQLConverter.size_group (Str.rev_onto K' pre) rest [] (Re.finish_match ma pre)
        else None
    | _ => None
    end
  else None.
Proof.
  unfold Re.match_at, SQLConverter.type_pattern. simpl Re.seqs.
  change (Re.exec (Re.Seq Re.WordB ?r) pre Y [] ?k)
    with (if Re.at_boundary pre Y then Re.exec r pre Y [] k else None).
  destruct (Re.at_boundary pre Y); [| reflexivity].
  change (Re.exec (Re.Seq (Re.lit_i K) ?r) pre Y [] ?k)
    with (Re.exec (Re.lit_i K) pre Y [] (fun p s c => Re.exec r p s c k)).
  rewrite exec_lit_i.
  destruct (ci_prefix K Y) as [K' rest | |]; reflexivity.
Qed.

Lemma size_group_skipped (R : Type) (p rest : string) (c : Re.caps) (k : Re.cont R) :
  match rest with
  | EmptyString => true
  | String r _ => negb (Ascii.eqb "(" r)
  end = true ->
  Re.exec SQLConverter.size_group p rest c k = k p rest c.
Proof.
  intros H. unfold SQLConverter.size_group. cbn -[Ascii.eqb].
  destruct rest as [| r rest]; [reflexivity |].
  apply negb_true_iff in H. now rewrite H.
Qed.

Lemma star_exec_all (R : Type) (p : ascii -> bool) (body : string) :
  forall (pre tail : string) (c : Re.caps) (k : Re.cont R) (x : R),
    all_chars p body = true ->
    match tail with
    | EmptyString => true
    | String a _ => negb (p a)
    end = true ->
    k (Str.rev_onto body pre) tail c = Some x ->
    Re.star_exec p pre (body ++ tail) c k = Some x.
Proof.
  induction body as [| y body IH]; intros pre tail c k x Hall Htail Hk; simpl in *.
  - destruct tail as [| a tail]; simpl; [exact Hk |].
    apply negb_true_iff in Htail. rewrite Htail. exact Hk.
  - apply andb_true_iff in Hall. destruct Hall as [Hy Hall]. rewrite Hy.
    now rewrite (IH (String y pre) tail c k x Hall Htail Hk).
Qed.

Lemma size_char_not_close (a : ascii) :
  size_char a = true -> Re.none_of ")" a = true.
Proof.
  unfold size_char, Re.none_of. cbn -[Ascii.eqb]. intros H.
  apply andb_true_iff in H. destruct H as [_ H].
  rewrite Ascii.eqb_sym. rewrite orb_false_r. exact H.
Qed.

Lemma all_chars_impl (p q : ascii -> bool) (s : string) :
  (forall a, p a = true -> q a = true) ->
  all_chars p s = true -> all_chars q s = true.
Proof.
  intros Hpq. induction s as [| a s IH]; simpl; [reflexivity |].
  intros H. apply andb_true_iff in H. destruct H as [Ha Hs].
  now rewrite (Hpq a Ha), (IH Hs).
Qed.

Lemma all_chars_append (p : ascii -> bool) (a b : string) :
  all_chars p (a ++ b) = all_chars p a && all_chars p b.
Proof.
  induction a as [| x a IH]; simpl; [reflexivity |].
  now rewrite IH, andb_assoc.
Qed.

(** Behind a qualifier the group takes the whole qualifier. *)
Lemma size_group_taken (R : Type) (b p : string) (c : Re.caps) (k : Re.cont R) (x : R) :
  size_body b = true ->
  k (Str.rev_onto (qualifier b) p) "" ((1, qualifier b) :: c) = Some x ->
  Re.exec SQLConverter.size_group p (qualifier b) c k = Some x.
Proof.
  unfold size_body. intros Hb Hk.
  apply andb_true_iff in Hb. destruct Hb as [Hne Hall].
  destruct b as [| b0 b1]; [discriminate |]. clear Hne.
  simpl in Hall. apply andb_true_iff in Hall. destruct Hall as [Hb0 Hb1].
  unfold SQLConverter.size_group, qualifier. cbn -[Ascii.eqb Re.none_of Re.consumed].
  rewrite Ascii.eqb_refl, (size_char_not_close b0 Hb0).
  assert (E : Re.star_exec (Re.none_of ")") (String b0 (String "(" p)) (b1 ++ ")") c
                (fun pre' s' c' =>
                   Re.exec (Re.Seq (Re.chr ")") Re.Eps) pre' s' c'
                     (fun pre'0 s'0 c'0 =>
                        k pre'0 s'0 ((1, Re.consumed p pre'0) :: c'0)))
              = Some x).
  { apply star_exec_all.
    - exact (all_chars_impl _ _ b1 size_char_not_close Hb1).
    - reflexivity.
    - cbn -[Ascii.eqb Re.none_of Re.consumed]. rewrite Ascii.eqb_refl.
      replace (String ")" (Str.rev_onto b1 (String b0 (String "(" p))))
        with (Str.rev_onto (qualifier (String b0 b1)) p).
      + rewrite consumed_rev_onto. exact Hk.
      + unfold qualifier. simpl. now rewrite rev_onto_append. }
  cbn -[Ascii.eqb Re.none_of Re.consumed] in E. rewrite E. reflexivity.
Qed.

(** ** A key that cannot match *)

Lemma lower_chr_alpha (k : ascii) :
  Str.is_alpha k = true -> Str.is_alpha (Str.lower_chr k) = true.
Proof.
  destruct k as [[] [] [] [] [] [] [] []]; vm_compute; intros H;
    first [reflexivity | discriminate H].
Qed.

Lemma letter_differs (z k : ascii) :
  Str.is_alpha z = false -> Str.is_alpha k = true ->
  Ascii.eqb (Str.lower_chr z) (Str.lower_chr k) = false.
Proof.
  intros Hz Hk.
  assert (Hlz : Str.lower_chr z = z).
  { unfold Str.lower_chr. unfold Str.is_alpha in Hz.
    apply orb_false_iff in Hz. destruct Hz as [Hu _]. now rewrite Hu. }
  rewrite Hlz. destruct (Ascii.eqb z (Str.lower_chr k)) eqn:E; [| reflexivity].
  apply Ascii.eqb_eq in E. subst z.
  rewrite (lower_chr_alpha k Hk) in Hz. discriminate.
Qed.

Lemma type_pattern_no_match_here (K : string) (ma : bool) (pre Y : string) :
  match ci_prefix K Y with PMatch _ _ => False | _ => True end ->
  Re.match_at (SQLConverter.type_pattern K) ma pre Y = None.
Proof.
  intros H. rewrite match_at_type_pattern.
  destruct (Re.at_boundary pre Y); [| reflexivity].
  destruct (ci_prefix K Y); [contradiction | reflexivity | reflexivity].
Qed.

Lemma ci_prefix_nonletter (K : string) (z : ascii) (Z : string) :
  starts_with_letter K = true -> Str.is_alpha z = false ->
  ci_prefix K (String z Z) = PMismatch.
Proof.
  destruct K as [| k0 K]; simpl; [discriminate |].
  intros Hk Hz. now rewrite (letter_differs z k0 Hz Hk).
Qed.

Lemma ci_prefix_empty (K : string) :
  starts_with_letter K = true -> ci_prefix K "" = PShort.
Proof. destruct K; simpl; [discriminate | reflexivity]. Qed.

Lemma search_nonletters (K Z : string) :
  starts_with_letter K = true ->
  all_chars (fun a => negb (Str.is_alpha a)) Z = true ->
  forall pre : string, Re.search_from (SQLConverter.type_pattern K) pre Z = None.
Proof.
  intros HK. induction Z as [| z Z IH]; intros HZ pre; simpl.
  - rewrite type_pattern_no_match_here; [reflexivity |].
    now rewrite ci_prefix_empty.
  - simpl in HZ. apply andb_true_iff in HZ. destruct HZ as [Hz HZ].
    apply negb_true_iff in Hz.
    rewrite type_pattern_no_match_here.
    + now apply IH.
    + now rewrite ci_prefix_nonletter.
Qed.

Lemma size_body_nonletters (b : string) :
  size_body b = true ->
  all_chars (fun a => negb (Str.is_alpha a)) (b ++ ")") = true.
Proof.
  unfold size_body. intros H. apply andb_true_iff in H. destruct H as [_ H].
  rewrite all_chars_append. apply andb_true_iff. split; [| reflexivity].
  apply (all_chars_impl size_char); [| exact H].
  intros a Ha. unfold size_char in Ha.
  apply andb_true_iff in Ha. destruct Ha as [Ha _].
  apply andb_true_iff in Ha. now destruct Ha as [Ha _].
Qed.

(** Where the key differs everywhere, no match is found in the text, with
    or without a qualifier behind it. *)
Lemma differs_everywhere_qualified (K b : string) :
  starts_with_letter K = true -> size_body b = true ->
  forall X pre : string,
    differs_everywhere K X = true ->
    Re.search_from (SQLConverter.type_pattern K) pre (X ++ qualifier b) = None.
Proof.
  intros HK Hb. induction X as [| a X IH]; intros pre H; simpl in H.
  - destruct (ci_prefix K "(") eqn:E; try discriminate.
    change ("" ++ qualifier b) with (String "(" (b ++ ")")).
    simpl. rewrite type_pattern_no_match_here.
    + apply search_nonletters; [exact HK | now apply size_body_nonletters].
    + pose proof (ci_prefix_append K "(" (b ++ ")")) as A. rewrite E in A.
      simpl in A. now rewrite A.
  - destruct (ci_prefix K (String a (X ++ "("))) eqn:E; try discriminate.
    change (String a X ++ qualifier b) with (String a (X ++ qualifier b)).
    simpl. rewrite type_pattern_no_match_here.
    + now apply IH.
    + pose proof (ci_prefix_append K (String a (X ++ "(")) (b ++ ")")) as A.
      rewrite E in A.
      replace (String a (X ++ qualifier b)) with (String a (X ++ "(") ++ (b ++ ")")).
      * now rewrite A.
      * unfold qualifier. simpl. now rewrite append_assoc.
Qed.

Lemma differs_everywhere_alone (K : string) :
  starts_with_letter K = true ->
  forall X pre : string,
    differs_everywhere K X = true ->
    Re.search_from (SQLConverter.type_pattern K) pre X = None.
Proof.
  intros HK. induction X as [| a X IH]; intros pre H; simpl in H.
  - simpl. rewrite type_pattern_no_match_here; [reflexivity |].
    now rewrite ci_prefix_empty.
  - destruct (ci_prefix K (String a (X ++ "("))) eqn:E; try discriminate.
    simpl. rewrite type_pattern_no_match_here.
    + now apply IH.
    + pose proof (ci_prefix_append K (String a X) "(") as A.
      simpl in A. simpl.
      destruct (ci_prefix K (String a X)); [| exact I | exact I].
      simpl in E. rewrite A in E. discriminate.
Qed.

(** ** A key without parenthesis against a text without parenthesis *)

Section PlainKey.

Variables K pg b : string.
Hypothesis HK : starts_with_letter K = true.
Hypothesis HKp :
  all_chars (fun k => negb (Ascii.eqb (Str.lower_chr "(") (Str.lower_chr k))) K = true.
Hypothesis Hb : size_body b = true.

Lemma finish_match_found (pre p s : string) (c : Re.caps) :
  Re.finish_match false pre p s c
  = Some {| Re.m_text := Re.consumed pre p; Re.m_caps := c |}.
Proof. reflexivity. Qed.

Lemma key_length_positive : 1 <= String.length K.
Proof. destruct K; simpl in *; [discriminate | lia]. Qed.

Lemma boundary_before_qualifier (p : string) :
  Re.at_boundary p (qualifier b) = Re.at_boundary p "".
Proof. reflexivity. Qed.

(** What one attempt finds at a position of the text: nothing with or
    without the qualifier; the same match inside the text; or a match up to
    the end of the text, which takes the qualifier as its group. *)
Lemma match_at_plain (pre : string) (a : ascii) (X1 : string) :
  all_chars (fun c => negb (Ascii.eqb "(" c)) (String a X1) = true ->
  (Re.match_at (SQLConverter.type_pattern K) false pre (String a X1) = None /\
   Re.match_at (SQLConverter.type_pattern K) false pre (String a X1 ++ qualifier b) = None)
  \/
  (exists K' : string,
      String.length K' = String.length K /\
      String.length K' < String.length (String a X1) /\
      Re.match_at (SQLConverter.type_pattern K) false pre (String a X1)
      = Some {| Re.m_text := K'; Re.m_caps := [] |} /\
      Re.match_at (SQLConverter.type_pattern K) false pre (String a X1 ++ qualifier b)
      = Some {| Re.m_text := K'; Re.m_caps := [] |})
  \/
  (String.length (String a X1) = String.length K /\
   Re.match_at (SQLConverter.type_pattern K) false pre (String a X1)
   = Some {| Re.m_text := String a X1; Re.m_caps := [] |} /\
   Re.match_at (SQLConverter.type_pattern K) false pre (String a X1 ++ qualifier b)
   = Some {| Re.m_text := String a X1 ++ qualifier b;
             Re.m_caps := [(1, qualifier b)] |}).
Proof.
  intros HX. set (Y := String a X1) in *.
  rewrite !match_at_type_pattern.
  change (Re.at_boundary pre (Y ++ qualifier b)) with (Re.at_boundary pre Y).
  destruct (Re.at_boundary pre Y); [| now left].
  pose proof (ci_prefix_append K Y (qualifier b)) as Happ.
  destruct (ci_prefix K Y) as [K' R | |] eqn:E.
  - rewrite Happ. destruct (ci_prefix_match K Y K' R E) as [HY Hlen].
    destruct R as [| r R1].
    + rewrite append_nil_r in HY. subst K'.
      change ("" ++ qualifier b) with (qualifier b).
      rewrite boundary_before_qualifier.
      destruct (Re.at_boundary (Str.rev_onto Y pre) ""); [| now left].
      right. right. split; [exact Hlen |]. split.
      * rewrite size_group_skipped by reflexivity.
        rewrite finish_match_found. now rewrite consumed_rev_onto.
      * apply size_group_taken; [exact Hb |].
        rewrite finish_match_found.
        rewrite <- rev_onto_append. now rewrite consumed_rev_onto.
    + assert (Hr : negb (Ascii.eqb "(" r) = true).
      { rewrite HY, all_chars_append in HX. apply andb_true_iff in HX.
        destruct HX as [_ HX]. simpl in HX. apply andb_true_iff in HX.
        now destruct HX. }
      change (Re.at_boundary (Str.rev_onto K' pre) (String r R1 ++ qualifier b))
        with (Re.at_boundary (Str.rev_onto K' pre) (String r R1)).
      destruct (Re.at_boundary (Str.rev_onto K' pre) (String r R1)); [| now left].
      right. left. exists K'. split; [exact Hlen |]. split.
      * rewrite HY, length_append. simpl. lia.
      * change (String r R1 ++ qualifier b) with (String r (R1 ++ qualifier b)).
        rewrite !size_group_skipped by exact Hr.
        rewrite !finish_match_found. rewrite consumed_rev_onto. now split.
  - rewrite Happ. now left.
  - unfold qualifier. change ("(" ++ b ++ ")") with (String "(" (b ++ ")")).
    rewrite (ci_prefix_short K Y (b ++ ")") HKp E). now left.
Qed.

Lemma scan_to_the_end (Z : string) :
  forall gap pre : string,
    Re.scan (SQLConverter.type_pattern K) (String.length Z) gap pre Z
    = ([], Str.rev gap).
Proof.
  induction Z as [| z Z IH]; intros gap pre; simpl.
  - rewrite type_pattern_no_match_here; [reflexivity |].
    now rewrite ci_prefix_empty.
  - apply IH.
Qed.

Lemma concat_cons (x : string) (l : list string) :
  String.concat "" (x :: l) = x ++ String.concat "" l.
Proof. destruct l; simpl; [now rewrite append_nil_r | reflexivity]. Qed.

Lemma spliced_seg_cons (f : Re.rmatch -> string) (x : string * Re.rmatch)
  (sg : list (string * Re.rmatch) * string) :
  Re.spliced f (Re.seg_cons x sg) = fst x ++ f (snd x) ++ Re.spliced f sg.
Proof.
  unfold Re.spliced, Re.seg_cons. cbn [fst snd List.map].
  rewrite concat_cons. now rewrite !append_assoc.
Qed.

Lemma scan_step (r : Re.regex) (gap pre : string) (a : ascii) (s' : string) :
  Re.scan r 0 gap pre (String a s') =
  match Re.match_at r false pre (String a s') with
  | None => Re.scan r 0 (String a gap) (String a pre) s'
  | Some m =>
      Re.seg_cons (Str.rev gap, m)
        match String.length (Re.m_text m) with
        | S n => Re.scan r n "" (String a pre) s'
        | O =>
            match Re.match_at r true pre (String a s') with
            | Some m' =>
                Re.seg_cons ("", m')
                  (Re.scan r (String.length (Re.m_text m') - 1) "" (String a pre) s')
            | None => Re.scan r 0 (String a "") (String a pre) s'
            end
        end
  end.
Proof. reflexivity. Qed.

Lemma qualifier_nonletters :
  all_chars (fun a => negb (Str.is_alpha a)) (qualifier b) = true.
Proof.
  unfold qualifier. change ("(" ++ b ++ ")") with (String "(" (b ++ ")")).
  simpl. now apply size_body_nonletters.
Qed.

(** With a qualifier behind the text the substitution gives what it gives
    on the text alone, followed by the qualifier. *)
Lemma scan_plain (X : string) :
  forall (skip : nat) (gap pre : string),
    all_chars (fun c => negb (Ascii.eqb "(" c)) X = true ->
    skip <= String.length X ->
    Re.spliced (SQLConverter.type_replacement pg)
      (Re.scan (SQLConverter.type_pattern K) skip gap pre (X ++ qualifier b))
    = Re.spliced (SQLConverter.type_replacement pg)
        (Re.scan (SQLConverter.type_pattern K) skip gap pre X) ++ qualifier b.
Proof.
  induction X as [| a X1 IH]; intros skip gap pre HX Hskip.
  - simpl in Hskip. assert (skip = 0) by lia. subst skip.
    change ("" ++ qualifier b) with (qualifier b).
    rewrite scan_no_match
      by (apply search_nonletters; [exact HK | exact qualifier_nonletters]).
    simpl. rewrite type_pattern_no_match_here by now rewrite ci_prefix_empty.
    unfold Re.spliced, Str.rev. simpl. apply rev_onto_acc.
  - destruct skip as [| n].
    + change (String a X1 ++ qualifier b) with (String a (X1 ++ qualifier b)).
      rewrite !scan_step.
      assert (HX1 : all_chars (fun c => negb (Ascii.eqb "(" c)) X1 = true).
      { simpl in HX. apply andb_true_iff in HX. now destruct HX. }
      destruct (match_at_plain pre a X1 HX)
        as [[E1 E2] | [(K' & Hlen & Hlt & E1 & E2) | (Hlen & E1 & E2)]];
        change (String a X1 ++ qualifier b) with (String a (X1 ++ qualifier b)) in E2;
        rewrite E1, E2.
      * apply IH; [exact HX1 | lia].
      * cbn [Re.m_text]. pose proof key_length_positive as Hpos.
        destruct (String.length K') as [| n] eqn:En; [lia |].
        rewrite !spliced_seg_cons. cbn [fst snd].
        rewrite IH by (try exact HX1; simpl in Hlt; lia).
        now rewrite !append_assoc.
      * cbn [Re.m_text String.length].
        rewrite !scan_to_the_end.
        rewrite !spliced_seg_cons. cbn [fst snd].
        unfold Re.spliced, SQLConverter.type_replacement, Re.group_text. simpl.
        rewrite !append_nil_r. now rewrite !append_assoc.
    + change (String a X1 ++ qualifier b) with (String a (X1 ++ qualifier b)).
      simpl in HX. apply andb_true_iff in HX. destruct HX as [_ HX1].
      simpl in Hskip. apply (IH n gap (String a pre) HX1). lia.
Qed.

End PlainKey.

(** ** The whole conversion against a qualifier *)

Lemma convert_type_qualifier (type_map : Dict.t string) (K X b : string) :
  key_keeps_qualifier K X = true ->
  size_body b = true ->
  SQLConverter.convert_type type_map (X ++ qualifier b) K
  = SQLConverter.convert_type type_map X K ++ qualifier b.
Proof.
  unfold key_keeps_qualifier, SQLConverter.convert_type. intros H Hb.
  apply andb_true_iff in H. destruct H as [HK H].
  destruct (Dict.get K type_map) as [pg |]; [| reflexivity].
  apply orb_true_iff in H. destruct H as [H | H].
  - rewrite !sub_with_no_match; [reflexivity | |].
    + now apply differs_everywhere_alone.
    + now apply differs_everywhere_qualified.
  - unfold no_parenthesis in H. apply andb_true_iff in H. destruct H as [HKp HX].
    unfold Re.sub_with, Re.segments.
    exact (scan_plain K pg b HK HKp Hb X 0 "" "" HX (Nat.le_0_l _)).
Qed.

Lemma convert_types_qualifier (type_map : Dict.t string) (b : string)
  (keys : list string) :
  size_body b = true ->
  forall X : string,
    keys_keep_qualifier type_map keys X = true ->
    fold_left (SQLConverter.convert_type type_map) keys (X ++ qualifier b)
    = fold_left (SQLConverter.convert_type type_map) keys X ++ qualifier b.
Proof.
  intros Hb. induction keys as [| K keys IH]; intros X H; simpl in *; [reflexivity |].
  apply andb_true_iff in H. destruct H as [HK H].
  rewrite (convert_type_qualifier type_map K X b HK Hb).
  now apply IH.
Qed.

(** ** Type mapping *)

Lemma mysql_table_converts :
  table_converts_in_isolation MYSQL_TO_POSTGRES = true.
Proof. vm_compute. reflexivity. Qed.

Lemma oracle_table_converts :
  table_converts_in_isolation ORACLE_TO_POSTGRES = true.
Proof. vm_compute. reflexivity. Qed.

(** Every source type of the MySQL and Oracle tables,
    [DOUBLE PRECISION] and the precision forms [NUMBER(...)] apart, converts
    in isolation to exactly its mapped target; and, [NUMBER] apart, a size
    qualifier behind it (any non-empty text without letter or parenthesis,
    in parentheses) is carried over behind the target in every case, also
    where the target already has a size. *)
Lemma mapped_type_in_isolation (type_map : Dict.t string) (T target b : string) :
  type_map = MYSQL_TO_POSTGRES \/ type_map = ORACLE_TO_POSTGRES ->
  In (T, target) type_map ->
  T <> "DOUBLE PRECISION" ->
  Str.startswith T "NUMBER(" = false ->
  SQLConverter._convert_types T type_map = target /\
  (T <> "NUMBER" -> size_body b = true ->
   SQLConverter._convert_types (T ++ "(" ++ b ++ ")") type_map
   = target ++ "(" ++ b ++ ")").
Proof.
  intros Hmap Hin HT HN.
  assert (Hall : table_converts_in_isolation type_map = true).
  { destruct Hmap; subst type_map;
      [exact mysql_table_converts | exact oracle_table_converts]. }
  unfold table_converts_in_isolation in Hall.
  rewrite forallb_forall in Hall. specialize (Hall (T, target) Hin).
  cbn [fst snd] in Hall.
  assert (Hout : left_out T = false).
  { unfold left_out. rewrite HN, orb_false_r. now apply String.eqb_neq. }
  rewrite Hout in Hall. cbn [orb] in Hall.
  apply andb_true_iff in Hall. destruct Hall as [Halone Hkeys].
  apply String.eqb_eq in Halone. split; [exact Halone |].
  intros HT' Hb.
  apply orb_true_iff in Hkeys. destruct Hkeys as [Hkeys | Hkeys].
  - apply String.eqb_eq in Hkeys. contradiction.
  - change (T ++ "(" ++ b ++ ")") with (T ++ qualifier b).
    change (target ++ "(" ++ b ++ ")") with (target ++ qualifier b).
    rewrite <- Halone. unfold SQLConverter._convert_types.
    now apply convert_types_qualifier.
Qed.

Lemma mapped_type_in_isolation_witness :
  SQLConverter._convert_types "ENUM" MYSQL_TO_POSTGRES = "VARCHAR(255)" /\
  SQLConverter._convert_types "ENUM(255)" MYSQL_TO_POSTGRES = "VARCHAR(255)(255)".
Proof.
  destruct (mapped_type_in_isolation MYSQL_TO_POSTGRES "ENUM" "VARCHAR(255)" "255")
    as [H1 H2].
  - left. reflexivity.
  - simpl. tauto.
  - discriminate.
  - reflexivity.
  - split; [exact H1 |]. apply H2; [discriminate | reflexivity].
Defined.

(** The target of [ENUM] already carries a size and the qualifier of the
    occurrence is appended to it all the same. *)
Lemma enum_qualifier_is_appended :
  SQLConverter._convert_types "ENUM('a','b')" MYSQL_TO_POSTGRES = "VARCHAR(255)('a','b')" /\
  SQLConverter._convert_types "ENUM('a','b')" MYSQL_TO_POSTGRES <> "VARCHAR(255)".
Proof.
  split; [vm_compute; reflexivity | vm_compute; discriminate].
Qed.

(** C5, as the code has it: the qualifier of an occurrence is appended to
    the mapped target whether or not the target carries a size of its own.
    [ENUM] and [SET] map to [VARCHAR(255)], and behind either a qualifier
    (any non-empty text without letter or parenthesis, in parentheses)
    comes out behind [VARCHAR(255)]; so do the value lists
    [ENUM('a','b')] and [SET('x','y')], alone and inside a statement
    converted by [convert_schema].  In isolation [DOUBLE PRECISION] does
    not come out as its target but as [DOUBLE PRECISION PRECISION], and the
    precision forms of [NUMBER] keep their qualifier behind [NUMERIC].
    Every other source type of the two tables converts in isolation to its
    mapped target and, [NUMBER] apart, carries a qualifier over. *)
Theorem size_qualifier_always_appended :
  (forall b : string,
      size_body b = true ->
      SQLConverter._convert_types ("ENUM(" ++ b ++ ")") MYSQL_TO_POSTGRES
      = "VARCHAR(255)(" ++ b ++ ")" /\
      SQLConverter._convert_types ("SET(" ++ b ++ ")") MYSQL_TO_POSTGRES
      = "VARCHAR(255)(" ++ b ++ ")") /\
  SQLConverter._convert_types "ENUM" MYSQL_TO_POSTGRES = "VARCHAR(255)" /\
  SQLConverter._convert_types "ENUM(255)" MYSQL_TO_POSTGRES = "VARCHAR(255)(255)" /\
  SQLConverter._convert_types "ENUM('a','b')" MYSQL_TO_POSTGRES = "VARCHAR(255)('a','b')" /\
  SQLConverter._convert_types "SET('x','y')" MYSQL_TO_POSTGRES = "VARCHAR(255)('x','y')" /\
  converted_sql
    (SQLConverter.convert_schema
       "CREATE TABLE t (status ENUM('new','paid'), n INT)" [] [] "mysql" "postgresql")
  = "CREATE TABLE t (status VARCHAR(255)('new','paid'), n INTEGER)" /\
  Dict.get "DOUBLE PRECISION" MYSQL_TO_POSTGRES = Some "DOUBLE PRECISION" /\
  SQLConverter._convert_types "DOUBLE PRECISION" MYSQL_TO_POSTGRES
  = "DOUBLE PRECISION PRECISION" /\
  Dict.get "NUMBER(10)" ORACLE_TO_POSTGRES = Some "INTEGER" /\
  SQLConverter._convert_types "NUMBER(10)" ORACLE_TO_POSTGRES = "NUMERIC(10)" /\
  Dict.get "NUMBER(19)" ORACLE_TO_POSTGRES = Some "BIGINT" /\
  SQLConverter._convert_types "NUMBER(19)" ORACLE_TO_POSTGRES = "NUMERIC(19)" /\
  (forall (type_map : Dict.t string) (T target b : string),
      type_map = MYSQL_TO_POSTGRES \/ type_map = ORACLE_TO_POSTGRES ->
      In (T, target) type_map ->
      T <> "DOUBLE PRECISION" ->
      Str.startswith T "NUMBER(" = false ->
      SQLConverter._convert_types T type_map = target /\
      (T <> "NUMBER" -> size_body b = true ->
       SQLConverter._convert_types (T ++ "(" ++ b ++ ")") type_map
       = target ++ "(" ++ b ++ ")")).
Proof.
  split.
  { intros b Hb. split.
    - apply (mapped_type_in_isolation MYSQL_TO_POSTGRES "ENUM" "VARCHAR(255)" b);
        [now left | simpl; tauto | discriminate | reflexivity | discriminate | exact Hb].
    - apply (mapped_type_in_isolation MYSQL_TO_POSTGRES "SET" "VARCHAR(255)" b);
        [now left | simpl; tauto | discriminate | reflexivity | discriminate | exact Hb]. }
  repeat (split; [vm_compute; reflexivity |]).
  exact mapped_type_in_isolation.
Qed.

(** C1, as the code has it: through the type conversion
    and the syntax rewrite of [convert_schema], [NUMBER(10)] comes out as
    [NUMERIC(10)] and [NUMBER(10,2)] as [NUMERIC(10,2)]; only the bare
    [NUMBER] comes out as [NUMERIC].  The precision keys end in a
    parenthesis followed by [\b], which holds only before a word character,
    so the generic key is the first to match. *)
Theorem number_precision_forms_not_converted :
  converted_sql (SQLConverter.convert_schema "NUMBER(10)" [] [] "oracle" "postgresql")
  = "NUMERIC(10)" /\
  converted_sql (SQLConverter.convert_schema "NUMBER(10,2)" [] [] "oracle" "postgresql")
  = "NUMERIC(10,2)" /\
  converted_sql (SQLConverter.convert_schema "NUMBER" [] [] "oracle" "postgresql")
  = "NUMERIC" /\
  converted_sql
    (SQLConverter.convert_schema
       "CREATE TABLE t (id NUMBER(10), amount NUMBER(10,2), qty NUMBER)"
       [] [] "oracle" "postgresql")
  = "CREATE TABLE t (id NUMERIC(10), amount NUMERIC(10,2), qty NUMERIC)" /\
  SQLConverter._convert_types "NUMBER(10)" ORACLE_TO_POSTGRES = "NUMERIC(10)" /\
  SQLConverter._convert_oracle_syntax "NUMBER(10)" = "NUMERIC(10)" /\
  SQLConverter._convert_oracle_syntax "NUMBER(10)x" = "INTEGERx".
Proof.
  evaluate.
Qed.

(** ** The DDL parser on the statement of the specification *)

(** C2: the statement parses to one table [orders] with three columns,
    primary key [order_id], [customer_id] not nullable and [total] with
    default [0]. *)
Theorem parse_orders_table :
  SQLConverter.parse_create_table
    "CREATE TABLE orders (order_id NUMBER PRIMARY KEY, customer_id NUMBER NOT NULL, total NUMBER(10,2) DEFAULT 0)"
  = [ {| name := "orders";
         columns :=
           [ {| col_name := "order_id"; col_type := "NUMBER";
                col_nullable := true; col_primary_key := true;
                col_unique := false; col_default := None |};
             {| col_name := "customer_id"; col_type := "NUMBER";
                col_nullable := false; col_primary_key := false;
                col_unique := false; col_default := None |};
             {| col_name := "total"; col_type := "NUMBER(10,2)";
                col_nullable := true; col_primary_key := false;
                col_unique := false; col_default := Some "0" |} ];
         primary_key := "order_id";
         foreign_keys := [];
         indexes := [];
         original_sql :=
           "CREATE TABLE orders (order_id NUMBER PRIMARY KEY, customer_id NUMBER NOT NULL, total NUMBER(10,2) DEFAULT 0)";
         dialect := "postgresql" |} ].
Proof.
  vm_compute. reflexivity.
Qed.

(** ** The procedure stub of the specification *)

(** C3, as the code has it: the stub takes one [int]
    parameter, declares the return type [int] and has a placeholder body,
    but its method is named [c_r_e_a_t_e__o_r_d_e_r]: the snake-case step
    puts an underscore before every capital letter, which gives
    [create_order] for [SP_CreateOrder] and not for [SP_CREATE_ORDER]. *)
Theorem create_order_stub :
  StoredProcedureConverter.convert_to_python
    "CREATE PROCEDURE SP_CREATE_ORDER(p_customer_id IN NUMBER, p_order_id OUT NUMBER)" []
  = Str.join nl
      [ "    async def c_r_e_a_t_e__o_r_d_e_r(";
        "        self,";
        "        customer_id: int,";
        "    ) -> int:";
        "        " ++ StoredProcedureConverter.triple_quote;
        "        Args:";
        "            customer_id: int";
        "        Returns:";
        "            int";
        "        Replaces Oracle SP_CREATE_ORDER procedure.";
        "        " ++ StoredProcedureConverter.triple_quote;
        "        # TODO: Implement business logic";
        "        pass" ] /\
  StoredProcedureConverter._convert_procedure_name "SP_CREATE_ORDER" []
  = "c_r_e_a_t_e__o_r_d_e_r" /\
  StoredProcedureConverter._convert_procedure_name "SP_CreateOrder" []
  = "create_order".
Proof.
  evaluate.
Qed.

(** ** Sequence columns *)

(** C4, as the code has it: the type conversion turns
    [NUMBER] into [NUMERIC] before the sequence step looks for
    [NUMBER|INTEGER], so a [NUMBER] column with a sequence default is not
    declared [SERIAL]; an [INTEGER] column is. *)
Theorem number_sequence_column_not_serial :
  converted_sql
    (SQLConverter.convert_schema
       "CREATE TABLE t (id NUMBER DEFAULT t_seq.NEXTVAL PRIMARY KEY)"
       [] [] "oracle" "postgresql")
  = "CREATE TABLE t (id NUMERIC DEFAULT t_seq.NEXTVAL PRIMARY KEY)" /\
  converted_sql
    (SQLConverter.convert_schema
       "CREATE TABLE t (id INTEGER DEFAULT t_seq.NEXTVAL PRIMARY KEY)"
       [] [] "oracle" "postgresql")
  = "CREATE TABLE t (id SERIAL PRIMARY KEY)" /\
  SQLConverter._convert_sequences
    "CREATE TABLE t (id NUMBER DEFAULT t_seq.NEXTVAL PRIMARY KEY)"
  = "CREATE TABLE t (id SERIAL PRIMARY KEY)".
Proof.
  evaluate.
Qed.

(** ** The outcome of a conversion *)

Lemma ngroups_lit_i (w : string) : Re.ngroups (Re.lit_i w) = 0.
Proof. induction w as [|a w IH]; simpl; [reflexivity | exact IH]. Qed.

Lemma ngroups_whole_word (w : string) : Re.ngroups (SQLConverter.whole_word w) = 0.
Proof. unfold SQLConverter.whole_word. simpl. rewrite ngroups_lit_i. reflexivity. Qed.

Lemma replace_table_name_cases (sql old_name new_name : string) :
  (well_formed new_name = true /\
   exists c, SQLConverter._replace_table_name sql old_name new_name = Some c) \/
  (well_formed new_name = false /\
   SQLConverter._replace_table_name sql old_name new_name = None).
Proof.
  unfold SQLConverter._replace_table_name, Re.sub, well_formed.
  rewrite ngroups_whole_word.
  destruct (Re.parse_template 0 0 new_name) as [t|]; simpl.
  - left. split; [reflexivity | eexists; reflexivity].
  - right. split; reflexivity.
Qed.

Lemma rename_tables_cons (type_key : string) (m : string * string)
  (tm : Dict.t string) (s : string) (r : ConversionResult) :
  SQLConverter.rename_tables type_key (m :: tm) s r =
  match SQLConverter._replace_table_name s (fst m) (snd m) with
  | Some c =>
      SQLConverter.rename_tables type_key tm c
        (SQLConverter.add_table type_key (fst m) (snd m) r)
  | None => (None, r)
  end.
Proof.
  unfold SQLConverter.rename_tables. rewrite for_each_cons.
  unfold SQLConverter.bind, SQLConverter.raising, SQLConverter.update, SQLConverter.ret.
  destruct (SQLConverter._replace_table_name s (fst m) (snd m)); reflexivity.
Qed.

Lemma rename_tables_run (type_key : string) (tm : Dict.t string) :
  forall (s : string) (r : ConversionResult),
    let run := SQLConverter.rename_tables type_key tm s r in
    success (snd run) = success r /\
    converted_sql (snd run) = converted_sql r /\
    warnings (snd run) = warnings r /\
    errors (snd run) = errors r /\
    exists done rest : Dict.t string,
      tm = (done ++ rest)%list /\
      List.map rename_of (transformations (snd run))
      = (List.map rename_of (transformations r)
         ++ List.map (fun m => (fst m, snd m, type_key)) done)%list /\
      tables_converted (snd run)
      = (tables_converted r ++ List.map rename_label done)%list /\
      match rest with
      | [] => True
      | m :: _ => well_formed (snd m) = false
      end /\
      match fst run with
      | Some _ => rest = [] /\ renames_well_formed tm = true
      | None => renames_well_formed tm = false
      end.
Proof.
  induction tm as [|m tm IH]; intros s r run.
  - subst run. simpl. repeat split.
    exists [], []. simpl. rewrite !app_nil_r. repeat split.
  - subst run. rewrite rename_tables_cons.
    destruct (replace_table_name_cases s (fst m) (snd m)) as [[Hw [c Hc]] | [Hw Hc]];
      rewrite Hc.
    + specialize (IH c (SQLConverter.add_table type_key (fst m) (snd m) r)).
      cbv zeta in IH.
      destruct IH as (H1 & H2 & H3 & H4 & done & rest & Htm & Ht & Hl & Hs & Ho).
      rewrite H1, H2, H3, H4. simpl. repeat split.
      exists (m :: done), rest. split; [simpl; rewrite Htm; reflexivity|].
      split.
      { rewrite Ht. simpl. rewrite map_app. simpl. rewrite <- app_assoc. reflexivity. }
      split.
      { rewrite Hl. simpl. rewrite <- app_assoc. reflexivity. }
      split; [exact Hs|].
      unfold renames_well_formed in *. simpl. rewrite Hw. simpl. exact Ho.
    + simpl. repeat split. exists [], (m :: tm). simpl. rewrite !app_nil_r.
      repeat split; [exact Hw|]. unfold renames_well_formed. simpl. rewrite Hw. reflexivity.
Qed.

Lemma replace_column_name_cases (sql table old_col new_col : string) :
  (well_formed new_col = true /\
   exists c, SQLConverter._replace_column_name sql table old_col new_col = Some c) \/
  (well_formed new_col = false /\
   SQLConverter._replace_column_name sql table old_col new_col = None).
Proof. exact (replace_table_name_cases sql old_col new_col). Qed.

Lemma rename_table_columns_cons (table : string) (m : string * string)
  (cols : Dict.t string) (s : string) (r : ConversionResult) :
  SQLConverter.rename_table_columns table (m :: cols) s r =
  match SQLConverter._replace_column_name s table (fst m) (snd m) with
  | Some c =>
      SQLConverter.rename_table_columns table cols c
        (SQLConverter.add_column table (fst m) (snd m) r)
  | None => (None, r)
  end.
Proof.
  unfold SQLConverter.rename_table_columns. rewrite for_each_cons.
  unfold SQLConverter.rename_column_step at 1.
  unfold SQLConverter.bind, SQLConverter.raising, SQLConverter.update, SQLConverter.ret.
  destruct (SQLConverter._replace_column_name s table (fst m) (snd m)); reflexivity.
Qed.

Lemma rename_of_note_column (table old_col new_col : string) (t : SQLTransformation) :
  rename_of (SQLConverter.note_column table old_col new_col t) = rename_of t.
Proof.
  unfold SQLConverter.note_column.
  destruct (String.eqb (original_table t) table); reflexivity.
Qed.

Lemma columns_only_refl (r : ConversionResult) : columns_only r r.
Proof. repeat split. Qed.

Lemma columns_only_trans (r1 r2 r3 : ConversionResult) :
  columns_only r1 r2 -> columns_only r2 r3 -> columns_only r1 r3.
Proof.
  intros (A1 & A2 & A3 & A4 & A5 & A6) (B1 & B2 & B3 & B4 & B5 & B6).
  repeat split; congruence.
Qed.

Lemma columns_only_add_column (table old_col new_col : string) (r : ConversionResult) :
  columns_only r (SQLConverter.add_column table old_col new_col r).
Proof.
  repeat split. simpl. rewrite map_map.
  apply map_ext. intro t. apply rename_of_note_column.
Qed.

Lemma rename_table_columns_run (table : string) (cols : Dict.t string) :
  forall (s : string) (r : ConversionResult),
    let run := SQLConverter.rename_table_columns table cols s r in
    columns_only r (snd run) /\
    match fst run with
    | Some _ => renames_well_formed cols = true
    | None => renames_well_formed cols = false
    end.
Proof.
  induction cols as [|m cols IH]; intros s r run; subst run.
  - split; [apply columns_only_refl | reflexivity].
  - rewrite rename_table_columns_cons.
    destruct (replace_column_name_cases s table (fst m) (snd m))
      as [[Hw [c Hc]] | [Hw Hc]]; rewrite Hc.
    + destruct (IH c (SQLConverter.add_column table (fst m) (snd m) r)) as [Hk Ho].
      split.
      * eapply columns_only_trans; [apply columns_only_add_column | exact Hk].
      * unfold renames_well_formed in *. simpl. rewrite Hw. exact Ho.
    + split; [apply columns_only_refl|].
      unfold renames_well_formed. simpl. rewrite Hw. reflexivity.
Qed.

Lemma rename_columns_cons (tc : string * Dict.t string)
  (cm : Dict.t (Dict.t string)) (s : string) (r : ConversionResult) :
  SQLConverter.rename_columns (tc :: cm) s r =
  match SQLConverter.rename_table_columns (fst tc) (snd tc) s r with
  | (Some c, r') => SQLConverter.rename_columns cm c r'
  | (None, r') => (None, r')
  end.
Proof. unfold SQLConverter.rename_columns. apply for_each_cons. Qed.

Lemma rename_columns_run (cm : Dict.t (Dict.t string)) :
  forall (s : string) (r : ConversionResult),
    let run := SQLConverter.rename_columns cm s r in
    columns_only r (snd run) /\
    match fst run with
    | Some _ => forallb (fun tc => renames_well_formed (snd tc)) cm = true
    | None => forallb (fun tc => renames_well_formed (snd tc)) cm = false
    end.
Proof.
  induction cm as [|tc cm IH]; intros s r run; subst run.
  - split; [apply columns_only_refl | reflexivity].
  - rewrite rename_columns_cons.
    pose proof (rename_table_columns_run (fst tc) (snd tc) s r) as [Hk Ho].
    cbv zeta in Hk, Ho.
    destruct (SQLConverter.rename_table_columns (fst tc) (snd tc) s r) as [[c|] r'];
      simpl in Hk, Ho.
    + destruct (IH c r') as [Hk' Ho']. split.
      * eapply columns_only_trans; eassumption.
      * simpl. rewrite Ho. exact Ho'.
    + split; [exact Hk|]. simpl. rewrite Ho. reflexivity.
Qed.

Lemma convert_schema_unfold (sql : string) (tm : Dict.t string)
  (cm : Dict.t (Dict.t string)) (src tgt : string) :
  SQLConverter.convert_schema sql tm cm src tgt =
  match SQLConverter.rename_tables (src ++ "_to_" ++ tgt) tm
          (SQLConverter.convert_dialect sql src tgt) SQLConverter.empty_result with
  | (Some c, r1) =>
      match SQLConverter.rename_columns cm c r1 with
      | (Some c2, r2) =>
          SQLConverter.finish
            (SQLConverter._clean_sql
               (if String.eqb src "oracle" && String.eqb tgt "postgresql"
                then SQLConverter._convert_sequences c2
                else c2)) r2
      | (None, r2) => SQLConverter.fail r2
      end
  | (None, r1) => SQLConverter.fail r1
  end.
Proof.
  unfold SQLConverter.convert_schema. cbv zeta.
  unfold SQLConverter.bind at 1.
  destruct (SQLConverter.rename_tables (src ++ "_to_" ++ tgt) tm
              (SQLConverter.convert_dialect sql src tgt) SQLConverter.empty_result)
    as [[c|] r1]; [|reflexivity].
  unfold SQLConverter.bind, SQLConverter.update.
  destruct (SQLConverter.rename_columns cm c r1) as [[c2|] r2]; reflexivity.
Qed.

(** The run of the body of [convert_schema], and what each way out of it
    leaves in the result. *)
Lemma convert_schema_run (sql : string) (tm : Dict.t string)
  (cm : Dict.t (Dict.t string)) (src tgt : string) :
  let r := SQLConverter.convert_schema sql tm cm src tgt in
  success r = names_well_formed tm cm /\
  warnings r = [] /\
  errors r = (if success r then [] else [ConversionFailed]) /\
  (success r = false -> converted_sql r = "") /\
  exists done rest : Dict.t string,
    tm = (done ++ rest)%list /\
    List.map rename_of (transformations r)
    = List.map (fun m => (fst m, snd m, src ++ "_to_" ++ tgt)) done /\
    tables_converted r = List.map rename_label done /\
    match rest with
    | [] => True
    | m :: _ => well_formed (snd m) = false
    end /\
    (success r = true -> rest = []).
Proof.
  intro r. subst r. rewrite convert_schema_unfold. unfold names_well_formed.
  pose proof (rename_tables_run (src ++ "_to_" ++ tgt) tm
                (SQLConverter.convert_dialect sql src tgt) SQLConverter.empty_result) as H.
  cbv zeta in H.
  destruct (SQLConverter.rename_tables (src ++ "_to_" ++ tgt) tm
              (SQLConverter.convert_dialect sql src tgt) SQLConverter.empty_result)
    as [[c|] r1].
  - simpl in H.
    destruct H as (H1 & H2 & H3 & H4 & done & rest & Htm & Ht & Hl & Hs & Hrest & Hw).
    simpl in H1, H2, H3, H4, Ht, Hl.
    rewrite Hw. simpl andb.
    pose proof (rename_columns_run cm c r1) as [Hk Ho]. cbv zeta in Hk, Ho.
    destruct (SQLConverter.rename_columns cm c r1) as [[c2|] r2]; simpl in Hk, Ho;
      destruct Hk as (K1 & K2 & K3 & K4 & K5 & K6); rewrite Ho.
    + simpl.
      split; [reflexivity|]. split; [congruence|]. split; [congruence|].
      split; [discriminate|].
      exists done, rest. repeat split; try assumption; congruence.
    + simpl. rewrite K1, H1. simpl.
      split; [reflexivity|]. split; [congruence|].
      split; [rewrite K5, H4; reflexivity|].
      split; [intros _; congruence|].
      exists done, rest. repeat split; try assumption; try congruence; try discriminate.
  - simpl in H.
    destruct H as (H1 & H2 & H3 & H4 & done & rest & Htm & Ht & Hl & Hs & Hw).
    simpl in H1, H2, H3, H4, Ht, Hl.
    rewrite Hw. simpl. rewrite H1. simpl.
    split; [reflexivity|]. split; [congruence|].
    split; [rewrite H4; reflexivity|].
    split; [intros _; congruence|].
    exists done, rest. repeat split; try assumption; try congruence; try discriminate.
Qed.

Lemma rev_append (a b : string) : Str.rev (a ++ b) = Str.rev b ++ Str.rev a.
Proof.
  unfold Str.rev. rewrite rev_onto_append. apply rev_onto_acc.
Qed.

Lemma rev_onto_rev_onto (x : string) :
  forall a b : string, Str.rev_onto (Str.rev_onto x a) b = Str.rev_onto a (x ++ b).
Proof.
  induction x as [|c x IH]; intros a b; simpl; [reflexivity|].
  rewrite IH. reflexivity.
Qed.

Lemma rev_involutive (s : string) : Str.rev (Str.rev s) = s.
Proof.
  unfold Str.rev. rewrite rev_onto_rev_onto. simpl. apply append_nil_r.
Qed.

Lemma lstrip_starts_clean (p : ascii -> bool) (s : string) :
  starts_clean p (Str.lstrip_by p s) = true.
Proof.
  induction s as [|a s IH]; simpl; [reflexivity|].
  destruct (p a) eqn:E; [exact IH | simpl; rewrite E; reflexivity].
Qed.

Lemma lstrip_is_suffix (p : ascii -> bool) (s : string) :
  exists w : string, s = w ++ Str.lstrip_by p s /\ all_chars p w = true.
Proof.
  induction s as [|a s [w [Hs Hw]]]; simpl.
  - exists "". split; reflexivity.
  - destruct (p a) eqn:E.
    + exists (String a w). simpl. rewrite E, Hw. split; [f_equal; exact Hs | reflexivity].
    + exists "". split; reflexivity.
Qed.

Lemma starts_clean_prefix (p : ascii -> bool) (a b : string) :
  starts_clean p (a ++ b) = true -> starts_clean p a = true.
Proof. destruct a; simpl; auto. Qed.

Lemma strip_trimmed (s : string) : trimmed (Str.strip s) = true.
Proof.
  unfold trimmed, Str.strip, Str.rstrip_by.
  rewrite rev_involutive, lstrip_starts_clean, andb_true_r.
  destruct (lstrip_is_suffix Str.is_space (Str.rev (Str.lstrip_by Str.is_space s)))
    as [w [Hs Hw]].
  apply (f_equal Str.rev) in Hs. rewrite rev_involutive, rev_append in Hs.
  apply (starts_clean_prefix Str.is_space _ (Str.rev w)).
  rewrite <- Hs. apply lstrip_starts_clean.
Qed.

(** X6: the text of a conversion never starts or ends with white space,
    whether it succeeded or not. *)
Theorem converted_sql_is_trimmed (sql : string) (tm : Dict.t string)
  (cm : Dict.t (Dict.t string)) (src tgt : string) :
  trimmed (converted_sql (SQLConverter.convert_schema sql tm cm src tgt)) = true.
Proof.
  rewrite convert_schema_unfold.
  destruct (SQLConverter.rename_tables _ _ _ _) as [[c|] r1] eqn:E1.
  - destruct (SQLConverter.rename_columns cm c r1) as [[c2|] r2] eqn:E2.
    + simpl. apply strip_trimmed.
    + pose proof (rename_columns_run cm c r1) as [Hk _]. cbv zeta in Hk.
      rewrite E2 in Hk. destruct Hk as (_ & K2 & _).
      pose proof (rename_tables_run (src ++ "_to_" ++ tgt) tm
                    (SQLConverter.convert_dialect sql src tgt)
                    SQLConverter.empty_result) as H.
      cbv zeta in H. rewrite E1 in H. destruct H as (_ & H2 & _).
      simpl in *. rewrite K2, H2. reflexivity.
  - pose proof (rename_tables_run (src ++ "_to_" ++ tgt) tm
                  (SQLConverter.convert_dialect sql src tgt)
                  SQLConverter.empty_result) as H.
    cbv zeta in H. rewrite E1 in H. destruct H as (_ & H2 & _).
    simpl in *. rewrite H2. reflexivity.
Qed.

Lemma plain_name_well_formed (new_name : string) :
  plain_name new_name = true -> well_formed new_name = true.
Proof.
  unfold plain_name, well_formed. intro H.
  assert (G : exists t, Re.parse_template 0 0 new_name = Some t).
  { induction new_name as [|a s IH]; simpl in *.
    - eexists; reflexivity.
    - apply andb_true_iff in H. destruct H as [Ha Hs].
      apply negb_true_iff in Ha. rewrite Ha.
      destruct (IH Hs) as [t Ht]. rewrite Ht. eexists; reflexivity. }
  destruct G as [t Ht]. rewrite Ht. reflexivity.
Qed.

Lemma forallb_impl (A : Type) (p q : A -> bool) (l : list A) :
  (forall x, p x = true -> q x = true) ->
  forallb p l = true -> forallb q l = true.
Proof.
  intros Hpq. induction l as [|x l IH]; simpl; [reflexivity|].
  intro H. apply andb_true_iff in H. destruct H as [Hx Hl].
  rewrite (Hpq x Hx), (IH Hl). reflexivity.
Qed.

Lemma plain_names_well_formed (tm : Dict.t string) (cm : Dict.t (Dict.t string)) :
  plain_names tm cm = true -> names_well_formed tm cm = true.
Proof.
  unfold plain_names, names_well_formed, renames_well_formed. intro H.
  apply andb_true_iff in H. destruct H as [Ht Hc].
  apply andb_true_iff. split.
  - revert Ht. apply forallb_impl. intros m. apply plain_name_well_formed.
  - revert Hc. apply forallb_impl. intros tc.
    apply forallb_impl. intros m. apply plain_name_well_formed.
Qed.

(** X1: with new names that hold no group reference in angle brackets, a
    conversion succeeds exactly when every new table name and every new
    column name is a replacement template that [re] accepts, whatever the
    text and the dialects. *)
Theorem conversion_succeeds_iff_names_well_formed (sql : string)
  (table_mappings : Dict.t string) (column_mappings : Dict.t (Dict.t string))
  (source_dialect target_dialect : string) :
  no_bracket_references table_mappings column_mappings = true ->
  success (SQLConverter.convert_schema sql table_mappings column_mappings
             source_dialect target_dialect)
  = names_well_formed table_mappings column_mappings.
Proof.
  intros _.
  apply (convert_schema_run sql table_mappings column_mappings
           source_dialect target_dialect).
Qed.

Lemma conversion_succeeds_iff_names_well_formed_witness :
  success
    (SQLConverter.convert_schema "CREATE TABLE ORDERS (ID NUMBER)"
       [("ORDERS", "sales_orders")] [("ORDERS", [("ID", "order\id")])]
       "oracle" "postgresql")
  = false.
Proof.
  apply (conversion_succeeds_iff_names_well_formed "CREATE TABLE ORDERS (ID NUMBER)"
           [("ORDERS", "sales_orders")] [("ORDERS", [("ID", "order\id")])]
           "oracle" "postgresql").
  reflexivity.
Defined.

(** X2: a conversion never leaves a warning; it leaves no error when it
    succeeds and exactly one when it fails, and a failed conversion has the
    empty text, not a partly converted one. *)
Theorem failed_conversion_has_no_text_and_one_error (sql : string)
  (table_mappings : Dict.t string) (column_mappings : Dict.t (Dict.t string))
  (source_dialect target_dialect : string) :
  let r := SQLConverter.convert_schema sql table_mappings column_mappings
             source_dialect target_dialect in
  errors r = (if success r then [] else [ConversionFailed]) /\
  warnings r = [] /\
  (success r = false -> converted_sql r = "").
Proof.
  destruct (convert_schema_run sql table_mappings column_mappings
              source_dialect target_dialect) as (_ & Hw & He & Hc & _).
  cbv zeta. repeat split; assumption.
Qed.

Lemma rename_tables_accepted (type_key : string) (tm : Dict.t string) :
  forall (s : string) (r : ConversionResult),
    let run := SQLConverter.rename_tables type_key tm s r in
    List.map rename_of (transformations (snd run))
    = (List.map rename_of (transformations r)
       ++ List.map (fun m => (fst m, snd m, type_key)) (accepted_renames tm))%list /\
    tables_converted (snd run)
    = (tables_converted r ++ List.map rename_label (accepted_renames tm))%list.
Proof.
  induction tm as [|m tm IH]; intros s r run; subst run.
  - simpl. rewrite !app_nil_r. split; reflexivity.
  - rewrite rename_tables_cons. cbn [accepted_renames].
    destruct (replace_table_name_cases s (fst m) (snd m)) as [[Hw [c Hc]] | [Hw Hc]];
      rewrite Hc, Hw.
    + destruct (IH c (SQLConverter.add_table type_key (fst m) (snd m) r)) as [Ht Hl].
      rewrite Ht, Hl. simpl. rewrite map_app. simpl. rewrite <- !app_assoc.
      split; reflexivity.
    + simpl. rewrite !app_nil_r. split; reflexivity.
Qed.

(** X3: with new table names that hold no group reference in angle brackets,
    the log holds exactly the table renames before the first new name that
    [re] refuses, in the order of the mapping, each under the dialect pair,
    and [tables_converted] holds their labels: all of them when every new
    table name is accepted, whether the conversion then succeeds or a column
    rename fails. *)
Theorem log_holds_the_table_renames_applied (sql : string)
  (table_mappings : Dict.t string) (column_mappings : Dict.t (Dict.t string))
  (source_dialect target_dialect : string) :
  forallb (fun m => no_bracket_reference (snd m)) table_mappings = true ->
  let r := SQLConverter.convert_schema sql table_mappings column_mappings
             source_dialect target_dialect in
  List.map rename_of (transformations r)
  = List.map (fun m => (fst m, snd m, source_dialect ++ "_to_" ++ target_dialect))
      (accepted_renames table_mappings) /\
  tables_converted r = List.map rename_label (accepted_renames table_mappings) /\
  (renames_well_formed table_mappings = true ->
   accepted_renames table_mappings = table_mappings).
Proof.
  intros _. cbv zeta. split; [|split].
  - rewrite convert_schema_unfold.
    pose proof (rename_tables_accepted (source_dialect ++ "_to_" ++ target_dialect)
                  table_mappings
                  (SQLConverter.convert_dialect sql source_dialect target_dialect)
                  SQLConverter.empty_result) as [Ht _].
    cbv zeta in Ht.
    destruct (SQLConverter.rename_tables _ _ _ _) as [[c|] r1]; [|exact Ht].
    pose proof (rename_columns_run column_mappings c r1) as [Hk _].
    cbv zeta in Hk.
    destruct (SQLConverter.rename_columns column_mappings c r1) as [[c2|] r2];
      destruct Hk as (_ & _ & _ & _ & _ & K6); simpl in *; rewrite K6; exact Ht.
  - rewrite convert_schema_unfold.
    pose proof (rename_tables_accepted (source_dialect ++ "_to_" ++ target_dialect)
                  table_mappings
                  (SQLConverter.convert_dialect sql source_dialect target_dialect)
                  SQLConverter.empty_result) as [_ Hl].
    cbv zeta in Hl.
    destruct (SQLConverter.rename_tables _ _ _ _) as [[c|] r1]; [|exact Hl].
    pose proof (rename_columns_run column_mappings c r1) as [Hk _].
    cbv zeta in Hk.
    destruct (SQLConverter.rename_columns column_mappings c r1) as [[c2|] r2];
      destruct Hk as (_ & _ & K3 & _); simpl in *; rewrite K3; exact Hl.
  - unfold renames_well_formed.
    induction table_mappings as [|m tm IH]; [reflexivity|].
    cbn [forallb accepted_renames]. intro H.
    apply andb_true_iff in H. destruct H as [Hm Htm].
    rewrite Hm, (IH Htm). reflexivity.
Qed.

Lemma log_holds_the_table_renames_applied_witness :
  tables_converted
    (SQLConverter.convert_schema "CREATE TABLE A (X NUMBER); CREATE TABLE B (Y NUMBER)"
       [("A", "first"); ("B", "second\q"); ("C", "third")] []
       "oracle" "postgresql")
  = ["A -> first"].
Proof.
  apply (log_holds_the_table_renames_applied
           "CREATE TABLE A (X NUMBER); CREATE TABLE B (Y NUMBER)"
           [("A", "first"); ("B", "second\q"); ("C", "third")] []
           "oracle" "postgresql").
  reflexivity.
Defined.

(** X4: with new names that have no backslash the conversion succeeds
    without an error and lists every table rename. *)
Theorem plain_names_never_fail (sql : string)
  (table_mappings : Dict.t string) (column_mappings : Dict.t (Dict.t string))
  (source_dialect target_dialect : string) :
  plain_names table_mappings column_mappings = true ->
  let r := SQLConverter.convert_schema sql table_mappings column_mappings
             source_dialect target_dialect in
  success r = true /\ errors r = [] /\
  tables_converted r = List.map rename_label table_mappings.
Proof.
  intros Hp.
  destruct (convert_schema_run sql table_mappings column_mappings
              source_dialect target_dialect)
    as (Hs & _ & He & _ & done & rest & Htm & _ & Hl & _ & Hrest).
  cbv zeta. rewrite (plain_names_well_formed _ _ Hp) in Hs.
  rewrite Hs in He. specialize (Hrest Hs). subst rest.
  rewrite app_nil_r in Htm. subst done.
  repeat split; assumption.
Qed.

Lemma plain_names_never_fail_witness :
  plain_names [("ORDERS", "sales_orders")] [("ORDERS", [("ID", "order_id")])] = true /\
  let r := SQLConverter.convert_schema "CREATE TABLE ORDERS (ID NUMBER)"
             [("ORDERS", "sales_orders")] [("ORDERS", [("ID", "order_id")])]
             "oracle" "postgresql" in
  success r = true /\ errors r = [] /\
  tables_converted r = List.map rename_label [("ORDERS", "sales_orders")].
Proof.
  split; [reflexivity|].
  apply (plain_names_never_fail "CREATE TABLE ORDERS (ID NUMBER)"
           [("ORDERS", "sales_orders")] [("ORDERS", [("ID", "order_id")])]
           "oracle" "postgresql").
  reflexivity.
Defined.

(** X5: with new names that hold no group reference in angle brackets,
    [convert_oracle_to_postgres] raises exactly when a new name is not a
    well-formed template, and otherwise returns the text and the log of the
    Oracle to PostgreSQL conversion. *)
Theorem convert_oracle_to_postgres_raises_on_malformed_name (sql : string)
  (table_mappings : Dict.t string) (column_mappings : Dict.t (Dict.t string)) :
  no_bracket_references table_mappings column_mappings = true ->
  convert_oracle_to_postgres sql table_mappings column_mappings
  = if names_well_formed table_mappings column_mappings
    then
      let r := SQLConverter.convert_schema sql table_mappings column_mappings
                 "oracle" "postgresql" in
      Some (converted_sql r, transformations r)
    else None.
Proof.
  intros _.
  unfold convert_oracle_to_postgres.
  destruct (convert_schema_run sql table_mappings column_mappings
              "oracle" "postgresql") as (Hs & _).
  cbv zeta in *. rewrite Hs.
  destruct (names_well_formed table_mappings column_mappings); reflexivity.
Qed.

Lemma convert_oracle_to_postgres_raises_on_malformed_name_witness :
  convert_oracle_to_postgres "CREATE TABLE ORDERS (ID NUMBER)"
    [("ORDERS", "sales\orders")] []
  = None /\
  convert_oracle_to_postgres "CREATE TABLE ORDERS (ID NUMBER)"
    [("ORDERS", "sales_orders")] []
  = Some ("CREATE TABLE sales_orders (ID NUMERIC)",
          [ {| original_table := "ORDERS"; new_table := "sales_orders";
               column_mappings := []; type_conversions := [];
               dialect_conversion := "oracle_to_postgresql" |} ]).
Proof.
  split.
  - apply (convert_oracle_to_postgres_raises_on_malformed_name
             "CREATE TABLE ORDERS (ID NUMBER)" [("ORDERS", "sales\orders")] []).
    reflexivity.
  - apply (convert_oracle_to_postgres_raises_on_malformed_name
             "CREATE TABLE ORDERS (ID NUMBER)" [("ORDERS", "sales_orders")] []).
    reflexivity.
Defined.

(** ** The index and the extremes of the migration diff *)

Lemma dict_get_set (V : Type) (k k' : string) (v : V) (d : Dict.t V) :
  Dict.get k (Dict.set k' v d)
  = if String.eqb k k' then Some v else Dict.get k d.
Proof.
  induction d as [| [k0 v0] d IH]; simpl.
  - destruct (String.eqb k k'); reflexivity.
  - destruct (String.eqb k' k0) eqn:E0; simpl.
    + apply String.eqb_eq in E0. subst k0.
      destruct (String.eqb k k'); reflexivity.
    + destruct (String.eqb k k0) eqn:E1.
      * apply String.eqb_eq in E1. subst k0.
        rewrite String.eqb_sym, E0. reflexivity.
      * exact IH.
Qed.

Lemma dict_mem_keys (V : Type) (k : string) (d : Dict.t V) :
  Dict.mem k d = existsb (String.eqb k) (Dict.keys d).
Proof.
  unfold Dict.mem. induction d as [| [k0 v0] d IH]; simpl; [reflexivity|].
  destruct (String.eqb k k0); [reflexivity | exact IH].
Qed.

Lemma dict_keys_set (V : Type) (k : string) (v : V) (d : Dict.t V) :
  Dict.keys (Dict.set k v d)
  = if Dict.mem k d then Dict.keys d else (Dict.keys d ++ [k])%list.
Proof.
  unfold Dict.mem. induction d as [| [k0 v0] d IH]; simpl; [reflexivity|].
  destruct (String.eqb k k0) eqn:E; simpl; [reflexivity|].
  rewrite IH. destruct (Dict.get k d); reflexivity.
Qed.

Lemma dict_mem_in (V : Type) (k : string) (d : Dict.t V) :
  Dict.mem k d = true -> exists v, In (k, v) d.
Proof.
  unfold Dict.mem. induction d as [| [k0 v0] d IH]; simpl; [discriminate|].
  destruct (String.eqb k k0) eqn:E.
  - apply String.eqb_eq in E. subst k0. intros _. exists v0. now left.
  - intros H. destruct (IH H) as [v Hv]. exists v. now right.
Qed.

Lemma dict_in_mem (V : Type) (k : string) (v : V) (d : Dict.t V) :
  In (k, v) d -> Dict.mem k d = true.
Proof.
  unfold Dict.mem. induction d as [| [k0 v0] d IH]; simpl; [intros []|].
  intros [H | H].
  - injection H as H1 H2. subst k0. rewrite String.eqb_refl. reflexivity.
  - destruct (String.eqb k k0); [reflexivity | exact (IH H)].
Qed.

Lemma find_app_last (A : Type) (f : A -> bool) (l : list A) (x : A) :
  find f (l ++ [x])
  = match find f l with
    | Some y => Some y
    | None => if f x then Some x else None
    end.
Proof.
  induction l as [|y l IH]; simpl; [reflexivity|].
  destruct (f y); [reflexivity | exact IH].
Qed.

Lemma index_fold_get (k : string) (tables : list SQLTable) :
  forall d : Dict.t SQLTable,
    Dict.get k (fold_left (fun d t => Dict.set (Str.lower (name t)) t d) tables d)
    = match find (fun t => String.eqb k (table_key t)) (rev tables) with
      | Some t => Some t
      | None => Dict.get k d
      end.
Proof.
  induction tables as [|t tables IH]; intros d; simpl; [reflexivity|].
  rewrite IH, find_app_last, dict_get_set. unfold table_key.
  destruct (find _ (rev tables)); [reflexivity|].
  destruct (String.eqb k (Str.lower (name t))); reflexivity.
Qed.

Lemma index_fold_keys (tables : list SQLTable) :
  forall d : Dict.t SQLTable,
    Dict.keys (fold_left (fun d t => Dict.set (Str.lower (name t)) t d) tables d)
    = fold_left
        (fun acc k => if existsb (String.eqb k) acc then acc else (acc ++ [k])%list)
        (List.map table_key tables) (Dict.keys d).
Proof.
  induction tables as [|t tables IH]; intros d; simpl; [reflexivity|].
  rewrite IH, dict_keys_set, dict_mem_keys. unfold table_key.
  destruct (existsb _ (Dict.keys d)); reflexivity.
Qed.

Lemma first_occurrences_nodup (l : list string) :
  forall acc : list string,
    NoDup acc ->
    NoDup (fold_left
             (fun acc k => if existsb (String.eqb k) acc then acc else (acc ++ [k])%list)
             l acc).
Proof.
  induction l as [|k l IH]; intros acc H; simpl; [exact H|].
  apply IH. destruct (existsb (String.eqb k) acc) eqn:E; [exact H|].
  apply NoDup_app; [exact H | repeat constructor; intros [] |].
  intros x Hx [Hk | []]. subst x.
  assert (existsb (String.eqb k) acc = true); [|congruence].
  apply existsb_exists. exists k. split; [exact Hx | apply String.eqb_refl].
Qed.


Lemma migration_lines_spec (from_tables to_tables : list SQLTable) :
  SQLConverter.migration_lines from_tables to_tables
  = (SQLConverter.migration_header ++
     flat_map SQLConverter.create_block
       (Dict.values
          (filter
             (fun item => negb (Dict.mem (fst item) (SQLConverter.index_tables from_tables)))
             (SQLConverter.index_tables to_tables))) ++
     flat_map SQLConverter.drop_block
       (Dict.values
          (filter
             (fun item => negb (Dict.mem (fst item) (SQLConverter.index_tables to_tables)))
             (SQLConverter.index_tables from_tables))))%list.
Proof.
  unfold SQLConverter.migration_lines. rewrite !emit_missing_spec.
  rewrite <- app_assoc. reflexivity.
Qed.

Lemma missing_none (a b : list SQLTable) :
  forallb (fun t => has_key (table_key t) a) b = true <->
  filter (fun item => negb (Dict.mem (fst item) (SQLConverter.index_tables a)))
    (SQLConverter.index_tables b) = [].
Proof.
  split.
  - intro H. rewrite forallb_forall in H.
    destruct (filter _ _) as [|[k t] l] eqn:E; [reflexivity|].
    assert (Hin : In (k, t) (filter
        (fun item => negb (Dict.mem (fst item) (SQLConverter.index_tables a)))
        (SQLConverter.index_tables b))) by (rewrite E; now left).
    apply filter_In in Hin. destruct Hin as [Hin Hm]. simpl in Hm.
    apply index_tables_in in Hin. destruct Hin as [Ht Hk].
    specialize (H t Ht). unfold has_key, table_key in H.
    rewrite index_tables_mem, <- Hk, H in Hm. discriminate.
  - intro H. apply forallb_forall. intros t Ht.
    assert (Hm : Dict.mem (table_key t) (SQLConverter.index_tables b) = true).
    { rewrite index_tables_mem. apply existsb_exists. exists t.
      split; [exact Ht | apply String.eqb_refl]. }
    apply dict_mem_in in Hm. destruct Hm as [v Hv].
    destruct (Dict.mem (table_key t) (SQLConverter.index_tables a)) eqn:E.
    + rewrite index_tables_mem in E. exact E.
    + assert (Hin : In (table_key t, v) (filter
        (fun item => negb (Dict.mem (fst item) (SQLConverter.index_tables a)))
        (SQLConverter.index_tables b))).
      { apply filter_In. split; [exact Hv | simpl; rewrite E; reflexivity]. }
      rewrite H in Hin. destruct Hin.
Qed.

Lemma flat_map_blocks_nil (block : SQLTable -> list string) (l : list SQLTable) :
  (forall t, block t <> []) ->
  flat_map block l = [] -> l = [].
Proof.
  intros Hb. destruct l as [|t l]; [reflexivity|]. simpl.
  intro H. apply app_eq_nil in H. destruct H as [H _]. destruct (Hb t H).
Qed.


Lemma dict_set_new (V : Type) (k : string) (v : V) (d : Dict.t V) :
  Dict.mem k d = false -> Dict.set k v d = (d ++ [(k, v)])%list.
Proof.
  unfold Dict.mem. induction d as [| [k0 v0] d IH]; simpl; [reflexivity|].
  destruct (String.eqb k k0); [discriminate|].
  intro H. rewrite (IH H). reflexivity.
Qed.

Lemma index_fold_distinct (tables : list SQLTable) :
  forall d : Dict.t SQLTable,
    distinct_names tables = true ->
    (forall t, In t tables -> Dict.mem (table_key t) d = false) ->
    fold_left (fun d t => Dict.set (Str.lower (name t)) t d) tables d
    = (d ++ List.map (fun t => (table_key t, t)) tables)%list.
Proof.
  induction tables as [|t tables IH]; intros d Hd Hf; simpl.
  - now rewrite app_nil_r.
  - simpl in Hd. apply andb_true_iff in Hd. destruct Hd as [Ht Hd].
    apply negb_true_iff in Ht.
    fold (table_key t). rewrite dict_set_new by (apply Hf; now left).
    rewrite IH; [rewrite <- app_assoc; reflexivity | exact Hd |].
    intros u Hu. rewrite dict_mem_keys. unfold Dict.keys.
    rewrite map_app, existsb_app. simpl.
    fold (Dict.keys d). rewrite <- dict_mem_keys, (Hf u (or_intror Hu)). simpl.
    rewrite orb_false_r.
    destruct (String.eqb (table_key u) (table_key t)) eqn:E; [|reflexivity].
    apply String.eqb_eq in E.
    assert (has_key (table_key t) tables = true); [|congruence].
    apply existsb_exists. exists u. split; [exact Hu|].
    rewrite E. apply String.eqb_refl.
Qed.

Lemma index_tables_distinct (tables : list SQLTable) :
  distinct_names tables = true ->
  SQLConverter.index_tables tables = List.map (fun t => (table_key t, t)) tables.
Proof.
  intro H. unfold SQLConverter.index_tables.
  rewrite index_fold_distinct; [reflexivity | exact H | reflexivity].
Qed.



(** ** The names and types of a procedure stub *)

Lemma lower_chr_not_upper (a : ascii) : Str.is_upper (Str.lower_chr a) = false.
Proof. destruct a as [[] [] [] [] [] [] [] []]; reflexivity. Qed.

Lemma upper_chr_idempotent (a : ascii) :
  Str.upper_chr (Str.upper_chr a) = Str.upper_chr a.
Proof. destruct a as [[] [] [] [] [] [] [] []]; reflexivity. Qed.

Lemma upper_chr_lower_chr (a : ascii) :
  Str.upper_chr (Str.lower_chr a) = Str.upper_chr a.
Proof. destruct a as [[] [] [] [] [] [] [] []]; reflexivity. Qed.

Lemma map_map_chr (f g h : ascii -> ascii) (s : string) :
  (forall a, f (g a) = h a) -> Str.map f (Str.map g s) = Str.map h s.
Proof.
  intro H. induction s as [|a s IH]; cbn [Str.map]; [reflexivity|].
  rewrite H, IH. reflexivity.
Qed.

Lemma upper_idempotent (s : string) : Str.upper (Str.upper s) = Str.upper s.
Proof. apply map_map_chr, upper_chr_idempotent. Qed.

Lemma upper_lower (s : string) : Str.upper (Str.lower s) = Str.upper s.
Proof. apply map_map_chr, upper_chr_lower_chr. Qed.

(** X10: the Python type of an Oracle type does not depend on the case of
    its letters. *)
Theorem oracle_type_to_python_ignores_case (oracle_type : string) :
  StoredProcedureConverter._oracle_type_to_python (Str.upper oracle_type)
  = StoredProcedureConverter._oracle_type_to_python oracle_type /\
  StoredProcedureConverter._oracle_type_to_python (Str.lower oracle_type)
  = StoredProcedureConverter._oracle_type_to_python oracle_type.
Proof.
  unfold StoredProcedureConverter._oracle_type_to_python.
  rewrite upper_idempotent, upper_lower. split; reflexivity.
Qed.

Lemma lower_no_upper (s : string) : no_upper (Str.lower s) = true.
Proof.
  unfold no_upper, Str.lower.
  induction s as [|a s IH]; cbn [Str.map all_chars]; [reflexivity|].
  rewrite lower_chr_not_upper. exact IH.
Qed.

Lemma all_chars_lstrip (q p : ascii -> bool) (s : string) :
  all_chars q s = true -> all_chars q (Str.lstrip_by p s) = true.
Proof.
  induction s as [|a s IH]; simpl; [reflexivity|].
  intro H. destruct (p a); [|exact H].
  apply andb_true_iff in H. apply IH, H.
Qed.

Lemma all_chars_drop (q : ascii -> bool) (n : nat) :
  forall s : string, all_chars q s = true -> all_chars q (Str.drop n s) = true.
Proof.
  induction n as [|n IH]; intros s H; [destruct s; exact H|].
  destruct s as [|a s]; [exact H|]. simpl.
  simpl in H. apply andb_true_iff in H. apply IH, H.
Qed.

Lemma all_chars_replace_from (q : ascii -> bool) (old new : string) :
  all_chars q new = true ->
  forall (s : string) (skip : nat),
    all_chars q s = true ->
    all_chars q (Str.replace_from old new skip s) = true.
Proof.
  intros Hn. induction s as [|a s IH]; intros skip Hs.
  - destruct skip; simpl; [|reflexivity].
    destruct old; [exact Hn | reflexivity].
  - simpl in Hs. apply andb_true_iff in Hs. destruct Hs as [Ha Hs].
    destruct skip as [|n]; [|simpl; apply IH, Hs].
    cbn [Str.replace_from].
    destruct (Str.startswith (String a s) old).
    + destruct (String.length old).
      * rewrite all_chars_append, Hn. simpl. rewrite Ha. apply IH, Hs.
      * rewrite all_chars_append, Hn. simpl. apply IH, Hs.
    + simpl. rewrite Ha. apply IH, Hs.
Qed.

Lemma no_upper_entities (entity_mapping : Dict.t string) :
  forall n : string,
    no_upper n = true ->
    no_upper (fold_left StoredProcedureConverter.apply_entity entity_mapping n) = true.
Proof.
  induction entity_mapping as [|m em IH]; intros n H; simpl; [exact H|].
  apply IH. unfold StoredProcedureConverter.apply_entity, Str.replace.
  apply all_chars_replace_from; [apply lower_no_upper | exact H].
Qed.

(** X11: a generated method name has no upper-case letter, and neither has
    the name of a parsed parameter, whatever the entity mapping. *)
Theorem generated_names_have_no_upper_case (entity_mapping : Dict.t string) :
  (forall proc_name : string,
      no_upper (StoredProcedureConverter._convert_procedure_name proc_name entity_mapping)
      = true) /\
  (forall (params_str : string) (p : StoredProcedureConverter.ProcedureParameter),
      In p (StoredProcedureConverter._parse_parameters params_str entity_mapping) ->
      no_upper (StoredProcedureConverter.param_name p) = true).
Proof.
  split.
  - intro proc_name. unfold StoredProcedureConverter._convert_procedure_name.
    apply no_upper_entities. apply all_chars_lstrip, lower_no_upper.
  - intros params_str p. unfold StoredProcedureConverter._parse_parameters.
    destruct (String.eqb (Str.strip params_str) ""); [intros []|].
    intro H. apply collect_in in H. destruct H as [part [_ H]].
    unfold StoredProcedureConverter.parse_parameter in H.
    destruct (String.eqb (Str.strip part) ""); [discriminate|].
    destruct (Re.rematch _ _) as [m|]; [|discriminate].
    injection H as H. subst p. cbn [StoredProcedureConverter.param_name].
    apply no_upper_entities.
    destruct (Str.startswith _ _); [|apply lower_no_upper].
    apply (all_chars_drop (fun a => negb (Str.is_upper a)) 2
             (Str.lower (Re.group_text m 1))).
    apply lower_no_upper.
Qed.

(** X12: a text whose first character is not the C of CREATE, a blank
    before the header for one, is not parsed as a procedure. *)
Theorem procedure_header_must_start_the_text (a : ascii) (rest : string)
  (entity_mapping : Dict.t string) :
  Ascii.eqb (Str.lower_chr a) "c" = false ->
  StoredProcedureConverter.convert_to_python (String a rest) entity_mapping
  = "# Could not parse procedure".
Proof.
  intro H. unfold StoredProcedureConverter.convert_to_python, Re.rematch, Re.match_at.
  unfold StoredProcedureConverter.procedure_pattern.
  cbn [Re.seqs Re.lit_i Re.exec Re.chr_i].
  change (Str.lower_chr "C") with "c"%char. rewrite H. reflexivity.
Qed.

Lemma procedure_header_must_start_the_text_witness :
  StoredProcedureConverter.convert_to_python
    " CREATE PROCEDURE get_total(p_order_id IN NUMBER)" []
  = "# Could not parse procedure".
Proof.
  apply (procedure_header_must_start_the_text " "
           "CREATE PROCEDURE get_total(p_order_id IN NUMBER)" []).
  reflexivity.
Defined.

(** ** What a match can hold *)

Lemma consumes_only_and (q1 q2 : ascii -> bool) (r : Re.regex) :
  consumes_only q1 r -> consumes_only q2 r ->
  consumes_only (fun a => q1 a && q2 a) r.
Proof.
  induction r; simpl; try tauto.
  - intros H1 H2 a Ha. rewrite (H1 a Ha), (H2 a Ha). reflexivity.
  - intros H1 H2 a Ha. rewrite (H1 a Ha), (H2 a Ha). reflexivity.
Qed.

Lemma all_chars_and (q1 q2 : ascii -> bool) (s : string) :
  all_chars (fun a => q1 a && q2 a) s = true ->
  all_chars q1 s = true /\ all_chars q2 s = true.
Proof.
  induction s as [|a s IH]; simpl; [split; reflexivity|].
  intro H. apply andb_true_iff in H. destruct H as [Ha Hs].
  apply andb_true_iff in Ha. destruct Ha as [H1 H2].
  destruct (IH Hs) as [I1 I2]. rewrite H1, H2, I1, I2. split; reflexivity.
Qed.

Lemma capture_ok_weaken (q : nat -> ascii -> bool) (ns ns' : list nat)
  (added : Re.caps) :
  (forall n, In n ns -> In n ns') ->
  Forall (capture_ok q ns) added -> Forall (capture_ok q ns') added.
Proof.
  intros Hn H. induction H as [|nv l [Hi Hc] _ IH]; constructor; [|exact IH].
  split; [apply Hn, Hi | exact Hc].
Qed.

Lemma star_exec_inv (R : Type) (p : ascii -> bool) (s : string) :
  forall (pre : string) (c : Re.caps) (k : Re.cont R) (x : R),
    Re.star_exec p pre s c k = Some x ->
    exists w s' : string,
      s = w ++ s' /\ all_chars p w = true /\ k (Str.rev_onto w pre) s' c = Some x.
Proof.
  induction s as [|a s IH]; intros pre c k x H; simpl in H.
  - exists "", "". repeat split. exact H.
  - destruct (p a) eqn:Ea.
    + destruct (Re.star_exec p (String a pre) s c k) as [y|] eqn:E.
      * injection H as H. subst y.
        destruct (IH _ _ _ _ E) as (w & s' & Hs & Hw & Hk).
        exists (String a w), s'. simpl. rewrite Ea, Hw, Hs. repeat split. exact Hk.
      * exists "", (String a s). repeat split. exact H.
    + exists "", (String a s). repeat split. exact H.
Qed.

Lemma exec_inv (q : nat -> ascii -> bool) (R : Type) (r : Re.regex) :
  groups_consume q r ->
  forall (q0 : ascii -> bool) (pre s : string) (c : Re.caps) (k : Re.cont R) (x : R),
    consumes_only q0 r ->
    Re.exec r pre s c k = Some x ->
    exists (w s' : string) (added : Re.caps),
      s = w ++ s' /\
      all_chars q0 w = true /\
      Forall (capture_ok q (group_numbers r)) added /\
      k (Str.rev_onto w pre) s' (added ++ c)%list = Some x.
Proof.
  induction r as [| p | r1 IH1 r2 IH2 | r1 IH1 r2 IH2 | r1 IH1 | p | n r1 IH1
                 | | | | r1 IH1];
    intros Hg q0 pre s c k x Hq H; simpl in H.
  - exists "", s, []. repeat split; [constructor | exact H].
  - destruct s as [|a s]; [discriminate|].
    destruct (p a) eqn:Ea; [|discriminate].
    exists (String a ""), s, []. simpl. rewrite (Hq a Ea).
    repeat split; [constructor | exact H].
  - destruct Hg as [Hg1 Hg2]. destruct Hq as [Hq1 Hq2].
    destruct (IH1 Hg1 q0 _ _ _ _ _ Hq1 H) as (w1 & s1 & a1 & Hs1 & Hw1 & Ha1 & Hk1).
    destruct (IH2 Hg2 q0 _ _ _ _ _ Hq2 Hk1) as (w2 & s2 & a2 & Hs2 & Hw2 & Ha2 & Hk2).
    exists (w1 ++ w2), s2, (a2 ++ a1)%list.
    rewrite Hs1, Hs2, append_assoc, all_chars_append, Hw1, Hw2, rev_onto_append.
    rewrite <- app_assoc. repeat split; [|exact Hk2].
    simpl. apply Forall_app. split.
    + eapply capture_ok_weaken; [|exact Ha2]. intros; apply in_or_app; now right.
    + eapply capture_ok_weaken; [|exact Ha1]. intros; apply in_or_app; now left.
  - destruct Hg as [Hg1 Hg2]. destruct Hq as [Hq1 Hq2].
    destruct (Re.exec r1 pre s c k) as [y|] eqn:E.
    + injection H as H. subst y.
      destruct (IH1 Hg1 q0 _ _ _ _ _ Hq1 E) as (w & s' & a & Hs & Hw & Ha & Hk).
      exists w, s', a. repeat split; try assumption.
      eapply capture_ok_weaken; [|exact Ha]. simpl. intros; apply in_or_app; now left.
    + destruct (IH2 Hg2 q0 _ _ _ _ _ Hq2 H) as (w & s' & a & Hs & Hw & Ha & Hk).
      exists w, s', a. repeat split; try assumption.
      eapply capture_ok_weaken; [|exact Ha]. simpl. intros; apply in_or_app; now right.
  - destruct (Re.exec r1 pre s c k) as [y|] eqn:E.
    + injection H as H. subst y. exact (IH1 Hg q0 _ _ _ _ _ Hq E).
    + exists "", s, []. repeat split; [constructor | exact H].
  - destruct (star_exec_inv _ _ _ _ _ _ _ H) as (w & s' & Hs & Hw & Hk).
    exists w, s', []. repeat split; [exact Hs | | constructor | exact Hk].
    revert Hw. apply all_chars_impl. exact Hq.
  - destruct Hg as [Hn Hg].
    destruct (IH1 Hg (fun a => q0 a && q n a) _ _ _ _ _
                (consumes_only_and _ _ _ Hq Hn) H)
      as (w & s' & a & Hs & Hw & Ha & Hk).
    apply all_chars_and in Hw. destruct Hw as [Hw0 Hwn].
    rewrite consumed_rev_onto in Hk.
    exists w, s', ((n, w) :: a). repeat split; try assumption.
    simpl. constructor.
    + split; [now left | exact Hwn].
    + eapply capture_ok_weaken; [|exact Ha]. intros; now right.
  - destruct (Re.at_boundary pre s); [|discriminate].
    exists "", s, []. repeat split; [constructor | exact H].
  - destruct pre; [|discriminate].
    exists "", s, []. repeat split; [constructor | exact H].
  - destruct (Re.at_eol s); [|discriminate].
    exists "", s, []. repeat split; [constructor | exact H].
  - destruct (Re.exec r1 pre s c (fun _ _ _ => Some tt)); [discriminate|].
    exists "", s, []. repeat split; [constructor | exact H].
Qed.

Lemma consumes_anything (r : Re.regex) : consumes_only (fun _ => true) r.
Proof. induction r; simpl; auto. Qed.

Lemma groups_consume_anything (r : Re.regex) : groups_consume (fun _ _ => true) r.
Proof. induction r; simpl; auto using consumes_anything. Qed.

Lemma match_at_inv (q : nat -> ascii -> bool) (q0 : ascii -> bool) (r : Re.regex)
  (must_advance : bool) (pre s : string) (m : Re.rmatch) :
  groups_consume q r -> consumes_only q0 r ->
  Re.match_at r must_advance pre s = Some m ->
  (exists s' : string, s = Re.m_text m ++ s') /\
  all_chars q0 (Re.m_text m) = true /\
  Forall (capture_ok q (group_numbers r)) (Re.m_caps m) /\
  (must_advance = true -> Re.m_text m <> "").
Proof.
  intros Hg Hq H. unfold Re.match_at in H.
  destruct (exec_inv q _ r Hg q0 _ _ _ _ _ Hq H) as (w & s' & a & Hs & Hw & Ha & Hk).
  unfold Re.finish_match in Hk. rewrite app_nil_r in Hk.
  destruct (must_advance && _) eqn:E; [discriminate|].
  injection Hk as Hk. subst m. simpl. rewrite consumed_rev_onto.
  split; [exists s'; exact Hs|]. split; [exact Hw|]. split; [exact Ha|].
  intros Hm Hnil. subst must_advance w. simpl in E.
  rewrite Nat.eqb_refl in E. discriminate.
Qed.

Lemma group_text_class (q : nat -> ascii -> bool) (ns : list nat) (m : Re.rmatch)
  (n : nat) :
  Forall (capture_ok q ns) (Re.m_caps m) ->
  1 <= n ->
  all_chars (q n) (Re.group_text m n) = true.
Proof.
  intros H Hn. unfold Re.group_text, Re.group.
  destruct n as [|n]; [lia|].
  induction H as [|[i v] l [_ Hc] _ IH]; [reflexivity|].
  cbn [Re.cap_get].
  destruct (Nat.eqb (S n) i) eqn:E; [|exact IH].
  apply Nat.eqb_eq in E. subst i. exact Hc.
Qed.

Lemma scan_forall (r : Re.regex) (P : Re.rmatch -> Prop) :
  (forall ma pre s m, Re.match_at r ma pre s = Some m -> P m) ->
  forall (s : string) (skip : nat) (gap pre : string),
    Forall (fun gm => P (snd gm)) (fst (Re.scan r skip gap pre s)).
Proof.
  intros HP. induction s as [|a s IH]; intros skip gap pre.
  - destruct skip; simpl; [|constructor].
    destruct (Re.match_at r false pre "") as [m|] eqn:E; simpl; [|constructor].
    constructor; [exact (HP _ _ _ _ E) | constructor].
  - destruct skip as [|n]; [|simpl; apply IH].
    rewrite scan_step.
    destruct (Re.match_at r false pre (String a s)) as [m|] eqn:E; [|apply IH].
    simpl. constructor; [exact (HP _ _ _ _ E)|].
    destruct (String.length (Re.m_text m)); [|apply IH].
    destruct (Re.match_at r true pre (String a s)) as [m'|] eqn:E'; [|apply IH].
    simpl. constructor; [exact (HP _ _ _ _ E') | apply IH].
Qed.

Lemma finditer_forall (r : Re.regex) (P : Re.rmatch -> Prop) (s : string) :
  (forall ma pre s m, Re.match_at r ma pre s = Some m -> P m) ->
  Forall P (Re.finditer r s).
Proof.
  intro HP. unfold Re.finditer, Re.segments.
  pose proof (scan_forall r P HP s 0 "" "") as H.
  induction H; simpl; constructor; assumption.
Qed.

Lemma drop_length_append (w s : string) : Str.drop (String.length w) (w ++ s) = s.
Proof. induction w as [|a w IH]; simpl; [destruct s; reflexivity | exact IH]. Qed.

Lemma drop_zero (s : string) : Str.drop 0 s = s.
Proof. destruct s; reflexivity. Qed.

Lemma match_at_prefix (r : Re.regex) (ma : bool) (pre s : string) (m : Re.rmatch) :
  Re.match_at r ma pre s = Some m ->
  (exists s', s = Re.m_text m ++ s') /\ (ma = true -> Re.m_text m <> "").
Proof.
  intro H.
  destruct (match_at_inv (fun _ _ => true) (fun _ => true) r ma pre s m
              (groups_consume_anything r) (consumes_anything r) H) as (H1 & _ & _ & H2).
  split; assumption.
Qed.

(** The matches and the text between them make up the text. *)
Lemma scan_rebuild (r : Re.regex) :
  forall (s : string) (skip : nat) (gap pre : string),
    Re.spliced Re.m_text (Re.scan r skip gap pre s) = Str.rev gap ++ Str.drop skip s.
Proof.
  induction s as [|a s IH]; intros skip gap pre.
  - destruct skip; simpl.
    + destruct (Re.match_at r false pre "") as [m|] eqn:E.
      * destruct (match_at_prefix _ _ _ _ _ E) as [[s' Hs] _].
        unfold Re.spliced. simpl.
        destruct (Re.m_text m); [|discriminate]. rewrite !append_nil_r. reflexivity.
      * unfold Re.spliced. simpl. rewrite append_nil_r. reflexivity.
    + unfold Re.spliced. simpl. rewrite append_nil_r. reflexivity.
  - destruct skip as [|n]; [|simpl; apply IH].
    rewrite scan_step.
    destruct (Re.match_at r false pre (String a s)) as [m|] eqn:E.
    + destruct (match_at_prefix _ _ _ _ _ E) as [[s' Hs] _].
      rewrite spliced_seg_cons. simpl fst. simpl snd. f_equal.
      destruct (Re.m_text m) as [|b w] eqn:Em.
      * simpl String.length. cbv iota.
        destruct (Re.match_at r true pre (String a s)) as [m'|] eqn:E'.
        -- destruct (match_at_prefix _ _ _ _ _ E') as [[s2 Hs2] Hne].
           rewrite spliced_seg_cons, IH. simpl.
           destruct (Re.m_text m') as [|b' w']; [destruct (Hne eq_refl eq_refl)|].
           simpl in Hs2. injection Hs2 as Hb Hs2. subst b' s.
           simpl. rewrite Nat.sub_0_r, drop_length_append. reflexivity.
        -- rewrite IH. reflexivity.
      * simpl in Hs. injection Hs as Hb Hs. subst b s.
        simpl String.length. cbv iota. rewrite IH. simpl.
        rewrite drop_length_append. reflexivity.
    + rewrite IH. unfold Str.rev. simpl.
      rewrite (rev_onto_acc gap (String a "")), append_assoc. reflexivity.
Qed.

Lemma sub_with_itself (r : Re.regex) (s : string) : Re.sub_with r Re.m_text s = s.
Proof.
  unfold Re.sub_with, Re.segments. rewrite scan_rebuild. apply drop_zero.
Qed.

Lemma concat_sep_last (sep : string) (l : list string) (t : string) :
  String.concat sep (l ++ [t])
  = String.concat "" (List.map (fun g => g ++ sep) l) ++ t.
Proof.
  induction l as [|x l IH]; [reflexivity|].
  change (String.concat sep ((x :: l) ++ [t]))
    with (String.concat sep (x :: (l ++ [t]))).
  destruct (l ++ [t])%list as [|y l'] eqn:E.
  - destruct l; discriminate.
  - change (String.concat sep (x :: y :: l'))
      with (x ++ sep ++ String.concat sep (y :: l')).
    rewrite IH. simpl List.map. rewrite concat_cons, !append_assoc. reflexivity.
Qed.

Lemma spliced_ext (f g : Re.rmatch -> string)
  (sg : list (string * Re.rmatch) * string) :
  Forall (fun gm => f (snd gm) = g (snd gm)) (fst sg) ->
  Re.spliced f sg = Re.spliced g sg.
Proof.
  unfold Re.spliced. intro H. f_equal. f_equal.
  induction H as [|x l Hx _ IH]; simpl; [reflexivity|].
  rewrite Hx, IH. reflexivity.
Qed.

Lemma top_level_comma_text (ma : bool) (pre s : string) (m : Re.rmatch) :
  Re.match_at SQLConverter.top_level_comma ma pre s = Some m ->
  "," = Re.m_text m.
Proof.
  unfold Re.match_at, SQLConverter.top_level_comma.
  cbn [Re.seqs Re.exec Re.chr].
  destruct s as [|a s]; [discriminate|].
  destruct (Ascii.eqb "," a) eqn:Ea; [|discriminate].
  apply Ascii.eqb_eq in Ea. subst a.
  destruct (Re.star_exec _ _ _ _ _); [discriminate|].
  unfold Re.finish_match. destruct (ma && _); [discriminate|].
  intro H. injection H as H. subst m. cbn [Re.m_text].
  symmetry. exact (consumed_rev_onto "," pre).
Qed.

(** X13: splitting a text on its top-level commas loses nothing: the
    fragments joined by commas are the text. *)
Theorem split_on_commas_loses_nothing (text : string) :
  Str.join "," (Re.split SQLConverter.top_level_comma text) = text.
Proof.
  unfold Str.join, Re.split. cbv zeta. rewrite concat_sep_last.
  rewrite map_map.
  transitivity (Re.spliced (fun _ => ",") (Re.segments SQLConverter.top_level_comma text));
    [reflexivity|].
  rewrite (spliced_ext (fun _ => ",") Re.m_text).
  - apply sub_with_itself.
  - apply (scan_forall SQLConverter.top_level_comma (fun m => "," = Re.m_text m)).
    intros ma pre s m. apply top_level_comma_text.
Qed.

Lemma no_captures (q : nat -> ascii -> bool) (added : Re.caps) :
  Forall (capture_ok q []) added -> added = [].
Proof. intro H. destruct H as [|nv l [[] _] _]. reflexivity. Qed.

Lemma cap_get_skip (n : nat) (q : nat -> ascii -> bool) (ns : list nat)
  (added c : Re.caps) :
  ~ In n ns ->
  Forall (capture_ok q ns) added ->
  Re.cap_get n (added ++ c)%list = Re.cap_get n c.
Proof.
  intros Hn H. induction H as [|[i v] l [Hi _] _ IH]; [reflexivity|].
  simpl. destruct (Nat.eqb n i) eqn:E; [|exact IH].
  apply Nat.eqb_eq in E. subst i. destruct (Hn Hi).
Qed.

Lemma exec_group_plus (R : Type) (n : nat) (p : ascii -> bool) (pre s : string)
  (c : Re.caps) (k : Re.cont R) (x : R) :
  Re.exec (Re.Grp n (Re.plus p)) pre s c k = Some x ->
  exists (a : ascii) (w s' : string),
    s = String a w ++ s' /\
    all_chars p (String a w) = true /\
    k (Str.rev_onto (String a w) pre) s' ((n, String a w) :: c) = Some x.
Proof.
  unfold Re.plus. cbn [Re.exec].
  destruct s as [|a s]; [discriminate|].
  destruct (p a) eqn:Ea; [|discriminate].
  intro H. apply star_exec_inv in H. destruct H as (w & s' & Hs & Hw & Hk).
  exists a, w, s'. subst s. simpl. rewrite Ea, Hw.
  repeat split.
  rewrite <- (consumed_rev_onto (String a w) pre). exact Hk.
Qed.

(** A pattern that is a sequence with a group [(x+)] among its parts, whose
    number no later part has: the group takes part in every match and is not
    empty. *)
Lemma exec_named_group (R : Type) (n : nat) (p : ascii -> bool)
  (rest : list Re.regex) (pfx : list Re.regex) :
  ~ In n (group_numbers (Re.seqs rest)) ->
  forall (pre s : string) (c : Re.caps) (k : Re.cont R) (x : R),
    Re.exec (Re.seqs (pfx ++ Re.Grp n (Re.plus p) :: rest)) pre s c k = Some x ->
    exists (a : ascii) (w pre' s' : string) (c' : Re.caps),
      all_chars p (String a w) = true /\
      Re.cap_get n c' = Some (String a w) /\
      k pre' s' c' = Some x.
Proof.
  intros Hn. induction pfx as [|r pfx IH]; intros pre s c k x H.
  - simpl List.app in H. cbn [Re.seqs] in H.
    change (Re.exec (Re.Grp n (Re.plus p)) pre s c
              (fun pre' s' c' => Re.exec (Re.seqs rest) pre' s' c' k) = Some x) in H.
    apply exec_group_plus in H. destruct H as (a & w & s1 & Hs & Hw & Hk).
    destruct (exec_inv (fun _ _ => true) _ (Re.seqs rest)
                (groups_consume_anything _) (fun _ => true) _ _ _ _ _
                (consumes_anything _) Hk)
      as (w2 & s2 & added & _ & _ & Ha & Hk2).
    exists a, w, (Str.rev_onto w2 (Str.rev_onto (String a w) pre)), s2,
      (added ++ (n, String a w) :: c)%list.
    split; [exact Hw|]. split; [|exact Hk2].
    rewrite (cap_get_skip n _ _ added _ Hn Ha). simpl.
    rewrite Nat.eqb_refl. reflexivity.
  - simpl List.app in H. cbn [Re.seqs] in H.
    change (Re.exec r pre s c
              (fun pre' s' c' =>
                 Re.exec (Re.seqs (pfx ++ Re.Grp n (Re.plus p) :: rest)) pre' s' c' k)
            = Some x) in H.
    destruct (exec_inv (fun _ _ => true) _ r
                (groups_consume_anything _) (fun _ => true) _ _ _ _ _
                (consumes_anything _) H)
      as (w1 & s1 & added & _ & _ & Ha & Hk1).
    exact (IH _ _ _ _ _ Hk1).
Qed.

Lemma match_named_group (n : nat) (p : ascii -> bool)
  (rest pfx : list Re.regex) (ma : bool) (pre s : string) (m : Re.rmatch) :
  ~ In (S n) (group_numbers (Re.seqs rest)) ->
  Re.match_at (Re.seqs (pfx ++ Re.Grp (S n) (Re.plus p) :: rest)) ma pre s = Some m ->
  exists (a : ascii) (w : string),
    Re.group_text m (S n) = String a w /\ all_chars p (String a w) = true.
Proof.
  intros Hn H. unfold Re.match_at in H.
  destruct (exec_named_group _ (S n) p rest pfx Hn _ _ _ _ _ H)
    as (a & w & pre' & s' & c' & Hw & Hc & Hk).
  unfold Re.finish_match in Hk. destruct (ma && _); [discriminate|].
  injection Hk as Hk. subst m.
  exists a, w. split; [|exact Hw].
  unfold Re.group_text, Re.group. cbn [Re.m_caps]. rewrite Hc. reflexivity.
Qed.

Lemma part_of_later (t s : string) (a : ascii) :
  part_of t s -> part_of t (String a s).
Proof. intros [x [y H]]. exists (String a x), y. simpl. now rewrite H. Qed.

Lemma scan_parts (r : Re.regex) :
  forall (s : string) (skip : nat) (gap pre : string),
    Forall (fun gm => part_of (Re.m_text (snd gm)) s) (fst (Re.scan r skip gap pre s)).
Proof.
  assert (L : forall (a : ascii) (s : string) (l : list (string * Re.rmatch)),
             Forall (fun gm => part_of (Re.m_text (snd gm)) s) l ->
             Forall (fun gm => part_of (Re.m_text (snd gm)) (String a s)) l).
  { intros a s l. apply Forall_impl. intros gm. apply part_of_later. }
  assert (P : forall ma pre s m, Re.match_at r ma pre s = Some m ->
                                 part_of (Re.m_text m) s).
  { intros ma pre s m H. destruct (match_at_prefix _ _ _ _ _ H) as [[s' Hs] _].
    exists "", s'. exact Hs. }
  induction s as [|a s IH]; intros skip gap pre.
  - destruct skip; simpl; [|constructor].
    destruct (Re.match_at r false pre "") as [m|] eqn:E; simpl; [|constructor].
    constructor; [exact (P _ _ _ _ E) | constructor].
  - destruct skip as [|n]; [|simpl; apply L, IH].
    rewrite scan_step.
    destruct (Re.match_at r false pre (String a s)) as [m|] eqn:E; [|apply L, IH].
    simpl. constructor; [exact (P _ _ _ _ E)|].
    destruct (String.length (Re.m_text m)); [|apply L, IH].
    destruct (Re.match_at r true pre (String a s)) as [m'|] eqn:E'; [|apply L, IH].
    simpl. constructor; [exact (P _ _ _ _ E') | apply L, IH].
Qed.

Lemma create_table_consumes :
  consumes_only (fun a => negb (Ascii.eqb a ";")) SQLConverter.create_table_pattern.
Proof.
  unfold SQLConverter.create_table_pattern. simpl.
  repeat split;
    intros a H; destruct (Ascii.eqb a ";") eqn:E; try reflexivity;
    apply Ascii.eqb_eq in E; subst a; discriminate H.
Qed.

Lemma is_identifier_intro (a : ascii) (w : string) :
  all_chars Str.is_word (String a w) = true -> is_identifier (String a w) = true.
Proof. intro H. unfold is_identifier. rewrite H. reflexivity. Qed.

Lemma create_table_match (ma : bool) (pre s : string) (m : Re.rmatch) :
  Re.match_at SQLConverter.create_table_pattern ma pre s = Some m ->
  is_identifier (Re.group_text m 1) = true /\
  without ";" (Re.group_text m 0) = true.
Proof.
  intro H. split.
  - destruct (match_named_group 0 Str.is_word
                [Re.spaces0; Re.chr "("; Re.Grp 2 (Re.plus (Re.none_of ";")); Re.chr ")"]
                [Re.lit_i "CREATE"; Re.spaces1; Re.lit_i "TABLE"; Re.spaces1;
                 Re.Opt (Re.seqs [Re.lit_i "IF"; Re.spaces1; Re.lit_i "NOT"; Re.spaces1;
                                  Re.lit_i "EXISTS"; Re.spaces1])]
                ma pre s m) as (a & w & Hg & Hw).
    + simpl. intros [E | []]. discriminate E.
    + exact H.
    + rewrite Hg. apply is_identifier_intro, Hw.
  - destruct (match_at_inv (fun _ _ => true) _ _ ma pre s m
                (groups_consume_anything _) create_table_consumes H) as (_ & Hw & _).
    exact Hw.
Qed.


Lemma header_groups_consume :
  groups_consume header_groups StoredProcedureConverter.procedure_pattern.
Proof.
  unfold StoredProcedureConverter.procedure_pattern. simpl.
  repeat split; try (intros a _; reflexivity).
  intros a H. unfold header_groups. simpl.
  unfold Re.none_of in H. simpl in H. rewrite orb_false_r in H. exact H.
Qed.





Lemma column_match (ma : bool) (pre s : string) (m : Re.rmatch) :
  Re.match_at SQLConverter.column_pattern ma pre s = Some m ->
  is_identifier (Re.group_text m 1) = true.
Proof.
  intro H.
  destruct (match_named_group 0 Str.is_word
              [Re.spaces1; Re.Grp 2 SQLConverter.sized_type; Re.spaces0;
               Re.Grp 3 (Re.Star Re.dot)]
              [] ma pre s m) as (a & w & Hg & Hw).
  - simpl. intros [E | [E | []]]; discriminate E.
  - exact H.
  - rewrite Hg. apply is_identifier_intro, Hw.
Qed.

Lemma alpha_not_space (a : ascii) : Str.is_alpha a = true -> Str.is_space a = false.
Proof. destruct a as [[] [] [] [] [] [] [] []]; simpl; intro H; try reflexivity; discriminate H. Qed.

Lemma starts_like_letter (K p : string) :
  starts_with_letter K = true -> starts_like K p = true ->
  exists (y : ascii) (p' : string), p = String y p' /\ Str.is_space y = false.
Proof.
  unfold starts_like. destruct K as [|k K]; [discriminate|]. simpl.
  intros Hk. destruct p as [|y p']; [discriminate|].
  destruct (Ascii.eqb (Str.lower_chr y) (Str.lower_chr k)) eqn:E; [|discriminate].
  intros _. exists y, p'. split; [reflexivity|].
  apply alpha_not_space.
  destruct (Str.is_alpha y) eqn:Ey; [reflexivity|].
  rewrite (letter_differs y k Ey Hk) in E. discriminate.
Qed.

Lemma exec_lit_i_found (K p pre : string) (c : Re.caps) (R : Type) (k : Re.cont R) :
  (forall pre' s' c', k pre' s' c' <> None) ->
  starts_like K p = true ->
  Re.exec (Re.lit_i K) pre p c k <> None.
Proof.
  intros Hk H. rewrite exec_lit_i. unfold starts_like in H.
  destruct (ci_prefix K p); try discriminate. apply Hk.
Qed.

Lemma exec_alt_found (R : Type) (r1 r2 : Re.regex) (pre s : string) (c : Re.caps)
  (k : Re.cont R) :
  Re.exec r1 pre s c k <> None \/ Re.exec r2 pre s c k <> None ->
  Re.exec (Re.Alt r1 r2) pre s c k <> None.
Proof.
  cbn [Re.exec]. destruct (Re.exec r1 pre s c k); [discriminate|].
  intros [H | H]; [destruct (H eq_refl) | exact H].
Qed.

Lemma constraint_pattern_found (p : string) :
  starts_with_constraint_keyword p = true ->
  Re.rematch SQLConverter.constraint_pattern p <> None.
Proof.
  intro H.
  assert (Hy : exists (y : ascii) (p' : string), p = String y p' /\ Str.is_space y = false).
  { unfold starts_with_constraint_keyword, constraint_keywords in H. simpl in H.
    repeat (apply orb_true_iff in H; destruct H as [H | H]);
      try discriminate H; eapply starts_like_letter; try exact H; reflexivity. }
  destruct Hy as (y & p' & Hp & Hy). subst p.
  unfold Re.rematch, Re.match_at, SQLConverter.constraint_pattern.
  cbn [Re.seqs]. cbn [Re.exec]. unfold Re.spaces0. cbn [Re.exec Re.star_exec].
  rewrite Hy.
  unfold starts_with_constraint_keyword, constraint_keywords in H. simpl in H.
  repeat (apply orb_true_iff in H; destruct H as [H | H]); try discriminate H.
  all: match type of H with
       | starts_like ?K _ = true =>
           match goal with
           | |- context [Re.exec (Re.lit_i K) ?a ?b ?c ?k] =>
               pose proof (exec_lit_i_found K b a c _ k
                             ltac:(intros; unfold Re.finish_match; simpl; discriminate) H)
                 as F
           end
       end;
       repeat match goal with
              | |- context [Re.exec (Re.lit_i ?K) ?a ?b ?c ?k] =>
                  destruct (Re.exec (Re.lit_i K) a b c k)
              end;
       try discriminate; exact F.
Qed.

(** X16: a fragment of a column list that starts, whatever the case, with
    the letters of PRIMARY, FOREIGN, UNIQUE, CHECK or CONSTRAINT gives no
    column, also where those letters start a column name. *)
Theorem column_named_like_a_constraint_is_left_out (part : string) :
  starts_with_constraint_keyword (Str.strip part) = true ->
  SQLConverter.parse_column part = None.
Proof.
  intro H. unfold SQLConverter.parse_column. cbv zeta.
  destruct (String.eqb (Str.strip part) ""); [reflexivity|].
  pose proof (constraint_pattern_found _ H) as Hc.
  destruct (Re.rematch SQLConverter.constraint_pattern (Str.strip part));
    [reflexivity | destruct (Hc eq_refl)].
Qed.

Lemma column_named_like_a_constraint_is_left_out_witness :
  SQLConverter.parse_column " checksum VARCHAR(32) NOT NULL" = None.
Proof.
  apply (column_named_like_a_constraint_is_left_out " checksum VARCHAR(32) NOT NULL").
  reflexivity.
Defined.




(** ** The case helpers *)

Lemma scan_upper_letter (t : Re.template) (s : string) :
  t = [Re.TLit "_"; Re.TGroup 1] ->
  forall gap pre : string,
    Re.spliced (Re.expand t)
      (Re.scan StoredProcedureConverter.upper_letter 0 gap pre s)
    = Str.rev gap ++ underscore_capitals s.
Proof.
  intro Ht. induction s as [|a s IH]; intros gap pre.
  - unfold Re.spliced. simpl. rewrite append_nil_r. reflexivity.
  - rewrite scan_step.
    unfold Re.match_at, StoredProcedureConverter.upper_letter.
    cbn [Re.exec underscore_capitals].
    destruct (Str.is_upper a) eqn:Ea.
    + rewrite finish_match_found.
      fold StoredProcedureConverter.upper_letter.
      rewrite spliced_seg_cons. cbn [fst snd Re.m_text].
      pose proof (consumed_rev_onto (String a "") pre) as Hc.
      change (Str.rev_onto (String a "") pre) with (String a pre) in Hc.
      rewrite !Hc. cbn [String.length]. rewrite IH. subst t.
      unfold Re.expand. cbn [List.map Re.expand_item]. unfold Re.group_text, Re.group.
      cbn [Re.m_caps Re.cap_get Nat.eqb]. reflexivity.
    + fold StoredProcedureConverter.upper_letter. rewrite IH.
      unfold Str.rev. simpl.
      rewrite (rev_onto_acc gap (String a "")), append_assoc. reflexivity.
Qed.

Lemma sub_upper_letter (s : string) :
  Re.sub_fixed StoredProcedureConverter.upper_letter "_\1" s = underscore_capitals s.
Proof.
  unfold Re.sub_fixed, Re.sub_t, Re.sub_with, Re.segments.
  apply (scan_upper_letter _ s eq_refl "" "").
Qed.

Lemma to_snake_case_spec (name : string) :
  to_snake_case name
  = Str.lstrip_by (Ascii.eqb "_") (Str.lower (underscore_capitals name)).
Proof. unfold to_snake_case. rewrite sub_upper_letter. reflexivity. Qed.

Lemma lower_fixed (s : string) : no_upper s = true -> Str.lower s = s.
Proof.
  unfold no_upper, Str.lower.
  induction s as [|a s IH]; cbn [Str.map all_chars]; [reflexivity|].
  intro H. apply andb_true_iff in H. destruct H as [Ha Hs].
  apply negb_true_iff in Ha. rewrite (IH Hs). unfold Str.lower_chr.
  rewrite Ha. reflexivity.
Qed.

Lemma underscore_capitals_fixed (s : string) :
  no_upper s = true -> underscore_capitals s = s.
Proof.
  unfold no_upper. induction s as [|a s IH]; simpl; [reflexivity|].
  intro H. apply andb_true_iff in H. destruct H as [Ha Hs].
  apply negb_true_iff in Ha. rewrite Ha, (IH Hs). reflexivity.
Qed.

Lemma lstrip_fixed (p : ascii -> bool) (s : string) :
  starts_clean p s = true -> Str.lstrip_by p s = s.
Proof.
  destruct s as [|a s]; simpl; [reflexivity|].
  intro H. apply negb_true_iff in H. rewrite H. reflexivity.
Qed.

Lemma no_upper_to_snake_case (name : string) : no_upper (to_snake_case name) = true.
Proof. unfold to_snake_case. apply all_chars_lstrip, lower_no_upper. Qed.

(** X18: [to_snake_case] applied twice gives what it gives once; its
    result has no upper-case letter and does not start with an
    underscore. *)
Theorem to_snake_case_is_idempotent (name : string) :
  to_snake_case (to_snake_case name) = to_snake_case name /\
  no_upper (to_snake_case name) = true /\
  starts_clean (Ascii.eqb "_") (to_snake_case name) = true.
Proof.
  assert (Hc : starts_clean (Ascii.eqb "_") (to_snake_case name) = true)
    by (unfold to_snake_case; apply lstrip_starts_clean).
  split; [|split; [apply no_upper_to_snake_case | exact Hc]].
  rewrite (to_snake_case_spec (to_snake_case name)).
  rewrite (underscore_capitals_fixed _ (no_upper_to_snake_case name)).
  rewrite (lower_fixed _ (no_upper_to_snake_case name)).
  apply lstrip_fixed, Hc.
Qed.

Lemma without_replace_char (c : ascii) (new : string) :
  without c new = true ->
  forall (s : string) (skip : nat),
    without c (Str.replace_from (String c "") new skip s) = true.
Proof.
  unfold without. intros Hn. induction s as [|a s IH]; intros skip.
  - destruct skip; reflexivity.
  - destruct skip as [|n]; [|simpl; apply IH].
    cbn [Str.replace_from Str.startswith String.length].
    destruct (Ascii.eqb a c) eqn:E; cbn [andb].
    + assert (Hs : Str.startswith s "" = true) by (destruct s; reflexivity).
      rewrite Hs, all_chars_append, Hn. apply IH.
    + cbn [all_chars]. rewrite E. apply (IH 0).
Qed.

(** X19: the result of [to_kebab_case] has no underscore and no upper-case
    letter. *)
Theorem to_kebab_case_has_no_underscore (name : string) :
  without "_" (to_kebab_case name) = true /\
  no_upper (to_kebab_case name) = true.
Proof.
  unfold to_kebab_case, Str.replace. split.
  - apply without_replace_char. reflexivity.
  - apply all_chars_replace_from; [reflexivity | apply no_upper_to_snake_case].
Qed.

Lemma lower_letter (a : ascii) :
  Str.is_lower a = true ->
  Str.is_upper (Str.upper_chr a) = true /\
  Str.lower_chr (Str.upper_chr a) = a /\
  Str.is_upper a = false /\
  Str.is_alpha a = true /\
  Str.lower_chr a = a /\
  Ascii.eqb a "_" = false /\
  Ascii.eqb "_" a = false.
Proof.
  destruct a as [[] [] [] [] [] [] [] []]; intro H;
    try discriminate H; repeat split; reflexivity.
Qed.

Lemma upper_letter_lowered (a : ascii) :
  Str.is_upper a = true ->
  Ascii.eqb "_" (Str.lower_chr a) = false /\
  Ascii.eqb (Str.upper_chr a) "_" = false.
Proof.
  destruct a as [[] [] [] [] [] [] [] []]; intro H;
    try discriminate H; split; reflexivity.
Qed.

Lemma underscore_capitals_append (x y : string) :
  underscore_capitals (x ++ y) = underscore_capitals x ++ underscore_capitals y.
Proof.
  induction x as [|a x IH]; simpl; [reflexivity|].
  rewrite IH. destruct (Str.is_upper a); reflexivity.
Qed.

Lemma lower_append (x y : string) : Str.lower (x ++ y) = Str.lower x ++ Str.lower y.
Proof.
  unfold Str.lower. induction x as [|a x IH]; cbn [Str.map String.append]; [reflexivity|].
  rewrite IH. reflexivity.
Qed.

Lemma join_cons (sep x : string) (l : list string) :
  Str.join sep (x :: l) = x ++ String.concat "" (List.map (fun w => sep ++ w) l).
Proof.
  unfold Str.join. revert x. induction l as [|y l IH]; intro x.
  - simpl. symmetry. apply append_nil_r.
  - change (String.concat sep (x :: y :: l)) with (x ++ sep ++ String.concat sep (y :: l)).
    rewrite IH. cbn [List.map]. rewrite concat_cons, append_assoc. reflexivity.
Qed.

Lemma split_on_plain (sep : ascii) (w : string) :
  without sep w = true -> split_on sep w = [w].
Proof.
  unfold without. induction w as [|a w IH]; simpl; [reflexivity|].
  intro H. apply andb_true_iff in H. destruct H as [Ha Hw].
  apply negb_true_iff in Ha. rewrite Ha, (IH Hw). reflexivity.
Qed.

Lemma split_on_word (sep : ascii) (w rest : string) :
  without sep w = true ->
  split_on sep (w ++ String sep rest) = w :: split_on sep rest.
Proof.
  unfold without. induction w as [|a w IH]; simpl.
  - intros _. rewrite Ascii.eqb_refl. reflexivity.
  - intro H. apply andb_true_iff in H. destruct H as [Ha Hw].
    apply negb_true_iff in Ha. rewrite Ha, (IH Hw). reflexivity.
Qed.

Lemma split_on_join (sep : ascii) (w : string) (ws : list string) :
  forallb (without sep) (w :: ws) = true ->
  split_on sep (Str.join (String sep "") (w :: ws)) = w :: ws.
Proof.
  unfold Str.join. revert w. induction ws as [|v ws IH]; intros w H.
  - simpl in H. rewrite andb_true_r in H. apply split_on_plain, H.
  - cbn [forallb] in H. apply andb_true_iff in H. destruct H as [Hw H].
    change (String.concat (String sep "") (w :: v :: ws))
      with (w ++ String sep (String.concat (String sep "") (v :: ws))).
    rewrite (split_on_word sep w _ Hw), (IH v H). reflexivity.
Qed.

Lemma title_behind_letter (w : string) :
  all_chars Str.is_lower w = true -> title_from true w = w.
Proof.
  induction w as [|a w IH]; simpl; [reflexivity|].
  intro H. apply andb_true_iff in H. destruct H as [Ha Hw].
  destruct (lower_letter a Ha) as (_ & _ & _ & Hal & Hl & _).
  rewrite Hl, Hal, (IH Hw). reflexivity.
Qed.

Lemma lower_word_no_upper (w : string) :
  all_chars Str.is_lower w = true -> no_upper w = true.
Proof.
  unfold no_upper. apply all_chars_impl. intros a Ha.
  destruct (lower_letter a Ha) as (_ & _ & Hu & _). rewrite Hu. reflexivity.
Qed.

Lemma snake_of_title (a : ascii) (w : string) :
  all_chars Str.is_lower (String a w) = true ->
  Str.lower (underscore_capitals (title (String a w))) = String "_" (String a w).
Proof.
  intro H. simpl in H. apply andb_true_iff in H. destruct H as [Ha Hw].
  destruct (lower_letter a Ha) as (Hu & Hlu & _ & Hal & _).
  unfold title. cbn [title_from]. rewrite Hal, (title_behind_letter w Hw).
  cbn [underscore_capitals]. rewrite Hu.
  rewrite (underscore_capitals_fixed w (lower_word_no_upper w Hw)).
  unfold Str.lower. cbn [Str.map]. fold (Str.lower w).
  rewrite Hlu, (lower_fixed w (lower_word_no_upper w Hw)). reflexivity.
Qed.

Lemma snake_of_titles (ws : list string) :
  snake_words ws = true ->
  Str.lower (underscore_capitals (String.concat "" (List.map title ws)))
  = String.concat "" (List.map (fun w => "_" ++ w) ws).
Proof.
  unfold snake_words. induction ws as [|w ws IH]; [reflexivity|].
  cbn [forallb]. intro H. apply andb_true_iff in H. destruct H as [Hw H].
  apply andb_true_iff in Hw. destruct Hw as [Hne Hw].
  cbn [List.map]. rewrite !concat_cons, underscore_capitals_append, lower_append.
  rewrite (IH H). destruct w as [|a w]; [discriminate Hne|].
  rewrite (snake_of_title a w Hw). reflexivity.
Qed.

Lemma filter_snake_words (ws : list string) :
  snake_words ws = true ->
  List.filter (fun p => negb (String.eqb p "")) ws = ws.
Proof.
  unfold snake_words. induction ws as [|w ws IH]; [reflexivity|].
  cbn [forallb List.filter]. intro H. apply andb_true_iff in H. destruct H as [Hw H].
  apply andb_true_iff in Hw. destruct Hw as [Hne _].
  rewrite Hne, (IH H). reflexivity.
Qed.

Lemma snake_words_plain (ws : list string) :
  snake_words ws = true -> forallb (without "_") ws = true.
Proof.
  unfold snake_words. apply forallb_impl. intros w H.
  apply andb_true_iff in H. destruct H as [_ H].
  unfold without. revert H. apply all_chars_impl. intros a Ha.
  destruct (lower_letter a Ha) as (_ & _ & _ & _ & _ & He & _). rewrite He. reflexivity.
Qed.

(** X20: a name made of non-empty words of lower-case letters joined by
    underscores comes back unchanged from [to_camel_case] followed by
    [to_snake_case]. *)
Theorem snake_case_survives_camel_case (ws : list string) :
  snake_words ws = true ->
  to_snake_case (to_camel_case (Str.join "_" ws)) = Str.join "_" ws.
Proof.
  intro H. destruct ws as [|w ws]; [vm_compute; reflexivity|].
  unfold to_camel_case.
  rewrite (split_on_join "_" w ws (snake_words_plain _ H)).
  rewrite (filter_snake_words _ H), to_snake_case_spec, (snake_of_titles _ H).
  rewrite join_cons. cbn [List.map]. rewrite concat_cons.
  unfold snake_words in H. cbn [forallb] in H.
  apply andb_true_iff in H. destruct H as [Hw _].
  apply andb_true_iff in Hw. destruct Hw as [Hne Hw].
  destruct w as [|a w]; [discriminate Hne|].
  simpl in Hw. apply andb_true_iff in Hw. destruct Hw as [Ha _].
  destruct (lower_letter a Ha) as (_ & _ & _ & _ & _ & _ & He).
  cbn -[Ascii.eqb]. rewrite Ascii.eqb_refl, He. reflexivity.
Qed.

Lemma snake_case_survives_camel_case_witness :
  to_camel_case "order_line_item" = "OrderLineItem" /\
  to_snake_case (to_camel_case "order_line_item") = "order_line_item".
Proof.
  split; [vm_compute; reflexivity|].
  apply (snake_case_survives_camel_case ["order"; "line"; "item"]).
  reflexivity.
Defined.

Lemma spelled_out (w : string) :
  all_chars Str.is_upper w = true ->
  Str.lower (underscore_capitals w)
  = String.concat "" (List.map (fun l => "_" ++ l) (letters (Str.lower w))).
Proof.
  induction w as [|a w IH]; [reflexivity|].
  intro H. cbn [all_chars] in H. apply andb_true_iff in H. destruct H as [Ha Hw].
  cbn [underscore_capitals]. rewrite Ha. unfold Str.lower in *.
  cbn [Str.map letters List.map].
  rewrite concat_cons, (IH Hw). reflexivity.
Qed.

Lemma capitals_have_no_prefix (w : string) :
  all_chars Str.is_upper w = true -> Str.startswith (Str.upper w) "SP_" = false.
Proof.
  destruct w as [|a [|b [|c w]]]; intro H;
    unfold Str.upper; cbn [Str.map Str.startswith];
    rewrite ?andb_false_r; try reflexivity.
  cbn [all_chars] in H.
  apply andb_true_iff in H. destruct H as [_ H].
  apply andb_true_iff in H. destruct H as [_ H].
  apply andb_true_iff in H. destruct H as [Hc _].
  destruct (upper_letter_lowered c Hc) as [_ He].
  rewrite He, !andb_false_r. reflexivity.
Qed.

(** X21: a name made of capital letters only is spelled out: its letters,
    lower-cased, with an underscore between any two of them, by
    [to_snake_case] and by [_convert_procedure_name] alike. *)
Theorem capitals_are_spelled_out (w : string) :
  all_chars Str.is_upper w = true ->
  to_snake_case w = Str.join "_" (letters (Str.lower w)) /\
  StoredProcedureConverter._convert_procedure_name w []
  = Str.join "_" (letters (Str.lower w)).
Proof.
  intro H.
  assert (G : to_snake_case w = Str.join "_" (letters (Str.lower w))).
  { rewrite to_snake_case_spec, (spelled_out w H).
    destruct w as [|a w]; [reflexivity|].
    unfold Str.lower. cbn [Str.map letters]. rewrite join_cons.
    cbn [List.map]. rewrite concat_cons.
    simpl in H. apply andb_true_iff in H. destruct H as [Ha _].
    destruct (upper_letter_lowered a Ha) as [He _].
    cbn -[Ascii.eqb Str.lower_chr]. rewrite Ascii.eqb_refl, He. reflexivity. }
  split; [exact G|].
  unfold StoredProcedureConverter._convert_procedure_name.
  rewrite (capitals_have_no_prefix w H). cbn [fold_left]. exact G.
Qed.

Lemma capitals_are_spelled_out_witness :
  to_snake_case "ORDER" = "o_r_d_e_r" /\
  StoredProcedureConverter._convert_procedure_name "ORDER" [] = "o_r_d_e_r".
Proof.
  apply (capitals_are_spelled_out "ORDER"). reflexivity.
Defined.

(** ** The log of a successful conversion *)

Lemma rename_tables_log (type_key : string) (tm : Dict.t string) :
  forall (s c : string) (r r' : ConversionResult),
    SQLConverter.rename_tables type_key tm s r = (Some c, r') ->
    transformations r'
    = (transformations r ++ List.map (logged_table type_key []) tm)%list.
Proof.
  induction tm as [|m tm IH]; intros s c r r' H.
  - injection H as _ H. subst r'. simpl. now rewrite app_nil_r.
  - rewrite rename_tables_cons in H.
    destruct (SQLConverter._replace_table_name s (fst m) (snd m)) as [c1|];
      [|discriminate].
    rewrite (IH _ _ _ _ H). simpl. rewrite <- app_assoc. reflexivity.
Qed.

Lemma rename_table_columns_log (table : string) (cols : Dict.t string) :
  forall (s c : string) (r r' : ConversionResult),
    SQLConverter.rename_table_columns table cols s r = (Some c, r') ->
    transformations r' = List.map (note_columns table cols) (transformations r).
Proof.
  induction cols as [|m cols IH]; intros s c r r' H.
  - injection H as _ H. subst r'. simpl. symmetry. apply map_id.
  - rewrite rename_table_columns_cons in H.
    destruct (SQLConverter._replace_column_name s table (fst m) (snd m)) as [c1|];
      [|discriminate].
    rewrite (IH _ _ _ _ H). simpl. rewrite map_map. reflexivity.
Qed.

Lemma rename_columns_log (cm : Dict.t (Dict.t string)) :
  forall (s c : string) (r r' : ConversionResult),
    SQLConverter.rename_columns cm s r = (Some c, r') ->
    transformations r' = List.map (note_column_maps cm) (transformations r).
Proof.
  induction cm as [|tc cm IH]; intros s c r r' H.
  - injection H as _ H. subst r'. simpl. symmetry. apply map_id.
  - rewrite rename_columns_cons in H.
    destruct (SQLConverter.rename_table_columns (fst tc) (snd tc) s r)
      as [[c1|] r1] eqn:E; [|discriminate].
    rewrite (IH _ _ _ _ H), (rename_table_columns_log _ _ _ _ _ _ E), map_map.
    reflexivity.
Qed.

Lemma note_columns_entry (table : string) (cols : Dict.t string) :
  forall (o n k : string) (d : Dict.t string),
    note_columns table cols
      {| original_table := o; new_table := n; column_mappings := d;
         type_conversions := []; dialect_conversion := k |}
    = {| original_table := o; new_table := n;
         column_mappings := if String.eqb o table then log_renames cols d else d;
         type_conversions := []; dialect_conversion := k |}.
Proof.
  unfold note_columns, log_renames.
  induction cols as [|m cols IH]; intros o n k d; simpl.
  - destruct (String.eqb o table); reflexivity.
  - unfold SQLConverter.note_column at 2. simpl.
    destruct (String.eqb o table) eqn:E.
    + rewrite IH, E. reflexivity.
    + rewrite IH, E. reflexivity.
Qed.

Lemma note_column_maps_entry (cm : Dict.t (Dict.t string)) :
  forall (o n k : string) (d : Dict.t string),
    note_column_maps cm
      {| original_table := o; new_table := n; column_mappings := d;
         type_conversions := []; dialect_conversion := k |}
    = {| original_table := o; new_table := n;
         column_mappings := logged_columns cm o d;
         type_conversions := []; dialect_conversion := k |}.
Proof.
  unfold note_column_maps, logged_columns.
  induction cm as [|tc cm IH]; intros o n k d; simpl; [reflexivity|].
  rewrite note_columns_entry, IH. reflexivity.
Qed.

(** X22: after a successful conversion the log has one entry per table
    mapping, in order: the old and the new name, the dialect pair, the
    column renames given under exactly that table name, and no type
    conversion, ever.  Column renames given under any other table name are
    in no entry. *)
Theorem log_of_a_successful_conversion (sql : string)
  (table_mappings : Dict.t string) (column_mappings : Dict.t (Dict.t string))
  (source_dialect target_dialect : string) :
  names_well_formed table_mappings column_mappings = true ->
  transformations
    (SQLConverter.convert_schema sql table_mappings column_mappings
       source_dialect target_dialect)
  = List.map
      (logged_table (source_dialect ++ "_to_" ++ target_dialect) column_mappings)
      table_mappings.
Proof.
  intro Hw.
  pose proof (convert_schema_run sql table_mappings column_mappings
                source_dialect target_dialect) as (Hs & _).
  cbv zeta in Hs. rewrite Hw in Hs. revert Hs.
  rewrite convert_schema_unfold.
  destruct (SQLConverter.rename_tables _ _ _ _) as [[c|] r1] eqn:E1.
  - destruct (SQLConverter.rename_columns column_mappings c r1) as [[c2|] r2] eqn:E2.
    + intros _. simpl.
      rewrite (rename_columns_log _ _ _ _ _ E2), (rename_tables_log _ _ _ _ _ _ E1).
      simpl. rewrite map_map. apply map_ext. intro m.
      unfold logged_table at 1. apply note_column_maps_entry.
    + pose proof (rename_columns_run column_mappings c r1) as [Hk _].
      cbv zeta in Hk. rewrite E2 in Hk. destruct Hk as (K1 & _).
      pose proof (rename_tables_run (source_dialect ++ "_to_" ++ target_dialect)
                    table_mappings
                    (SQLConverter.convert_dialect sql source_dialect target_dialect)
                    SQLConverter.empty_result) as H.
      cbv zeta in H. rewrite E1 in H. destruct H as (H1 & _).
      simpl in *. congruence.
  - pose proof (rename_tables_run (source_dialect ++ "_to_" ++ target_dialect)
                  table_mappings
                  (SQLConverter.convert_dialect sql source_dialect target_dialect)
                  SQLConverter.empty_result) as H.
    cbv zeta in H. rewrite E1 in H. destruct H as (H1 & _).
    simpl in *. congruence.
Qed.

Lemma log_of_a_successful_conversion_witness :
  transformations
    (SQLConverter.convert_schema "CREATE TABLE ORDERS (ID NUMBER, QTY NUMBER)"
       [("ORDERS", "sales_orders")]
       [("ORDERS", [("ID", "order_id")]); ("ITEMS", [("QTY", "quantity")])]
       "oracle" "postgresql")
  = [ {| original_table := "ORDERS"; new_table := "sales_orders";
         column_mappings := [("ID", "order_id")]; type_conversions := [];
         dialect_conversion := "oracle_to_postgresql" |} ].
Proof.
  apply (log_of_a_successful_conversion "CREATE TABLE ORDERS (ID NUMBER, QTY NUMBER)"
           [("ORDERS", "sales_orders")]
           [("ORDERS", [("ID", "order_id")]); ("ITEMS", [("QTY", "quantity")])]
           "oracle" "postgresql").
  reflexivity.
Defined.

(** ** A parameter without a direction *)

Lemma stops_at_end_or (p : ascii -> bool) (tail : string) :
  starts_clean p tail = true ->
  match tail with
  | EmptyString => true
  | String a _ => negb (p a)
  end = true.
Proof. destruct tail; exact (fun H => H). Qed.

Lemma exec_plus_all (R : Type) (p : ascii -> bool) (a : ascii) (body tail pre : string)
  (c : Re.caps) (k : Re.cont R) (x : R) :
  all_chars p (String a body) = true ->
  starts_clean p tail = true ->
  k (Str.rev_onto (String a body) pre) tail c = Some x ->
  Re.exec (Re.plus p) pre (String a body ++ tail) c k = Some x.
Proof.
  intros Hb Ht Hk. cbn [all_chars] in Hb. apply andb_true_iff in Hb.
  destruct Hb as [Ha Hb].
  unfold Re.plus. cbn [Re.exec String.append]. rewrite Ha.
  apply star_exec_all; [exact Hb | apply stops_at_end_or, Ht | exact Hk].
Qed.

Lemma exec_group_plus_all (R : Type) (n : nat) (p : ascii -> bool) (a : ascii)
  (body tail pre : string) (c : Re.caps) (k : Re.cont R) (x : R) :
  all_chars p (String a body) = true ->
  starts_clean p tail = true ->
  k (Str.rev_onto (String a body) pre) tail ((n, String a body) :: c) = Some x ->
  Re.exec (Re.Grp n (Re.plus p)) pre (String a body ++ tail) c k = Some x.
Proof.
  intros Hb Ht Hk. cbn [Re.exec]. fold (Re.exec (R := R)).
  apply exec_plus_all; [exact Hb | exact Ht |].
  rewrite consumed_rev_onto. exact Hk.
Qed.

Lemma exec_plus_to_the_end (R : Type) (p : ascii -> bool) (a : ascii)
  (body pre : string) (c : Re.caps) (k : Re.cont R) (x : R) :
  all_chars p (String a body) = true ->
  k (Str.rev_onto (String a body) pre) "" c = Some x ->
  Re.exec (Re.plus p) pre (String a body) c k = Some x.
Proof.
  intros Hb Hk. rewrite <- (append_nil_r (String a body)) at 1.
  apply exec_plus_all; [exact Hb | reflexivity | exact Hk].
Qed.

Lemma star_exec_none (R : Type) (p : ascii -> bool) (pre s : string) (c : Re.caps)
  (k : Re.cont R) :
  starts_clean p s = true -> Re.star_exec p pre s c k = k pre s c.
Proof.
  destruct s as [|a s]; simpl; [reflexivity|].
  intro H. apply negb_true_iff in H. rewrite H. reflexivity.
Qed.

Lemma exec_seq (R : Type) (r1 r2 : Re.regex) (pre s : string) (c : Re.caps)
  (k : Re.cont R) :
  Re.exec (Re.Seq r1 r2) pre s c k
  = Re.exec r1 pre s c (fun pre' s' c' => Re.exec r2 pre' s' c' k).
Proof. reflexivity. Qed.

Lemma exec_grp (R : Type) (n : nat) (r : Re.regex) (pre s : string) (c : Re.caps)
  (k : Re.cont R) :
  Re.exec (Re.Grp n r) pre s c k
  = Re.exec r pre s c (fun pre' s' c' => k pre' s' ((n, Re.consumed pre pre') :: c')).
Proof. reflexivity. Qed.

Lemma exec_eps (R : Type) (pre s : string) (c : Re.caps) (k : Re.cont R) :
  Re.exec Re.Eps pre s c k = k pre s c.
Proof. reflexivity. Qed.

Lemma exec_opt_taken (R : Type) (r : Re.regex) (pre s : string) (c : Re.caps)
  (k : Re.cont R) (x : R) :
  Re.exec r pre s c k = Some x -> Re.exec (Re.Opt r) pre s c k = Some x.
Proof. intro H. cbn [Re.exec]. rewrite H. reflexivity. Qed.

Lemma exec_opt_skipped (R : Type) (r : Re.regex) (pre s : string) (c : Re.caps)
  (k : Re.cont R) :
  Re.exec r pre s c k = None -> Re.exec (Re.Opt r) pre s c k = k pre s c.
Proof. intro H. cbn [Re.exec]. rewrite H. reflexivity. Qed.

Lemma exec_alt_left (R : Type) (r1 r2 : Re.regex) (pre s : string) (c : Re.caps)
  (k : Re.cont R) (x : R) :
  Re.exec r1 pre s c k = Some x -> Re.exec (Re.Alt r1 r2) pre s c k = Some x.
Proof. intro H. cbn [Re.exec]. rewrite H. reflexivity. Qed.

Lemma exec_chr_first (R : Type) (p : ascii -> bool) (r : Re.regex) (pre s : string)
  (c : Re.caps) (k : Re.cont R) :
  starts_clean p s = true -> Re.exec (Re.Seq (Re.Chr p) r) pre s c k = None.
Proof.
  destruct s as [|a s]; simpl; [reflexivity|].
  intro H. apply negb_true_iff in H. rewrite H. reflexivity.
Qed.

Lemma word_not_space (a : ascii) : Str.is_word a = true -> Str.is_space a = false.
Proof. destruct a as [[] [] [] [] [] [] [] []]; simpl; intro H; try reflexivity; discriminate H. Qed.

Lemma word_not_open (a : ascii) : Str.is_word a = true -> Ascii.eqb "(" a = false.
Proof. destruct a as [[] [] [] [] [] [] [] []]; simpl; intro H; try reflexivity; discriminate H. Qed.

Lemma parameter_without_direction (name w : string) :
  is_identifier name = true -> is_identifier w = true ->
  Re.rematch StoredProcedureConverter.parameter_pattern (name ++ " IN" ++ w)
  = Some {| Re.m_text := name ++ " IN" ++ w;
            Re.m_caps := [(3, w); (2, "IN"); (1, name)] |}.
Proof.
  unfold is_identifier. intros Hn Hw.
  destruct name as [|n0 n']; [discriminate Hn|].
  destruct w as [|w0 w']; [discriminate Hw|].
  simpl negb in Hn, Hw. rewrite andb_true_l in Hn, Hw.
  assert (Hw0 : Str.is_word w0 = true)
    by (cbn [all_chars] in Hw; apply andb_true_iff in Hw; apply Hw).
  unfold Re.rematch, Re.match_at, StoredProcedureConverter.parameter_pattern.
  cbn [Re.seqs]. rewrite exec_seq.
  apply exec_group_plus_all; [exact Hn | reflexivity|].
  rewrite exec_seq.
  change (" IN" ++ String w0 w') with (String " " "" ++ ("IN" ++ String w0 w')).
  apply exec_plus_all; [reflexivity | reflexivity|].
  rewrite exec_seq. apply exec_opt_taken. rewrite exec_grp.
  apply exec_alt_left. rewrite exec_seq, exec_lit_i.
  change (ci_prefix "IN" ("IN" ++ String w0 w')) with (PMatch "IN" (String w0 w')).
  cbv iota. rewrite exec_seq, exec_opt_skipped, exec_eps.
  2: { apply exec_chr_first. simpl. rewrite (word_not_space w0 Hw0). reflexivity. }
  rewrite consumed_rev_onto.
  rewrite exec_seq. unfold Re.spaces0. cbn [Re.exec].
  rewrite star_exec_none
    by (simpl; rewrite (word_not_space w0 Hw0); reflexivity).
  apply exec_plus_to_the_end; [exact Hw|].
  cbn [Re.exec Re.chr]. unfold Re.finish_match. cbn [andb].
  rewrite consumed_rev_onto.
  rewrite <- !rev_onto_append, consumed_rev_onto.
  reflexivity.
Qed.

Lemma strip_fixed (s : string) : trimmed s = true -> Str.strip s = s.
Proof.
  unfold trimmed, Str.strip, Str.rstrip_by. intro H.
  apply andb_true_iff in H. destruct H as [H1 H2].
  rewrite (lstrip_fixed _ _ H1), (lstrip_fixed _ _ H2). apply rev_involutive.
Qed.

Lemma all_chars_rev_onto (q : ascii -> bool) (s : string) :
  forall acc : string,
    all_chars q (Str.rev_onto s acc) = all_chars q s && all_chars q acc.
Proof.
  induction s as [|a s IH]; intro acc; simpl; [reflexivity|].
  rewrite IH. simpl. destruct (q a); destruct (all_chars q s); reflexivity.
Qed.

Lemma identifier_trimmed (name middle w : string) :
  is_identifier name = true -> is_identifier w = true ->
  trimmed (name ++ middle ++ w) = true.
Proof.
  unfold is_identifier, trimmed. intros Hn Hw.
  apply andb_true_iff in Hn. destruct Hn as [Hn0 Hn].
  apply andb_true_iff in Hw. destruct Hw as [Hw0 Hw].
  apply andb_true_iff. split.
  - destruct name as [|a name]; [discriminate Hn0|].
    simpl in Hn. apply andb_true_iff in Hn. destruct Hn as [Ha _].
    simpl. rewrite (word_not_space a Ha). reflexivity.
  - rewrite <- append_assoc, rev_append.
    assert (Hr : all_chars Str.is_word (Str.rev w) = true).
    { unfold Str.rev. rewrite all_chars_rev_onto, Hw. reflexivity. }
    assert (Hl : String.length (Str.rev w) = String.length w).
    { unfold Str.rev. rewrite length_rev_onto. simpl. lia. }
    destruct w as [|b w]; [discriminate Hw0|].
    destruct (Str.rev (String b w)) as [|z r]; [discriminate Hl|].
    simpl in Hr. apply andb_true_iff in Hr. destruct Hr as [Hz _].
    simpl. rewrite (word_not_space z Hz). reflexivity.
Qed.



(** ** The order of the types, the keys of a table, the default of a column *)

Lemma of_length_insert (n : nat) (k : string) (l : list string) :
  of_length n (insert_by_len k l)
  = if Nat.eqb (String.length k) n then k :: of_length n l else of_length n l.
Proof.
  unfold of_length. induction l as [|x l IH]; simpl; [reflexivity|].
  destruct (Nat.ltb (String.length k) (String.length x)) eqn:E; simpl.
  - rewrite IH. apply Nat.ltb_lt in E.
    destruct (Nat.eqb (String.length k) n) eqn:Ek; [|reflexivity].
    apply Nat.eqb_eq in Ek.
    destruct (Nat.eqb (String.length x) n) eqn:Ex; [|reflexivity].
    apply Nat.eqb_eq in Ex. lia.
  - reflexivity.
Qed.

Lemma forallb_insert (q : string -> bool) (k : string) (l : list string) :
  forallb q (insert_by_len k l) = q k && forallb q l.
Proof.
  induction l as [|x l IH]; simpl; [reflexivity|].
  destruct (Nat.ltb (String.length k) (String.length x)); simpl; [|reflexivity].
  rewrite IH. destruct (q x); destruct (q k); reflexivity.
Qed.

Lemma longest_first_insert (k : string) (l : list string) :
  longest_first l = true -> longest_first (insert_by_len k l) = true.
Proof.
  induction l as [|x l IH]; simpl; [reflexivity|].
  intro H. apply andb_true_iff in H. destruct H as [Hx Hl].
  destruct (Nat.ltb (String.length k) (String.length x)) eqn:E; simpl.
  - rewrite forallb_insert, Hx, (IH Hl). apply Nat.ltb_lt in E.
    replace (Nat.leb (String.length k) (String.length x)) with true
      by (symmetry; apply Nat.leb_le; lia).
    reflexivity.
  - apply Nat.ltb_ge in E. rewrite Hx, Hl.
    replace (Nat.leb (String.length x) (String.length k)) with true
      by (symmetry; apply Nat.leb_le; lia).
    simpl. rewrite andb_true_r.
    revert Hx. apply forallb_impl. intros y Hy.
    apply Nat.leb_le in Hy. apply Nat.leb_le. lia.
Qed.

(** X24: the source types are tried longest first, and types of one length
    in the order of the table: the sorted list has no type before a longer
    one, and for every length it holds the same types in the same order as
    the table. *)
Theorem types_are_tried_longest_first (keys : list string) :
  longest_first (sorted_by_len_desc keys) = true /\
  forall n : nat,
    of_length n (sorted_by_len_desc keys) = of_length n keys.
Proof.
  unfold sorted_by_len_desc. induction keys as [|k keys [IH1 IH2]]; simpl.
  - split; reflexivity.
  - split; [apply longest_first_insert, IH1|].
    intro n. rewrite of_length_insert, IH2. unfold of_length. simpl.
    destruct (Nat.eqb (String.length k) n); reflexivity.
Qed.

Lemma search_from_inv (r : Re.regex) (s : string) :
  forall (pre : string) (m : Re.rmatch),
    Re.search_from r pre s = Some m ->
    exists u s' : string,
      s = u ++ s' /\ Re.match_at r false (Str.rev_onto u pre) s' = Some m.
Proof.
  induction s as [|a s IH]; intros pre m H; simpl in H.
  - destruct (Re.match_at r false pre "") as [m'|] eqn:E; [|discriminate].
    injection H as H. subst m'. exists "", "". split; [reflexivity | exact E].
  - destruct (Re.match_at r false pre (String a s)) as [m'|] eqn:E.
    + injection H as H. subst m'. exists "", (String a s). split; [reflexivity | exact E].
    + destruct (IH _ _ H) as (u & s' & Hs & Hm).
      exists (String a u), s'. split; [simpl; now rewrite Hs | exact Hm].
Qed.

Lemma parse_column_named (part : string) (c : Column) :
  SQLConverter.parse_column part = Some c -> is_identifier (col_name c) = true.
Proof.
  unfold SQLConverter.parse_column. cbv zeta.
  destruct (String.eqb (Str.strip part) ""); [discriminate|].
  destruct (Re.rematch SQLConverter.constraint_pattern _); [discriminate|].
  destruct (Re.rematch SQLConverter.column_pattern (Str.strip part)) as [m|] eqn:E;
    [|discriminate].
  intro H. injection H as H. subst c. cbn [col_name].
  exact (column_match _ _ _ _ E).
Qed.

Lemma primary_key_match (ma : bool) (pre s : string) (m : Re.rmatch) :
  Re.match_at SQLConverter.primary_key_pattern ma pre s = Some m ->
  is_identifier (Re.group_text m 1) = true.
Proof.
  intro H.
  destruct (match_named_group 0 Str.is_word [Re.chr ")"]
              [Re.lit_i "PRIMARY"; Re.spaces1; Re.lit_i "KEY"; Re.spaces0; Re.chr "("]
              ma pre s m) as (a & w & Hg & Hw).
  - simpl. intros [].
  - exact H.
  - rewrite Hg. apply is_identifier_intro, Hw.
Qed.

Lemma find_primary_key_named (columns_str : string) :
  empty_or_identifier
    (SQLConverter.find_primary_key columns_str
       (SQLConverter._parse_columns columns_str)) = true.
Proof.
  unfold SQLConverter.find_primary_key, empty_or_identifier.
  destruct (Re.search SQLConverter.primary_key_pattern columns_str) as [m|] eqn:E.
  - unfold Re.search in E. apply search_from_inv in E.
    destruct E as (u & s' & _ & Hm).
    rewrite (primary_key_match _ _ _ _ Hm). apply orb_true_r.
  - destruct (find col_primary_key (SQLConverter._parse_columns columns_str))
      as [col|] eqn:F; [|reflexivity].
    apply find_some in F. destruct F as [F _].
    unfold SQLConverter._parse_columns in F. apply collect_in in F.
    destruct F as [part [_ F]].
    rewrite (parse_column_named _ _ F). apply orb_true_r.
Qed.

Lemma foreign_key_match (ma : bool) (pre s : string) (m : Re.rmatch) :
  Re.match_at SQLConverter.foreign_key_pattern ma pre s = Some m ->
  foreign_key_named (SQLConverter.foreign_key_of m) = true.
Proof.
  intro H. unfold foreign_key_named, SQLConverter.foreign_key_of.
  cbn [fk_column references_table references_column].
  destruct (match_named_group 0 Str.is_word
              [Re.chr ")"; Re.spaces0; Re.lit_i "REFERENCES"; Re.spaces1;
               Re.Grp 2 Re.word1; Re.spaces0; Re.chr "("; Re.Grp 3 Re.word1; Re.chr ")"]
              [Re.lit_i "FOREIGN"; Re.spaces1; Re.lit_i "KEY"; Re.spaces0; Re.chr "("]
              ma pre s m) as (a1 & w1 & Hg1 & Hw1);
    [simpl; intros [E | [E | []]]; discriminate E | exact H |].
  destruct (match_named_group 1 Str.is_word
              [Re.spaces0; Re.chr "("; Re.Grp 3 Re.word1; Re.chr ")"]
              [Re.lit_i "FOREIGN"; Re.spaces1; Re.lit_i "KEY"; Re.spaces0; Re.chr "(";
               Re.Grp 1 Re.word1; Re.chr ")"; Re.spaces0; Re.lit_i "REFERENCES";
               Re.spaces1]
              ma pre s m) as (a2 & w2 & Hg2 & Hw2);
    [simpl; intros [E | []]; discriminate E | exact H |].
  destruct (match_named_group 2 Str.is_word [Re.chr ")"]
              [Re.lit_i "FOREIGN"; Re.spaces1; Re.lit_i "KEY"; Re.spaces0; Re.chr "(";
               Re.Grp 1 Re.word1; Re.chr ")"; Re.spaces0; Re.lit_i "REFERENCES";
               Re.spaces1; Re.Grp 2 Re.word1; Re.spaces0; Re.chr "("]
              ma pre s m) as (a3 & w3 & Hg3 & Hw3);
    [simpl; intros [] | exact H |].
  rewrite Hg1, Hg2, Hg3.
  rewrite !is_identifier_intro by assumption. reflexivity.
Qed.




Lemma ci_prefix_startswith (K : string) :
  forall Y K' rest : string,
    ci_prefix K Y = PMatch K' rest ->
    Str.startswith (Str.upper Y) (Str.upper K) = true.
Proof.
  unfold Str.upper.
  induction K as [|k K IH]; intros Y K' rest H.
  - destruct Y; reflexivity.
  - destruct Y as [|y Y]; [discriminate H|]. cbn [ci_prefix] in H.
    destruct (Ascii.eqb (Str.lower_chr y) (Str.lower_chr k)) eqn:E; [|discriminate H].
    destruct (ci_prefix K Y) as [K1 r1| |] eqn:EK; try discriminate H.
    cbn [Str.map Str.startswith]. rewrite (IH _ _ _ EK), andb_true_r.
    apply Ascii.eqb_eq in E.
    rewrite <- (upper_chr_lower_chr y), <- (upper_chr_lower_chr k), E.
    apply Ascii.eqb_refl.
Qed.

Lemma contains_later (K u s : string) :
  Str.startswith s K = true -> Str.contains K (u ++ s) = true.
Proof.
  intro H. induction u as [|a u IH].
  - cbn [String.append]. destruct s; cbn [Str.contains]; rewrite H; reflexivity.
  - cbn [String.append Str.contains]. rewrite IH. apply orb_true_r.
Qed.

Lemma upper_append (x y : string) : Str.upper (x ++ y) = Str.upper x ++ Str.upper y.
Proof.
  unfold Str.upper. induction x as [|a x IH]; cbn [Str.map String.append]; [reflexivity|].
  rewrite IH. reflexivity.
Qed.

Lemma default_match (ma : bool) (pre s : string) (m : Re.rmatch) :
  Re.match_at SQLConverter.default_pattern ma pre s = Some m ->
  Str.startswith (Str.upper s) "DEFAULT" = true.
Proof.
  unfold Re.match_at, SQLConverter.default_pattern. cbn [Re.seqs].
  rewrite exec_seq, exec_lit_i.
  destruct (ci_prefix "DEFAULT" s) as [K' rest| |] eqn:E; try discriminate.
  intros _. exact (ci_prefix_startswith _ _ _ _ E).
Qed.

(** X26: column attributes that do not hold the letters DEFAULT, in any
    case, have no default value. *)
Theorem no_default_without_the_keyword (attrs : string) :
  Str.contains "DEFAULT" (Str.upper attrs) = false ->
  SQLConverter._extract_default attrs = None.
Proof.
  intro H. unfold SQLConverter._extract_default.
  destruct (Re.search SQLConverter.default_pattern attrs) as [m|] eqn:E; [|reflexivity].
  unfold Re.search in E. apply search_from_inv in E.
  destruct E as (u & s' & Hs & Hm). apply default_match in Hm.
  rewrite Hs, upper_append, (contains_later _ _ _ Hm) in H. discriminate H.
Qed.

Lemma no_default_without_the_keyword_witness :
  SQLConverter._extract_default "NOT NULL UNIQUE" = None.
Proof.
  apply (no_default_without_the_keyword "NOT NULL UNIQUE"). reflexivity.
Defined.


(** ** Characters *)

Lemma is_word_lower (a : ascii) : Str.is_word (Str.lower_chr a) = Str.is_word a.
Proof. destruct a as [[] [] [] [] [] [] [] []]; vm_compute; reflexivity. Qed.

Lemma is_space_lower (a : ascii) : Str.is_space (Str.lower_chr a) = Str.is_space a.
Proof. destruct a as [[] [] [] [] [] [] [] []]; vm_compute; reflexivity. Qed.

Lemma is_alpha_lower (a : ascii) : Str.is_alpha (Str.lower_chr a) = Str.is_alpha a.
Proof. destruct a as [[] [] [] [] [] [] [] []]; vm_compute; reflexivity. Qed.

Lemma alpha_is_word (a : ascii) : Str.is_alpha a = true -> Str.is_word a = true.
Proof. unfold Str.is_word. intros ->. reflexivity. Qed.

Lemma digit_is_word (a : ascii) : Str.is_digit a = true -> Str.is_word a = true.
Proof. unfold Str.is_word. intros ->. now rewrite orb_true_r. Qed.

Lemma digit_not_alpha (a : ascii) : Str.is_digit a = true -> Str.is_alpha a = false.
Proof. destruct a as [[] [] [] [] [] [] [] []]; vm_compute; intros H; first [reflexivity | discriminate H]. Qed.

Lemma space_not_word (a : ascii) : Str.is_space a = true -> Str.is_word a = false.
Proof. destruct a as [[] [] [] [] [] [] [] []]; vm_compute; intros H; first [reflexivity | discriminate H]. Qed.

Lemma same_letter_class (p : ascii -> bool) (y k : ascii) :
  (forall a, p (Str.lower_chr a) = p a) ->
  Ascii.eqb (Str.lower_chr y) (Str.lower_chr k) = true -> p y = p k.
Proof.
  intros Hp H. apply Ascii.eqb_eq in H. rewrite <- (Hp y), <- (Hp k). now rewrite H.
Qed.

(** ** Keywords against a text *)

Lemma wordy_cons (K : string) :
  wordy K = true ->
  exists k K1, K = String k K1 /\ Str.is_alpha k = true /\ all_chars Str.is_word K1 = true.
Proof.
  unfold wordy. destruct K as [| k K1]; simpl; [discriminate |].
  intros H. apply andb_true_iff in H. destruct H as [Hk H].
  apply andb_true_iff in H. destruct H as [_ H]. now exists k, K1.
Qed.

Lemma ci_prefix_class (p : ascii -> bool) (K : string) :
  (forall a, p (Str.lower_chr a) = p a) ->
  all_chars p K = true ->
  forall s m rest, ci_prefix K s = PMatch m rest -> all_chars p m = true.
Proof.
  intros Hp. induction K as [| k K IH]; intros HK s m rest H; simpl in *.
  - injection H as H1 H2. subst. reflexivity.
  - apply andb_true_iff in HK. destruct HK as [Hk HK].
    destruct s as [| y s]; [discriminate |].
    destruct (Ascii.eqb (Str.lower_chr y) (Str.lower_chr k)) eqn:E; [| discriminate].
    destruct (ci_prefix K s) as [a b | |] eqn:E2; try discriminate.
    injection H as H1 H2. subst. simpl.
    rewrite (same_letter_class p y k Hp E), Hk. exact (IH HK _ _ _ E2).
Qed.

Lemma first_is_rev_onto (p : ascii -> bool) (m : string) :
  forall pre : string,
    first_is p (Str.rev_onto m pre) =
    match m with
    | EmptyString => first_is p pre
    | String _ _ => first_is p (Str.rev_onto m "")
    end.
Proof.
  induction m as [| a m IH]; intros pre; [reflexivity |].
  simpl. rewrite IH. rewrite (IH (String a "")). destruct m; reflexivity.
Qed.

Lemma all_chars_last (p : ascii -> bool) (m : string) :
  all_chars p m = true -> m <> "" ->
  forall pre, first_is p (Str.rev_onto m pre) = true.
Proof.
  induction m as [| a m IH]; intros H Hne pre; [congruence |].
  simpl in *. apply andb_true_iff in H. destruct H as [Ha H].
  destruct m as [| b m]; [exact Ha |].
  apply IH; [exact H | discriminate].
Qed.

(** Where a keyword matches, the text starts with a letter and the match
    ends in a word character. *)
Lemma wordy_match (K s m rest : string) :
  wordy K = true ->
  ci_prefix K s = PMatch m rest ->
  first_is Str.is_alpha s = true /\
  first_is Str.is_alpha m = true /\
  all_chars Str.is_word m = true /\
  s = m ++ rest /\
  forall pre, Re.word_first (Str.rev_onto m pre) = true.
Proof.
  intros HK H.
  destruct (wordy_cons K HK) as (k & K1 & -> & Hk & HK1).
  assert (Hall : all_chars Str.is_word m = true).
  { apply (ci_prefix_class Str.is_word (String k K1) is_word_lower) with (s := s) (rest := rest).
    - simpl. now rewrite (alpha_is_word k Hk).
    - exact H. }
  destruct (ci_prefix_match _ _ _ _ H) as [Hs Hlen].
  simpl in H. destruct s as [| y s]; [discriminate |].
  destruct (Ascii.eqb (Str.lower_chr y) (Str.lower_chr k)) eqn:E; [| discriminate].
  destruct (ci_prefix K1 s) as [a b | |]; try discriminate.
  injection H as H1 H2. subst m b.
  assert (Hy : Str.is_alpha y = true)
    by now rewrite (same_letter_class Str.is_alpha y k is_alpha_lower E).
  repeat split; try assumption.
  intros pre. change (Re.word_first ?x) with (first_is Str.is_word x).
  apply all_chars_last; [exact Hall | discriminate].
Qed.

Lemma wordy_no_match_here (K s : string) :
  wordy K = true -> first_is Str.is_alpha s = false ->
  match ci_prefix K s with PMatch _ _ => False | _ => True end.
Proof.
  intros HK Hs. destruct (ci_prefix K s) as [m rest | |] eqn:E; [| exact I | exact I].
  destruct (wordy_match K s m rest HK E) as (H & _). congruence.
Qed.

(** ** Greedy repetition in front of a part that refuses what it takes *)

Lemma leading_lstrip (p : ascii -> bool) (s : string) :
  s = leading p s ++ Str.lstrip_by p s.
Proof.
  induction s as [| a s IH]; simpl; [reflexivity |].
  destruct (p a); simpl; [now rewrite <- IH | reflexivity].
Qed.

Lemma leading_all (p : ascii -> bool) (s : string) : all_chars p (leading p s) = true.
Proof.
  induction s as [| a s IH]; simpl; [reflexivity |].
  destruct (p a) eqn:E; simpl; [now rewrite E | reflexivity].
Qed.

Lemma lstrip_first (p : ascii -> bool) (s : string) :
  first_is p (Str.lstrip_by p s) = false.
Proof.
  induction s as [| a s IH]; simpl; [reflexivity |].
  destruct (p a) eqn:E; [exact IH | simpl; exact E].
Qed.

Lemma star_exec_max (R : Type) (p : ascii -> bool) (s : string) :
  forall (pre : string) (c : Re.caps) (k : Re.cont R),
    (forall pre' a s' c', p a = true -> k pre' (String a s') c' = None) ->
    Re.star_exec p pre s c k
    = k (Str.rev_onto (leading p s) pre) (Str.lstrip_by p s) c.
Proof.
  induction s as [| a s IH]; intros pre c k Hk; simpl; [reflexivity |].
  destruct (p a) eqn:E; [| reflexivity].
  rewrite (IH _ _ _ Hk). simpl.
  destruct (k (Str.rev_onto (leading p s) (String a pre)) (Str.lstrip_by p s) c);
    [reflexivity |].
  now apply Hk.
Qed.

Lemma star_exec_total (R : Type) (p : ascii -> bool) (s : string) :
  forall (pre : string) (c : Re.caps) (k : Re.cont R),
    (forall pre' s' c', found (k pre' s' c') = true) ->
    found (Re.star_exec p pre s c k) = true.
Proof.
  induction s as [| a s IH]; intros pre c k Hk; simpl; [apply Hk |].
  destruct (p a); [| apply Hk].
  specialize (IH (String a pre) c k Hk).
  destruct (Re.star_exec p (String a pre) s c k); [reflexivity | discriminate].
Qed.

Lemma found_finish (pre pre' s : string) (c : Re.caps) :
  found (Re.finish_match false pre pre' s c) = true.
Proof. reflexivity. Qed.

(** ** What follows the keyword *)

Lemma space_not_open (a : ascii) : Str.is_space a = true -> Ascii.eqb "(" a = false.
Proof. destruct a as [[] [] [] [] [] [] [] []]; vm_compute; intros H; first [reflexivity | discriminate H]. Qed.

Lemma lstrip_space_cons (a : ascii) (s : string) :
  Str.is_space a = true ->
  Str.lstrip_by Str.is_space (String a s) = Str.lstrip_by Str.is_space s.
Proof. intros H. simpl. now rewrite H. Qed.

Lemma exec_plus_total (p : ascii -> bool) (pre0 pre s : string) (c : Re.caps) :
  found (Re.exec (Re.Seq (Re.plus p) Re.Eps) pre s c (Re.finish_match false pre0))
  = first_is p s.
Proof.
  unfold Re.plus. cbn [Re.exec].
  destruct s as [| a s]; [reflexivity |]. simpl first_is.
  destruct (p a); [| reflexivity].
  apply star_exec_total. intros. reflexivity.
Qed.

Lemma exec_tail (t : keyword_tail) (pre0 pre s : string) (c : Re.caps) :
  Re.word_first pre = true ->
  found (Re.exec (Re.seqs (tail_regex t)) pre s c (Re.finish_match false pre0))
  = tail_ok t s.
Proof.
  intros Hpre. destruct t; cbn [tail_regex Re.seqs tail_ok].
  - cbn [Re.exec]. unfold Re.at_boundary. rewrite Hpre. simpl xorb.
    destruct (Re.word_first s); reflexivity.
  - unfold Re.spaces0. cbn [Re.exec].
    rewrite star_exec_max.
    + destruct (Str.lstrip_by Str.is_space s) as [| a r]; [reflexivity |].
      unfold Re.chr. cbn [Re.exec first_is]. destruct (Ascii.eqb "(" a); reflexivity.
    + intros pre' a s' c' Ha. unfold Re.chr. cbn [Re.exec].
      now rewrite (space_not_open a Ha).
  - unfold Re.spaces1, Re.plus at 1. cbn [Re.exec].
    destruct s as [| a s]; [reflexivity |]. cbn [first_is].
    destruct (Str.is_space a) eqn:Ea; [| reflexivity].
    rewrite (lstrip_space_cons a s Ea). cbn [andb].
    rewrite star_exec_max.
    + apply (exec_plus_total Str.is_word).
    + intros pre' b s' c' Hb. unfold Re.word1, Re.plus. cbn [Re.exec].
      now rewrite (space_not_word b Hb).
  - unfold Re.spaces1, Re.plus at 1. cbn [Re.exec].
    destruct s as [| a s]; [reflexivity |]. cbn [first_is].
    destruct (Str.is_space a) eqn:Ea; [| reflexivity].
    rewrite (lstrip_space_cons a s Ea). cbn [andb].
    rewrite star_exec_max.
    + apply (exec_plus_total Str.is_digit).
    + intros pre' b s' c' Hb. unfold Re.digits1, Re.plus. cbn [Re.exec].
      destruct (Str.is_digit b) eqn:Hd; [| reflexivity].
      apply digit_is_word in Hd. rewrite (space_not_word b Hb) in Hd. discriminate.
  - unfold Re.spaces0. cbn [Re.exec].
    rewrite star_exec_max.
    + destruct (Str.lstrip_by Str.is_space s) as [| a r]; [reflexivity |].
      unfold Re.chr at 1. cbn [Re.exec].
      destruct (Ascii.eqb "(" a); [| reflexivity]. cbn [andb].
      unfold Re.plus. cbn [Re.exec]. unfold storage_body, closes.
      destruct r as [| b r]; [reflexivity |]. cbn [first_is].
      destruct (Re.none_of ")" b) eqn:Eb; [| reflexivity].
      cbn [andb]. simpl Str.lstrip_by. rewrite Eb.
      rewrite star_exec_max.
      * destruct (Str.lstrip_by (Re.none_of ")") r) as [| z r2]; [reflexivity |].
        unfold Re.chr. cbn [Re.exec first_is]. destruct (Ascii.eqb ")" z); reflexivity.
      * intros pre' z s' c' Hz. unfold Re.chr. cbn [Re.exec].
        unfold Re.none_of in Hz. simpl in Hz. rewrite orb_false_r in Hz.
        apply negb_true_iff in Hz. rewrite Ascii.eqb_sym. now rewrite Hz.
    + intros pre' a s' c' Ha. unfold Re.chr at 1. cbn [Re.exec].
      now rewrite (space_not_open a Ha).
Qed.

(** ** A match of a keyword pattern at a position *)

Lemma exec_key_tail (q : keyword_pattern) (pre0 pre s : string) (c : Re.caps) :
  wordy (kp_key q) = true ->
  found (Re.exec (Re.seqs (Re.lit_i (kp_key q) :: tail_regex (kp_tail q))) pre s c
           (Re.finish_match false pre0))
  = match ci_prefix (kp_key q) s with
    | PMatch _ rest => tail_ok (kp_tail q) rest
    | _ => false
    end.
Proof.
  intros HK. cbn [Re.seqs Re.exec]. rewrite exec_lit_i.
  destruct (ci_prefix (kp_key q) s) as [m rest | |] eqn:E; [| reflexivity | reflexivity].
  apply exec_tail.
  destruct (wordy_match _ _ _ _ HK E) as (_ & _ & _ & _ & H). apply H.
Qed.

Lemma kp_match_at (q : keyword_pattern) (pre s : string) :
  wordy (kp_key q) = true ->
  found (Re.match_at (kp_regex q) false pre s) = kp_start q pre s.
Proof.
  intros HK. unfold Re.match_at, kp_regex, kp_start, kw_hit.
  destruct (kp_lead q) eqn:El; cbn [lead_regex lead_ok].
  - change (Re.exec (Re.seqs (Re.WordB :: ?l)) pre s [] ?k)
      with (if Re.at_boundary pre s then Re.exec (Re.seqs l) pre s [] k else None).
    pose proof (exec_key_tail q pre pre s [] HK) as H.
    destruct (ci_prefix (kp_key q) s) as [m rest | |] eqn:E.
    + destruct (wordy_match _ _ _ _ HK E) as (Hs & _).
      assert (Hw : Re.word_first s = true).
      { destruct s as [| a s]; [discriminate |]. simpl in *. now apply alpha_is_word. }
      unfold Re.at_boundary. rewrite Hw.
      destruct (Re.word_first pre); simpl; [reflexivity | exact H].
    + rewrite andb_false_r. destruct (Re.at_boundary pre s); [exact H | reflexivity].
    + rewrite andb_false_r. destruct (Re.at_boundary pre s); [exact H | reflexivity].
  - change (Re.exec (Re.seqs (Re.spaces1 :: ?l)) pre s [] ?k)
      with (Re.exec Re.spaces1 pre s [] (fun p1 s1 c1 => Re.exec (Re.seqs l) p1 s1 c1 k)).
    unfold Re.spaces1, Re.plus. cbn [Re.exec].
    destruct s as [| a s]; [reflexivity |]. cbn [first_is].
    destruct (Str.is_space a) eqn:Ea; [| reflexivity].
    cbn [andb]. rewrite star_exec_max.
    + rewrite (lstrip_space_cons a s Ea). simpl leading. rewrite Ea.
      simpl Str.rev_onto.
      rewrite (exec_key_tail q pre _ _ [] HK).
      assert (Hl : first_is Str.is_space
                     (Str.rev_onto (leading Str.is_space s) (String a pre)) = true).
      { destruct (leading Str.is_space s) eqn:El2; [exact Ea |].
        rewrite <- El2. apply all_chars_last; [apply leading_all | congruence]. }
      rewrite Hl. reflexivity.
    + intros pre' b s' c' Hb. cbn [Re.seqs Re.exec]. rewrite exec_lit_i.
      pose proof (wordy_no_match_here (kp_key q) (String b s') HK) as H.
      simpl in H.
      assert (Hb' : Str.is_alpha b = false).
      { destruct (Str.is_alpha b) eqn:E; [| reflexivity].
        apply alpha_is_word in E. rewrite (space_not_word b Hb) in E. discriminate. }
      specialize (H Hb'). destruct (ci_prefix (kp_key q) (String b s')); [contradiction | |]; reflexivity.
Qed.

(** ** A pattern that is found somewhere *)

Lemma found_search_from (q : keyword_pattern) (s : string) :
  wordy (kp_key q) = true ->
  forall pre, found (Re.search_from (kp_regex q) pre s) = starts_from q pre s.
Proof.
  intros HK. induction s as [| a s IH]; intros pre; simpl.
  - rewrite <- (kp_match_at q pre "" HK).
    destruct (Re.match_at (kp_regex q) false pre ""); simpl; [reflexivity |].
    reflexivity.
  - rewrite <- (kp_match_at q pre (String a s) HK).
    destruct (Re.match_at (kp_regex q) false pre (String a s)); simpl; [reflexivity |].
    apply IH.
Qed.

Lemma occurs_from_skip (q : keyword_pattern) (w : string) :
  forall pre s,
    occurs_from q (Str.rev_onto w pre) s = true -> occurs_from q pre (w ++ s) = true.
Proof.
  induction w as [| a w IH]; intros pre s H; simpl in *; [exact H |].
  rewrite (IH _ _ H). apply orb_true_r.
Qed.

Lemma occurs_from_hit (q : keyword_pattern) (pre s : string) :
  kw_hit q pre s = true -> occurs_from q pre s = true.
Proof. intros H. destruct s; simpl; rewrite H; reflexivity. Qed.

Lemma starts_occurs (q : keyword_pattern) (s : string) :
  forall pre, starts_from q pre s = true -> occurs_from q pre s = true.
Proof.
  induction s as [| a s IH]; intros pre H; simpl in H.
  - rewrite orb_false_r in H. unfold kp_start in H.
    destruct (kp_lead q); [now apply occurs_from_hit | discriminate].
  - apply orb_true_iff in H. destruct H as [H | H].
    + unfold kp_start in H. destruct (kp_lead q).
      * now apply occurs_from_hit.
      * apply andb_true_iff in H. destruct H as [_ H].
        rewrite (leading_lstrip Str.is_space (String a s)).
        apply occurs_from_skip. now apply occurs_from_hit.
    + simpl. rewrite (IH _ H). apply orb_true_r.
Qed.

Lemma hit_behind_space (q : keyword_pattern) (a : ascii) (pre s : string) :
  wordy (kp_key q) = true ->
  kp_lead q = LeadSpaces ->
  kw_hit q (String a pre) s = true -> kp_start q pre (String a s) = true.
Proof.
  intros HK Hl H. unfold kp_start. rewrite Hl.
  pose proof H as H0. unfold kw_hit in H. rewrite Hl in H.
  apply andb_true_iff in H. destruct H as [Ha H]. simpl in Ha.
  destruct (ci_prefix (kp_key q) s) as [m rest | |] eqn:E; try discriminate.
  destruct (wordy_match _ _ _ _ HK E) as (Hs & _).
  assert (Hns : first_is Str.is_space s = false).
  { destruct s as [| b s]; [reflexivity |]. simpl in *.
    destruct (Str.is_space b) eqn:Eb; [| reflexivity].
    apply alpha_is_word in Hs. rewrite (space_not_word b Eb) in Hs. discriminate. }
  simpl. rewrite Ha. simpl.
  assert (El : leading Str.is_space s = "" /\ Str.lstrip_by Str.is_space s = s).
  { destruct s as [| b s]; [now split |]. simpl in *. now rewrite Hns. }
  destruct El as [-> ->]. simpl. exact H0.
Qed.

Lemma occurs_starts_spaces (q : keyword_pattern) (s : string) :
  wordy (kp_key q) = true ->
  kp_lead q = LeadSpaces ->
  forall a pre,
    occurs_from q (String a pre) s = true -> starts_from q pre (String a s) = true.
Proof.
  intros HK Hl. induction s as [| b s IH]; intros a pre H.
  - simpl in H. rewrite orb_false_r in H.
    simpl. rewrite (hit_behind_space q a pre "" HK Hl H). reflexivity.
  - simpl in H. apply orb_true_iff in H. destruct H as [H | H].
    + change (starts_from q pre (String a (String b s)))
        with (kp_start q pre (String a (String b s)) || starts_from q (String a pre) (String b s)).
      now rewrite (hit_behind_space q a pre _ HK Hl H).
    + change (starts_from q pre (String a (String b s)))
        with (kp_start q pre (String a (String b s)) || starts_from q (String a pre) (String b s)).
      rewrite (IH _ _ H). apply orb_true_r.
Qed.

Lemma occurs_starts (q : keyword_pattern) (s : string) :
  wordy (kp_key q) = true ->
  occurs_from q "" s = starts_from q "" s.
Proof.
  intros HK. destruct (kp_lead q) eqn:Hl.
  - assert (G : forall s pre, occurs_from q pre s = starts_from q pre s).
    { clear s. induction s as [| a s IH]; intros pre; simpl; unfold kp_start; rewrite Hl;
        [reflexivity | now rewrite IH]. }
    apply G.
  - destruct (starts_from q "" s) eqn:E.
    + now apply starts_occurs.
    + destruct (occurs_from q "" s) eqn:E2; [| reflexivity].
      destruct s as [| a s]; simpl in E2.
      * unfold kw_hit in E2. rewrite Hl in E2. discriminate.
      * unfold kw_hit in E2 at 1. rewrite Hl in E2. simpl in E2.
        rewrite (occurs_starts_spaces q s HK Hl a "" E2) in E. discriminate.
Qed.

(** The pattern is found nowhere in a text exactly when its keyword stands
    nowhere in it with what the pattern asks around it. *)
Lemma no_match_keyword (q : keyword_pattern) (s : string) :
  wordy (kp_key q) = true ->
  no_match (kp_regex q) s = negb (occurs_from q "" s).
Proof.
  intros HK. rewrite (occurs_starts q s HK).
  unfold no_match, Re.search. rewrite <- (found_search_from q s HK "").
  destruct (Re.search_from (kp_regex q) "" s); reflexivity.
Qed.

(** ** Texts and their first character *)

Lemma first_is_append (p : ascii -> bool) (u v : string) :
  first_is p u = true -> first_is p (u ++ v) = true.
Proof. destruct u; simpl; [discriminate | trivial]. Qed.

Lemma first_is_impl (p p' : ascii -> bool) (s : string) :
  (forall a, p a = true -> p' a = true) ->
  first_is p s = true -> first_is p' s = true.
Proof. intros H. destruct s; simpl; [discriminate | apply H]. Qed.

Lemma lstrip_nothing (p : ascii -> bool) (s : string) :
  first_is p s = false -> Str.lstrip_by p s = s.
Proof. destruct s as [| a s]; simpl; [reflexivity |]. now intros ->. Qed.

Lemma alpha_first_not_space (s : string) :
  first_is Str.is_alpha s = true -> first_is Str.is_space s = false.
Proof.
  destruct s as [| a s]; simpl; [discriminate |]. intros H.
  destruct (Str.is_space a) eqn:E; [| reflexivity].
  apply alpha_is_word in H. rewrite (space_not_word a E) in H. discriminate.
Qed.

Lemma none_of_close (a : ascii) : Re.none_of ")" a = negb (Ascii.eqb ")" a).
Proof.
  unfold Re.none_of. cbn [Re.char_in]. now rewrite orb_false_r, Ascii.eqb_sym.
Qed.

Lemma closes_cons (a : ascii) (s : string) :
  closes (String a s) = Ascii.eqb ")" a || closes s.
Proof.
  unfold closes. cbn [Str.lstrip_by]. rewrite none_of_close.
  destruct (Ascii.eqb ")" a) eqn:E; cbn [negb first_is orb]; [exact E | reflexivity].
Qed.

Lemma closes_append (u v : string) : closes (u ++ v) = closes u || closes v.
Proof.
  induction u as [| a u IH]; [reflexivity |].
  simpl. rewrite !closes_cons, IH. now rewrite orb_assoc.
Qed.

Lemma alpha_not_close (a : ascii) : Str.is_alpha a = true -> Re.none_of ")" a = true.
Proof. destruct a as [[] [] [] [] [] [] [] []]; vm_compute; intros H; first [reflexivity | discriminate H]. Qed.

Lemma open_not_alpha (a : ascii) : Ascii.eqb "(" a = true -> Str.is_alpha a = false.
Proof. intros H. apply Ascii.eqb_eq in H. subst a. reflexivity. Qed.

(** ** A keyword that runs out of replacement *)

Lemma ci_prefix_short_then (K : string) :
  all_chars Str.is_word K = true ->
  forall head sy,
    ci_prefix K head = PShort ->
    Re.word_first sy = false ->
    match ci_prefix K (head ++ sy) with PMatch _ _ => False | _ => True end.
Proof.
  induction K as [| k K IH]; intros HK head sy H Hsy; simpl in *; [discriminate |].
  apply andb_true_iff in HK. destruct HK as [Hk HK].
  destruct head as [| h head]; simpl.
  - destruct sy as [| y sy]; [exact I |]. simpl in Hsy.
    destruct (Ascii.eqb (Str.lower_chr y) (Str.lower_chr k)) eqn:E; [| exact I].
    rewrite (same_letter_class Str.is_word y k is_word_lower E) in Hsy. congruence.
  - destruct (Ascii.eqb (Str.lower_chr h) (Str.lower_chr k)); [| exact I].
    destruct (ci_prefix K head) eqn:E; try discriminate.
    specialize (IH HK head sy E Hsy).
    destruct (ci_prefix K (head ++ sy)); [contradiction | exact I | exact I].
Qed.

(** ** Inside a replacement *)

Lemma tight_split (R1 : string) :
  forall R2 pre,
    tight (R1 ++ R2) = true -> R1 <> "" ->
    first_is Str.is_word (Str.rev_onto R1 pre) = true \/ first_is Str.is_alpha R2 = false.
Proof.
  induction R1 as [| a R1 IH]; intros R2 pre H Hne; [congruence |].
  destruct R1 as [| b R1].
  - simpl in *. destruct R2 as [| c R2]; [now right |].
    apply andb_true_iff in H. destruct H as [H _].
    apply orb_true_iff in H. destruct H as [H | H]; [now left |].
    right. simpl. now apply negb_true_iff in H.
  - change (tight (String a (String b (R1 ++ R2))) = true) in H.
    cbn [tight] in H. apply andb_true_iff in H. destruct H as [_ H].
    simpl Str.rev_onto.
    apply (IH R2 (String a pre)); [exact H | discriminate].
Qed.

Lemma no_space_last (R1 : string) :
  forall pre,
    all_chars (fun a => negb (Str.is_space a)) R1 = true -> R1 <> "" ->
    first_is Str.is_space (Str.rev_onto R1 pre) = false.
Proof.
  intros pre H Hne.
  pose proof (all_chars_last (fun a => negb (Str.is_space a)) R1 H Hne pre) as L.
  destruct (Str.rev_onto R1 pre); simpl in *; [reflexivity |].
  now apply negb_true_iff in L.
Qed.

Section Transfer.

Variable gap_ok : string -> string -> Prop.
Variable step : string -> string -> string -> string -> Prop.
Variable head : string.
Variable closed : bool.
Hypothesis Hhead : first_is Str.is_alpha head = true.
Hypothesis Htidy : tidy head closed step.
Variable q : keyword_pattern.
Hypothesis HK : wordy (kp_key q) = true.
Hypothesis Hclash : clash (kp_key q) head closed = true.

Lemma step_replacement_letter (px M sx R : string) :
  step px M sx R -> first_is Str.is_alpha R = true.
Proof.
  intros H. destruct (Htidy _ _ _ _ H) as (_ & _ & _ & _ & (more & -> & _) & _).
  now apply first_is_append.
Qed.

(** The next character of the text and of its rewriting: none, the same,
    or a letter on both sides. *)
Lemma rw_first (px sx py sy : string) :
  rewritten gap_ok step px sx py sy ->
  (sx = "" /\ sy = "") \/
  (exists a sx' sy',
      sx = String a sx' /\ sy = String a sy' /\
      rewritten gap_ok step (String a px) sx' (String a py) sy') \/
  (first_is Str.is_alpha sx = true /\ first_is Str.is_alpha sy = true).
Proof.
  intros H. destruct H as [px py | a px sx py sy Hg H | M R px sx py sy Hs H].
  - now left.
  - right. left. now exists a, sx, sy.
  - right. right. split.
    + apply first_is_append. now destruct (Htidy _ _ _ _ Hs) as (_ & HM & _).
    + apply first_is_append. exact (step_replacement_letter _ _ _ _ Hs).
Qed.

Lemma rw_nonword_forth (px sx py sy : string) :
  rewritten gap_ok step px sx py sy ->
  Re.word_first sx = false -> Re.word_first sy = false.
Proof.
  intros H Hx. destruct (rw_first _ _ _ _ H) as [[-> ->] | [(a & sx' & sy' & -> & -> & _) | [Ha _]]].
  - reflexivity.
  - exact Hx.
  - apply (first_is_impl Str.is_alpha Str.is_word sx alpha_is_word) in Ha.
    change (Re.word_first sx) with (first_is Str.is_word sx) in Hx. congruence.
Qed.

Lemma rw_nonword_back (px sx py sy : string) :
  rewritten gap_ok step px sx py sy ->
  Re.word_first sy = false -> Re.word_first sx = false.
Proof.
  intros H Hy. destruct (rw_first _ _ _ _ H) as [[-> ->] | [(a & sx' & sy' & -> & -> & _) | [_ Ha]]].
  - reflexivity.
  - exact Hy.
  - apply (first_is_impl Str.is_alpha Str.is_word sy alpha_is_word) in Ha.
    change (Re.word_first sy) with (first_is Str.is_word sy) in Hy. congruence.
Qed.

(** A class that letters belong to. *)
Lemma rw_first_with_letters (p : ascii -> bool) (px sx py sy : string) :
  (forall a, Str.is_alpha a = true -> p a = true) ->
  rewritten gap_ok step px sx py sy ->
  first_is p sy = true -> first_is p sx = true.
Proof.
  intros Hp H Hy. destruct (rw_first _ _ _ _ H) as [[-> ->] | [(a & sx' & sy' & -> & -> & _) | [Ha _]]].
  - exact Hy.
  - exact Hy.
  - exact (first_is_impl _ _ _ Hp Ha).
Qed.

(** A class that letters do not belong to. *)
Lemma rw_first_without_letters (p : ascii -> bool) (px sx py sy : string) :
  (forall a, p a = true -> Str.is_alpha a = false) ->
  rewritten gap_ok step px sx py sy ->
  first_is p sy = true ->
  exists a sx' sy',
    p a = true /\ sx = String a sx' /\ sy = String a sy' /\
    rewritten gap_ok step (String a px) sx' (String a py) sy'.
Proof.
  intros Hp H Hy. destruct (rw_first _ _ _ _ H) as [[-> ->] | [(a & sx' & sy' & -> & -> & H') | [_ Ha]]].
  - discriminate.
  - exists a, sx', sy'. now repeat split.
  - destruct sy as [| b sy]; [discriminate |]. simpl in *.
    rewrite (Hp b Hy) in Ha. discriminate.
Qed.

Lemma rw_spaces (px sx py sy : string) :
  rewritten gap_ok step px sx py sy ->
  first_is Str.is_space sx = first_is Str.is_space sy /\
  exists px' py',
    rewritten gap_ok step px' (Str.lstrip_by Str.is_space sx)
      py' (Str.lstrip_by Str.is_space sy).
Proof.
  intros H. induction H as [px py | a px sx py sy Hg H IH | M R px sx py sy Hs H IH].
  - split; [reflexivity |]. exists px, py. constructor.
  - split; [reflexivity |]. simpl. destruct (Str.is_space a).
    + exact (proj2 IH).
    + exists px, py. now constructor.
  - pose proof (step_replacement_letter _ _ _ _ Hs) as HR.
    destruct (Htidy _ _ _ _ Hs) as (_ & HM & _).
    pose proof (alpha_first_not_space _ (first_is_append _ M sx HM)) as E1.
    pose proof (alpha_first_not_space _ (first_is_append _ R sy HR)) as E2.
    split; [congruence |].
    rewrite (lstrip_nothing _ _ E1), (lstrip_nothing _ _ E2).
    exists px, py. now constructor.
Qed.

Lemma rw_closes (px sx py sy : string) :
  rewritten gap_ok step px sx py sy -> closes sy = true -> closes sx = true.
Proof.
  intros H. induction H as [px py | a px sx py sy Hg H IH | M R px sx py sy Hs H IH].
  - trivial.
  - rewrite !closes_cons. intros Hy. apply orb_true_iff in Hy.
    destruct Hy as [Hy | Hy]; [now rewrite Hy | rewrite (IH Hy); apply orb_true_r].
  - rewrite !closes_append. intros Hy. apply orb_true_iff in Hy.
    destruct (Htidy _ _ _ _ Hs) as (_ & _ & Hc & _).
    destruct Hy as [Hy | Hy]; [now rewrite (Hc Hy) | rewrite (IH Hy); apply orb_true_r].
Qed.

(** What stands behind the keyword in the rewriting stands behind it in
    the text. *)
Lemma tail_back (t : keyword_tail) (px rx py ry : string) :
  rewritten gap_ok step px rx py ry ->
  tail_ok t ry = true -> tail_ok t rx = true.
Proof.
  intros H. destruct t; cbn [tail_ok]; intros Hy.
  - apply negb_true_iff in Hy. apply negb_true_iff.
    exact (rw_nonword_back _ _ _ _ H Hy).
  - destruct (rw_spaces _ _ _ _ H) as [_ (px' & py' & H')].
    destruct (rw_first_without_letters (Ascii.eqb "(") _ _ _ _ open_not_alpha H' Hy)
      as (a & sx' & sy' & Ha & -> & _).
    exact Ha.
  - destruct (rw_spaces _ _ _ _ H) as [E (px' & py' & H')].
    apply andb_true_iff in Hy. destruct Hy as [Hs Hw].
    rewrite E, Hs. simpl.
    exact (rw_first_with_letters Str.is_word _ _ _ _ alpha_is_word H' Hw).
  - destruct (rw_spaces _ _ _ _ H) as [E (px' & py' & H')].
    apply andb_true_iff in Hy. destruct Hy as [Hs Hd].
    rewrite E, Hs. simpl.
    destruct (rw_first_without_letters Str.is_digit _ _ _ _ digit_not_alpha H' Hd)
      as (a & sx' & sy' & Ha & -> & _).
    exact Ha.
  - destruct (rw_spaces _ _ _ _ H) as [_ (px' & py' & H')].
    destruct (Str.lstrip_by Str.is_space ry) as [| b r] eqn:Ey; [discriminate |].
    apply andb_true_iff in Hy. destruct Hy as [Hb Hbody].
    assert (Hf : first_is (Ascii.eqb "(") (String b r) = true) by exact Hb.
    destruct (rw_first_without_letters (Ascii.eqb "(") _ _ _ _ open_not_alpha H' Hf)
      as (a & sx' & sy' & Ha & -> & Er & H'').
    injection Er as -> ->. rewrite Ha. simpl.
    unfold storage_body in *. apply andb_true_iff in Hbody. destruct Hbody as [H1 H2].
    rewrite (rw_first_with_letters (Re.none_of ")") _ _ _ _ alpha_not_close H'' H1).
    rewrite (rw_closes _ _ _ _ H'' H2). reflexivity.
Qed.

(** Behind a word character the keyword runs through kept characters
    only. *)
Lemma key_back (K : string) :
  all_chars Str.is_word K = true ->
  forall px sx py sy m ry,
    rewritten gap_ok step px sx py sy ->
    Re.word_first px = true ->
    ci_prefix K sy = PMatch m ry ->
    exists rx,
      ci_prefix K sx = PMatch m rx /\
      rewritten gap_ok step (Str.rev_onto m px) rx (Str.rev_onto m py) ry.
Proof.
  induction K as [| k K IH]; intros HKw px sx py sy m ry H Hpx E.
  - simpl in E. injection E as <- <-. exists sx. split; [reflexivity | exact H].
  - simpl in HKw. apply andb_true_iff in HKw. destruct HKw as [Hk HKw].
    destruct H as [px py | a px sx py sy Hg H | M R px sx py sy Hs H].
    + discriminate.
    + simpl in E.
      destruct (Ascii.eqb (Str.lower_chr a) (Str.lower_chr k)) eqn:Ea; [| discriminate].
      destruct (ci_prefix K sy) as [m1 r1 | |] eqn:E1; try discriminate.
      injection E as <- <-.
      assert (Ha : Re.word_first (String a px) = true).
      { simpl. now rewrite (same_letter_class Str.is_word a k is_word_lower Ea). }
      destruct (IH HKw _ _ _ _ _ _ H Ha E1) as (rx & Ex & Hrw).
      exists rx. simpl. rewrite Ea, Ex. split; [reflexivity | exact Hrw].
    + destruct (Htidy _ _ _ _ Hs) as (Hp & _). congruence.
Qed.

Lemma lead_back (l : keyword_lead) (px py : string) :
  lead_kept px py -> lead_ok l py = true -> lead_ok l px = true.
Proof.
  intros [H1 H2]. destruct l; simpl.
  - intros H. apply negb_true_iff in H. apply negb_true_iff. now apply H1.
  - exact H2.
Qed.

(** A keyword at a kept character stands at the same place in the text. *)
Lemma hit_back (a : ascii) (px sx py sy : string) :
  rewritten gap_ok step (String a px) sx (String a py) sy ->
  lead_kept px py ->
  kw_hit q py (String a sy) = true -> kw_hit q px (String a sx) = true.
Proof.
  intros H Hl Hy. unfold kw_hit in *.
  apply andb_true_iff in Hy. destruct Hy as [Hlead Hy].
  rewrite (lead_back _ _ _ Hl Hlead). simpl andb.
  destruct (wordy_cons _ HK) as (k & K1 & EK & Hk & HK1). rewrite EK in *.
  simpl in Hy |- *.
  destruct (Ascii.eqb (Str.lower_chr a) (Str.lower_chr k)) eqn:Ea; [| discriminate].
  destruct (ci_prefix K1 sy) as [m1 r1 | |] eqn:E1; try discriminate.
  assert (Ha : Re.word_first (String a px) = true).
  { simpl. rewrite (same_letter_class Str.is_word a k is_word_lower Ea).
    now apply alpha_is_word. }
  destruct (key_back K1 HK1 _ _ _ _ _ _ H Ha E1) as (rx & Ex & Hrw).
  rewrite Ex. exact (tail_back _ _ _ _ _ Hrw Hy).
Qed.

(** No keyword starts inside a replacement. *)
Lemma no_hit_inside (px M sx R py sy R1 R2 : string) :
  step px M sx R ->
  rewritten gap_ok step (Str.rev_onto M px) sx (Str.rev_onto R py) sy ->
  R = R1 ++ R2 -> R2 <> "" ->
  kw_hit q (Str.rev_onto R1 py) (R2 ++ sy) = false.
Proof.
  intros Hs Hrw ER Hne.
  destruct (Htidy _ _ _ _ Hs) as (_ & _ & _ & _ & (more & EH & Hcl) & Hsp & Ht).
  unfold kw_hit. destruct R1 as [| r R1].
  - simpl in ER. subst R2. rewrite EH, append_assoc.
    unfold clash in Hclash.
    pose proof (ci_prefix_append (kp_key q) head (more ++ sy)) as A.
    destruct (ci_prefix (kp_key q) head) eqn:E; [discriminate | |].
    + rewrite A. apply andb_false_r.
    + destruct (Hcl Hclash) as [-> Hsx]. simpl.
      pose proof (rw_nonword_forth _ _ _ _ Hrw Hsx) as Hsy.
      destruct (wordy_cons _ HK) as (k & K1 & EK & Hk & HK1).
      assert (HKw : all_chars Str.is_word (kp_key q) = true).
      { rewrite EK. simpl. now rewrite (alpha_is_word k Hk). }
      pose proof (ci_prefix_short_then _ HKw head sy E Hsy) as B.
      destruct (ci_prefix (kp_key q) (head ++ sy)); [contradiction | |]; apply andb_false_r.
  - assert (Hne1 : String r R1 <> "") by discriminate.
    rewrite ER in Ht, Hsp.
    destruct (tight_split (String r R1) R2 py Ht Hne1) as [Hw | Ha].
    + assert (Hl : lead_ok (kp_lead q) (Str.rev_onto (String r R1) py) = false).
      { destruct (kp_lead q); cbn [lead_ok].
        - change (Re.word_first (Str.rev_onto (String r R1) py))
            with (first_is Str.is_word (Str.rev_onto (String r R1) py)).
          now rewrite Hw.
        - apply no_space_last; [| exact Hne1].
          rewrite all_chars_append in Hsp. apply andb_true_iff in Hsp. tauto. }
      now rewrite Hl.
    + assert (Ha' : first_is Str.is_alpha (R2 ++ sy) = false).
      { destruct R2; [congruence | exact Ha]. }
      pose proof (wordy_no_match_here _ _ HK Ha') as B.
      destruct (ci_prefix (kp_key q) (R2 ++ sy)); [contradiction | |]; apply andb_false_r.
Qed.

Lemma occurs_inside (R : string) :
  forall py sy,
    occurs_from q py (R ++ sy) = true ->
    (exists R1 R2,
        R = R1 ++ R2 /\ R2 <> "" /\ kw_hit q (Str.rev_onto R1 py) (R2 ++ sy) = true) \/
    occurs_from q (Str.rev_onto R py) sy = true.
Proof.
  induction R as [| r R IH]; intros py sy H; [now right |].
  simpl in H. apply orb_true_iff in H. destruct H as [H | H].
  - left. exists "", (String r R). repeat split; [discriminate | exact H].
  - destruct (IH _ _ H) as [(R1 & R2 & -> & Hne & Hh) | Ho].
    + left. exists (String r R1), R2. now repeat split.
    + now right.
Qed.

Lemma lead_kept_after (px M sx R py : string) :
  step px M sx R -> lead_kept (Str.rev_onto M px) (Str.rev_onto R py).
Proof.
  intros Hs. pose proof (step_replacement_letter _ _ _ _ Hs) as HR.
  destruct (Htidy _ _ _ _ Hs) as (_ & HM & _ & Hlast & _ & Hsp & _).
  assert (HRne : R <> "") by (destruct R; [discriminate | discriminate]).
  assert (HMne : M <> "") by (destruct M; [discriminate | discriminate]).
  split.
  - change (Re.word_first ?x) with (first_is Str.is_word x) in *.
    rewrite (first_is_rev_onto _ R py), (first_is_rev_onto _ M px).
    destruct R; [congruence |]. destruct M; [congruence |]. exact Hlast.
  - rewrite (no_space_last R py Hsp HRne). discriminate.
Qed.

(** A keyword that stands in the rewriting stands in the text, at a
    position where no match of the substitution starts. *)
Lemma keyword_back (px sx py sy : string) :
  rewritten gap_ok step px sx py sy ->
  lead_kept px py ->
  occurs_from q py sy = true ->
  exists u v,
    sx = u ++ v /\ kw_hit q (Str.rev_onto u px) v = true /\
    gap_ok (Str.rev_onto u px) v.
Proof.
  intros H. induction H as [px py | a px sx py sy Hg H IH | M R px sx py sy Hs H IH];
    intros Hl Ho.
  - simpl in Ho. rewrite orb_false_r in Ho. unfold kw_hit in Ho.
    destruct (wordy_cons _ HK) as (k & K1 & EK & _). rewrite EK in Ho. simpl in Ho.
    rewrite andb_false_r in Ho. discriminate.
  - simpl in Ho. apply orb_true_iff in Ho. destruct Ho as [Ho | Ho].
    + exists "", (String a sx). repeat split; [| exact Hg].
      exact (hit_back _ _ _ _ _ H Hl Ho).
    + destruct (IH (conj (fun E => E) (fun E => E)) Ho) as (u & v & -> & Hh & Hgap).
      exists (String a u), v. now repeat split.
  - destruct (occurs_inside _ _ _ Ho) as [(R1 & R2 & ER & Hne & Hh) | Ho'].
    + rewrite (no_hit_inside _ _ _ _ _ _ _ _ Hs H ER Hne) in Hh. discriminate.
    + destruct (IH (lead_kept_after _ _ _ _ py Hs) Ho') as (u & v & -> & Hh & Hgap).
      exists (M ++ u), v. rewrite rev_onto_append, append_assoc. now repeat split.
Qed.

End Transfer.

(** ** A substitution as a rewriting *)

Lemma scan_skip (r : Re.regex) (w : string) :
  forall (gap pre rest : string),
    Re.scan r (String.length w) gap pre (w ++ rest)
    = Re.scan r 0 gap (Str.rev_onto w pre) rest.
Proof.
  induction w as [| a w IH]; intros gap pre rest; simpl.
  - destruct rest; reflexivity.
  - apply IH.
Qed.

Lemma scan_rewritten (r : Re.regex) (repl : Re.rmatch -> string) :
  never_empty r ->
  forall (n : nat) (s : string),
    String.length s <= n ->
    forall gap pre py : string,
      exists y : string,
        Re.spliced repl (Re.scan r 0 gap pre s) = Str.rev gap ++ y /\
        rewritten (gap_of r) (step_of r repl) pre s py y.
Proof.
  intros Hne. induction n as [| n IH]; intros s Hlen gap pre py.
  - destruct s as [| a s]; [| simpl in Hlen; lia].
    simpl. destruct (Re.match_at r false pre "") as [m |] eqn:E.
    + destruct (match_at_prefix _ _ _ _ _ E) as [[s' Hs] _].
      pose proof (Hne _ _ _ _ E) as Hm.
      destruct (Re.m_text m); [congruence | discriminate].
    + exists "". split; [| constructor].
      unfold Re.spliced. simpl. now rewrite append_nil_r.
  - destruct s as [| a s].
    + simpl. destruct (Re.match_at r false pre "") as [m |] eqn:E.
      * destruct (match_at_prefix _ _ _ _ _ E) as [[s' Hs] _].
        pose proof (Hne _ _ _ _ E) as Hm.
        destruct (Re.m_text m); [congruence | discriminate].
      * exists "". split; [| constructor].
        unfold Re.spliced. simpl. now rewrite append_nil_r.
    + simpl in Hlen. rewrite scan_step.
      destruct (Re.match_at r false pre (String a s)) as [m |] eqn:E.
      * destruct (match_at_prefix _ _ _ _ _ E) as [[rest Hs] _].
        pose proof (Hne _ _ _ _ E) as Hm.
        destruct (Re.m_text m) as [| b w] eqn:Em; [congruence |].
        simpl in Hs. injection Hs as <- ->.
        simpl String.length. cbv iota. rewrite scan_skip.
        assert (Hl : String.length rest <= n).
        { rewrite length_append in Hlen. lia. }
        destruct (IH rest Hl "" (Str.rev_onto w (String a pre))
                    (Str.rev_onto (repl m) py)) as (y & Hy & Hrw).
        exists (repl m ++ y). split.
        -- rewrite spliced_seg_cons. cbn [fst snd]. rewrite Hy. reflexivity.
        -- refine (@rw_repl (gap_of r) (step_of r repl) (String a w) (repl m)
                     pre rest py y _ Hrw).
           exists m. repeat split; assumption.
      * assert (Hl : String.length s <= n) by lia.
        destruct (IH s Hl (String a gap) (String a pre) (String a py)) as (y & Hy & Hrw).
        exists (String a y). split.
        -- rewrite Hy. unfold Str.rev. simpl.
           rewrite (rev_onto_acc gap (String a "")), append_assoc. reflexivity.
        -- constructor; [exact E | exact Hrw].
Qed.

Lemma sub_with_rewritten (r : Re.regex) (repl : Re.rmatch -> string) (x : string) :
  never_empty r ->
  rewritten (gap_of r) (step_of r repl) "" x "" (Re.sub_with r repl x).
Proof.
  intros Hne.
  destruct (scan_rewritten r repl Hne (String.length x) x (le_n _) "" "" "")
    as (y & Hy & Hrw).
  unfold Re.sub_with, Re.segments. rewrite Hy. exact Hrw.
Qed.

(** ** A keyword pattern that stays away, and one that is used up *)

Lemma occurs_at (q : keyword_pattern) (u v : string) :
  kw_hit q (Str.rev_onto u "") v = true -> occurs_from q "" (u ++ v) = true.
Proof. intros H. apply occurs_from_skip. now apply occurs_from_hit. Qed.

Lemma substitution_keeps_away (r : Re.regex) (repl : Re.rmatch -> string)
  (head : string) (closed : bool) (q : keyword_pattern) (x : string) :
  never_empty r ->
  first_is Str.is_alpha head = true ->
  tidy head closed (step_of r repl) ->
  wordy (kp_key q) = true ->
  clash (kp_key q) head closed = true ->
  no_match (kp_regex q) x = true ->
  no_match (kp_regex q) (Re.sub_with r repl x) = true.
Proof.
  intros Hne Hh Ht HK Hc Hx.
  rewrite (no_match_keyword q x HK) in Hx.
  rewrite (no_match_keyword q _ HK).
  apply negb_true_iff in Hx. apply negb_true_iff.
  destruct (occurs_from q "" (Re.sub_with r repl x)) eqn:E; [| reflexivity].
  destruct (keyword_back (gap_of r) (step_of r repl) head closed Hh Ht q HK Hc
              "" x "" _ (sub_with_rewritten r repl x Hne)
              (conj (fun e => e) (fun e => e)) E)
    as (u & v & Hs & Hhit & _).
  subst x. rewrite (occurs_at q u v Hhit) in Hx. discriminate.
Qed.

Lemma substitution_uses_up (repl : Re.rmatch -> string)
  (head : string) (closed : bool) (q : keyword_pattern) (x : string) :
  never_empty (kp_regex q) ->
  first_is Str.is_alpha head = true ->
  tidy head closed (step_of (kp_regex q) repl) ->
  wordy (kp_key q) = true ->
  clash (kp_key q) head closed = true ->
  kp_lead q = LeadBoundary ->
  no_match (kp_regex q) (Re.sub_with (kp_regex q) repl x) = true.
Proof.
  intros Hne Hh Ht HK Hc Hl.
  rewrite (no_match_keyword q _ HK).
  apply negb_true_iff.
  destruct (occurs_from q "" (Re.sub_with (kp_regex q) repl x)) eqn:E; [| reflexivity].
  destruct (keyword_back (gap_of (kp_regex q)) (step_of (kp_regex q) repl) head closed
              Hh Ht q HK Hc
              "" x "" _ (sub_with_rewritten (kp_regex q) repl x Hne)
              (conj (fun e => e) (fun e => e)) E)
    as (u & v & Hs & Hhit & Hgap).
  unfold gap_of in Hgap.
  pose proof (kp_match_at q (Str.rev_onto u "") v HK) as F.
  rewrite Hgap in F. unfold kp_start in F. rewrite Hl, Hhit in F. discriminate.
Qed.

(** ** The matches of the rules *)

Lemma append_inv_head (u a b : string) : u ++ a = u ++ b -> a = b.
Proof. induction u as [| c u IH]; simpl; [trivial |]. intros H. injection H as H. auto. Qed.

Lemma rev_last (u : string) (c : ascii) :
  Str.rev (u ++ String c "") = String c (Str.rev u).
Proof. unfold Str.rev. now rewrite rev_onto_append. Qed.

Lemma finish_text (ma : bool) (px w sx : string) (c : Re.caps) (m : Re.rmatch) :
  Re.finish_match ma px (Str.rev_onto w px) sx c = Some m ->
  m = {| Re.m_text := w; Re.m_caps := c |}.
Proof.
  unfold Re.finish_match. destruct (ma && _); [discriminate |].
  rewrite consumed_rev_onto. now intros [= <-].
Qed.

Lemma ci_prefix_first (K s K' rest : string) :
  first_is Str.is_alpha K = true ->
  ci_prefix K s = PMatch K' rest ->
  first_is Str.is_alpha s = true /\ first_is Str.is_alpha K' = true.
Proof.
  destruct K as [| k K]; [discriminate |]. simpl. intros Hk H.
  destruct s as [| y s]; [discriminate |].
  destruct (Ascii.eqb (Str.lower_chr y) (Str.lower_chr k)) eqn:E; [| discriminate].
  destruct (ci_prefix K s); try discriminate. injection H as <- <-.
  simpl. rewrite (same_letter_class Str.is_alpha y k is_alpha_lower E). now split.
Qed.

(** A pattern that starts with a word boundary and a keyword. *)
Lemma keyword_match (K : string) (tl : list Re.regex) (ma : bool)
  (px s : string) (m : Re.rmatch) :
  first_is Str.is_alpha K = true ->
  Re.match_at (Re.seqs (Re.WordB :: Re.lit_i K :: tl)) ma px s = Some m ->
  Re.word_first px = false /\
  exists K' rest,
    ci_prefix K s = PMatch K' rest /\
    first_is Str.is_alpha K' = true /\
    s = K' ++ rest /\
    Re.exec (Re.seqs tl) (Str.rev_onto K' px) rest [] (Re.finish_match ma px) = Some m.
Proof.
  intros HK. unfold Re.match_at. cbn [Re.seqs].
  change (Re.exec (Re.Seq Re.WordB ?r) px s [] ?k)
    with (if Re.at_boundary px s then Re.exec r px s [] k else None).
  destruct (Re.at_boundary px s) eqn:Eb; [| discriminate].
  change (Re.exec (Re.Seq (Re.lit_i K) ?r) px s [] ?k)
    with (Re.exec (Re.lit_i K) px s [] (fun p s c => Re.exec r p s c k)).
  rewrite exec_lit_i.
  destruct (ci_prefix K s) as [K' rest | |] eqn:E; try discriminate.
  intros H. destruct (ci_prefix_first _ _ _ _ HK E) as [Hs HK'].
  split.
  - unfold Re.at_boundary in Eb.
    assert (Hw : Re.word_first s = true)
      by exact (first_is_impl _ _ _ alpha_is_word Hs).
    rewrite Hw in Eb. destruct (Re.word_first px); [discriminate | reflexivity].
  - exists K', rest. repeat split; try assumption.
    exact (proj1 (ci_prefix_match _ _ _ _ E)).
Qed.

Lemma keyword_never_empty (K : string) (tl : list Re.regex) :
  first_is Str.is_alpha K = true ->
  never_empty (Re.seqs (Re.WordB :: Re.lit_i K :: tl)).
Proof.
  intros HK ma px s m H.
  destruct (keyword_match K tl ma px s m HK H) as (_ & K' & rest & _ & HK' & _ & Hex).
  destruct (exec_inv (fun _ _ => true) _ (Re.seqs tl) (groups_consume_anything _)
              (fun _ => true) _ _ _ _ _ (consumes_anything _) Hex)
    as (w & s' & added & _ & _ & _ & Hk).
  rewrite <- rev_onto_append in Hk. apply finish_text in Hk. subst m. simpl.
  destruct K'; [discriminate | discriminate].
Qed.

(** The parts of a sequence, one at a time. *)
Lemma exec_chr_then (R : Type) (c0 : ascii) (r : Re.regex) (p s : string)
  (c : Re.caps) (k : Re.cont R) (x : R) :
  Re.exec (Re.Seq (Re.chr c0) r) p s c k = Some x ->
  exists s', s = String c0 s' /\ Re.exec r (String c0 p) s' c k = Some x.
Proof.
  unfold Re.chr. cbn [Re.exec]. destruct s as [| a s]; [discriminate |].
  destruct (Ascii.eqb c0 a) eqn:E; [| discriminate].
  apply Ascii.eqb_eq in E. subst a. intros H. now exists s.
Qed.

Lemma exec_star_then (R : Type) (q : ascii -> bool) (r : Re.regex) (p s : string)
  (c : Re.caps) (k : Re.cont R) (x : R) :
  Re.exec (Re.Seq (Re.Star q) r) p s c k = Some x ->
  exists w s',
    s = w ++ s' /\ all_chars q w = true /\
    Re.exec r (Str.rev_onto w p) s' c k = Some x.
Proof.
  cbn [Re.exec]. intros H. apply star_exec_inv in H.
  destruct H as (w & s' & Hs & Hw & H). now exists w, s'.
Qed.

Lemma exec_group_then (R : Type) (n : nat) (q : ascii -> bool) (r : Re.regex)
  (p s : string) (c : Re.caps) (k : Re.cont R) (x : R) :
  Re.exec (Re.Seq (Re.Grp n (Re.plus q)) r) p s c k = Some x ->
  exists g s',
    s = g ++ s' /\ all_chars q g = true /\
    Re.exec r (Str.rev_onto g p) s' ((n, g) :: c) k = Some x.
Proof.
  change (Re.exec (Re.Seq (Re.Grp n (Re.plus q)) r) p s c k)
    with (Re.exec (Re.Grp n (Re.plus q)) p s c
            (fun p1 s1 c1 => Re.exec r p1 s1 c1 k)).
  intros H. apply exec_group_plus in H.
  destruct H as (a & w & s' & Hs & Hw & H). now exists (String a w), s'.
Qed.

(** *** A whole word *)

Lemma whole_word_match (K : string) (ma : bool) (px s : string) (m : Re.rmatch) :
  first_is Str.is_alpha K = true ->
  Re.match_at (SQLConverter.whole_word K) ma px s = Some m ->
  Re.word_first px = false /\
  exists K' rest,
    ci_prefix K s = PMatch K' rest /\
    first_is Str.is_alpha K' = true /\
    s = K' ++ rest /\
    m = {| Re.m_text := K'; Re.m_caps := [] |} /\
    Re.at_boundary (Str.rev_onto K' px) rest = true.
Proof.
  intros HK H. unfold SQLConverter.whole_word in H.
  destruct (keyword_match K [Re.WordB] ma px s m HK H)
    as (Hpx & K' & rest & E & HK' & Hs & Hex).
  split; [exact Hpx |]. exists K', rest. repeat split; try assumption.
  - cbn [Re.seqs Re.exec] in Hex.
    destruct (Re.at_boundary (Str.rev_onto K' px) rest); [| discriminate].
    now apply finish_text in Hex.
  - cbn [Re.seqs Re.exec] in Hex.
    destruct (Re.at_boundary (Str.rev_onto K' px) rest); [reflexivity | discriminate].
Qed.

Lemma tidy_whole_word (K R0 : string) (closed : bool) (repl : Re.rmatch -> string) :
  first_is Str.is_alpha K = true ->
  (closed = true -> all_chars Str.is_word K = true) ->
  (forall m, repl m = R0) ->
  closes R0 = false ->
  Re.word_first (Str.rev R0) = true ->
  all_chars (fun a => negb (Str.is_space a)) R0 = true ->
  tight R0 = true ->
  tidy R0 closed (step_of (SQLConverter.whole_word K) repl).
Proof.
  intros HK Hcl Hrepl Hc Hlast Hsp Ht px M sx R (m & Hm & HM & HR).
  rewrite Hrepl in HR. subst R.
  destruct (whole_word_match K false px _ m HK Hm)
    as (Hpx & K' & rest & E & HK' & Hs & Em & Hb).
  subst m. simpl in HM. subst K'. apply append_inv_head in Hs. subst rest.
  repeat split; try assumption.
  - congruence.
  - congruence.
  - exists "". split; [now rewrite append_nil_r |].
    intros ->. split; [reflexivity |].
    assert (Hw : Re.word_first (Str.rev_onto M px) = true).
    { change (Re.word_first ?x) with (first_is Str.is_word x).
      apply all_chars_last.
      - exact (ci_prefix_class Str.is_word K is_word_lower (Hcl eq_refl) _ _ _ E).
      - destruct M; [discriminate | discriminate]. }
    unfold Re.at_boundary in Hb. rewrite Hw in Hb.
    destruct (Re.word_first sx); [discriminate | reflexivity].
Qed.

(** *** [NVL] and its parenthesis *)

Lemma tidy_keyword_paren (K R0 : string) (repl : Re.rmatch -> string) :
  first_is Str.is_alpha K = true ->
  (forall m, repl m = R0) ->
  closes R0 = false ->
  all_chars (fun a => negb (Str.is_space a)) R0 = true ->
  tight R0 = true ->
  tidy R0 false
    (step_of (Re.seqs [Re.WordB; Re.lit_i K; Re.spaces0; Re.chr "("]) repl).
Proof.
  intros HK Hrepl Hc Hsp Ht px M sx R (m & Hm & HM & HR).
  rewrite Hrepl in HR. subst R.
  destruct (keyword_match K [Re.spaces0; Re.chr "("] false px _ m HK Hm)
    as (Hpx & K' & rest & E & HK' & Hs & Hex).
  cbn [Re.seqs] in Hex. unfold Re.spaces0 in Hex.
  apply exec_star_then in Hex. destruct Hex as (w & s1 & Hr & Hw & Hex).
  apply exec_chr_then in Hex. destruct Hex as (s2 & Hs1 & Hex).
  cbn [Re.exec] in Hex.
  change (String "(" (Str.rev_onto w (Str.rev_onto K' px)))
    with (Str.rev_onto (String "(" "") (Str.rev_onto w (Str.rev_onto K' px))) in Hex.
  rewrite <- !rev_onto_append in Hex. apply finish_text in Hex. subst m.
  simpl in HM. subst M.
  repeat split; try assumption.
  - rewrite ?append_assoc. now apply first_is_append.
  - congruence.
  - intros _. rewrite <- ?append_assoc. rewrite rev_last. reflexivity.
  - exists "". split; [now rewrite append_nil_r | discriminate].
Qed.

(** *** [NUMBER(p,s)] *)

Lemma tight_no_letters (v : string) :
  all_chars (fun a => negb (Str.is_alpha a)) v = true -> tight v = true.
Proof.
  induction v as [| a v IH]; [reflexivity |]. intros H.
  simpl in H. apply andb_true_iff in H. destruct H as [_ H].
  destruct v as [| b v]; [reflexivity |].
  change (tight (String a (String b v)))
    with ((Str.is_word a || negb (Str.is_alpha b)) && tight (String b v)).
  rewrite (IH H). pose proof H as H'. simpl in H'.
  apply andb_true_iff in H'. destruct H' as [Hb _]. rewrite Hb.
  now rewrite orb_true_r.
Qed.

Lemma tight_then_no_letters (u v : string) :
  tight u = true ->
  all_chars (fun a => negb (Str.is_alpha a)) v = true ->
  tight (u ++ v) = true.
Proof.
  intros Hu Hv. induction u as [| a u IH]; [now apply tight_no_letters |].
  destruct u as [| b u].
  - simpl. destruct v as [| c v]; [reflexivity |].
    rewrite (tight_no_letters _ Hv). simpl in Hv.
    apply andb_true_iff in Hv. destruct Hv as [Hc _]. rewrite Hc.
    now rewrite orb_true_r.
  - change (tight (String a (String b u))) with
      ((Str.is_word a || negb (Str.is_alpha b)) && tight (String b u)) in Hu.
    apply andb_true_iff in Hu. destruct Hu as [Hab Hu].
    change (tight (String a (String b u) ++ v)) with
      ((Str.is_word a || negb (Str.is_alpha b)) && tight (String b u ++ v)).
    now rewrite Hab, (IH Hu).
Qed.

Lemma digits_no_letters (g : string) :
  all_chars Str.is_digit g = true ->
  all_chars (fun a => negb (Str.is_alpha a)) g = true.
Proof.
  apply all_chars_impl. intros a H. now rewrite (digit_not_alpha a H).
Qed.

Lemma digits_no_spaces (g : string) :
  all_chars Str.is_digit g = true ->
  all_chars (fun a => negb (Str.is_space a)) g = true.
Proof.
  apply all_chars_impl. intros a H. apply digit_is_word in H.
  destruct (Str.is_space a) eqn:E; [| reflexivity].
  rewrite (space_not_word a E) in H. discriminate.
Qed.

Lemma expand_decimal (m : Re.rmatch) :
  Re.expand (Re.template_of decimal_pattern "DECIMAL(\1,\2)") m
  = "DECIMAL(" ++ Re.group_text m 1 ++ "," ++ Re.group_text m 2 ++ ")".
Proof.
  let t := eval vm_compute in (Re.template_of decimal_pattern "DECIMAL(\1,\2)") in
  change (Re.template_of decimal_pattern "DECIMAL(\1,\2)") with t.
  unfold Re.expand. cbn [List.map Re.expand_item String.concat].
  cbn [append]. reflexivity.
Qed.

Lemma tidy_decimal :
  tidy "DECIMAL(" false
    (step_of decimal_pattern (Re.expand (Re.template_of decimal_pattern "DECIMAL(\1,\2)"))).
Proof.
  intros px M sx R (m & Hm & HM & HR).
  rewrite expand_decimal in HR.
  assert (HK : first_is Str.is_alpha "NUMBER(" = true) by reflexivity.
  destruct (keyword_match "NUMBER("
              [Re.Grp 1 Re.digits1; Re.chr ","; Re.spaces0; Re.Grp 2 Re.digits1; Re.chr ")"]
              false px _ m HK Hm)
    as (Hpx & K' & rest & E & HK' & Hs & Hex).
  cbn [Re.seqs] in Hex. unfold Re.digits1, Re.spaces0 in Hex.
  apply exec_group_then in Hex. destruct Hex as (g1 & s1 & Hr1 & Hg1 & Hex).
  apply exec_chr_then in Hex. destruct Hex as (s2 & Hr2 & Hex).
  apply exec_star_then in Hex. destruct Hex as (w & s3 & Hr3 & Hw & Hex).
  apply exec_group_then in Hex. destruct Hex as (g2 & s4 & Hr4 & Hg2 & Hex).
  apply exec_chr_then in Hex. destruct Hex as (s5 & Hr5 & Hex).
  cbn [Re.exec] in Hex.
  change (String ")" ?p) with (Str.rev_onto (String ")" "") p) in Hex.
  change (String "," ?p) with (Str.rev_onto (String "," "") p) in Hex.
  rewrite <- !rev_onto_append in Hex. apply finish_text in Hex. subst m.
  cbn [Re.m_text] in HM. unfold Re.group_text, Re.group in HR.
  cbn [Re.cap_get Re.m_caps Nat.eqb] in HR.
  assert (HMc : closes M = true).
  { subst M. rewrite !closes_append. change (closes ")") with true.
    now rewrite !orb_true_r. }
  assert (HMl : Re.word_first (Str.rev M) = false).
  { subst M. rewrite <- ?append_assoc. now rewrite rev_last. }
  repeat split.
  - exact Hpx.
  - subst M. rewrite ?append_assoc. now apply first_is_append.
  - intros _. exact HMc.
  - intros _. exact HMl.
  - exists (g1 ++ "," ++ g2 ++ ")"). split; [exact HR | discriminate].
  - subst R. change ("DECIMAL(" ++ g1 ++ "," ++ g2 ++ ")")
      with ("DECIMAL(" ++ (g1 ++ "," ++ (g2 ++ ")"))).
    rewrite !all_chars_append. rewrite (digits_no_spaces g1 Hg1), (digits_no_spaces g2 Hg2).
    reflexivity.
  - subst R. apply (tight_then_no_letters "DECIMAL(" (g1 ++ "," ++ g2 ++ ")")); [reflexivity |].
    rewrite !all_chars_append.
    rewrite (digits_no_letters g1 Hg1), (digits_no_letters g2 Hg2). reflexivity.
Qed.

(** ** The rules of the syntax rewriter, one by one *)

Lemma apply_rule_sub (x : string) (r : Re.regex) (R0 : string) :
  SQLConverter.apply_rule x (r, R0)
  = Re.sub_with r (Re.expand (Re.template_of r R0)) x.
Proof. reflexivity. Qed.

Lemma word_rule_tidy (K R0 : string) (closed : bool) :
  (forall m, Re.expand (Re.template_of (SQLConverter.whole_word K) R0) m = R0) ->
  word_rule_ok K R0 closed = true ->
  first_is Str.is_alpha K = true /\
  first_is Str.is_alpha R0 = true /\
  tidy R0 closed
    (step_of (SQLConverter.whole_word K)
       (Re.expand (Re.template_of (SQLConverter.whole_word K) R0))).
Proof.
  intros Hrepl H. unfold word_rule_ok in H.
  repeat (apply andb_true_iff in H; destruct H as [H ?]).
  split; [assumption |]. split; [assumption |].
  apply tidy_whole_word; try assumption.
  - intros ->. assumption.
  - now apply negb_true_iff.
Qed.

Lemma word_rule_keeps (K R0 : string) (closed : bool) (q : keyword_pattern) :
  (forall m, Re.expand (Re.template_of (SQLConverter.whole_word K) R0) m = R0) ->
  word_rule_ok K R0 closed = true ->
  stays_away R0 closed q = true ->
  forall x : string,
    no_match (kp_regex q) x = true ->
    no_match (kp_regex q) (SQLConverter.apply_rule x (SQLConverter.whole_word K, R0)) = true.
Proof.
  intros Hrepl Hok Hq x Hx. rewrite apply_rule_sub.
  destruct (word_rule_tidy K R0 closed Hrepl Hok) as (HK & HR & Ht).
  unfold stays_away in Hq. apply andb_true_iff in Hq. destruct Hq as [Hw Hc].
  apply (substitution_keeps_away _ _ R0 closed q x); try assumption.
  apply (keyword_never_empty K [Re.WordB] HK).
Qed.

Lemma word_rule_uses_up (K R0 : string) (x : string) :
  (forall m, Re.expand (Re.template_of (SQLConverter.whole_word K) R0) m = R0) ->
  word_rule_ok K R0 true = true ->
  stays_away R0 true (word_pattern K) = true ->
  no_match (kp_regex (word_pattern K))
    (SQLConverter.apply_rule x (SQLConverter.whole_word K, R0)) = true.
Proof.
  intros Hrepl Hok Hq. rewrite apply_rule_sub.
  destruct (word_rule_tidy K R0 true Hrepl Hok) as (HK & HR & Ht).
  unfold stays_away in Hq. apply andb_true_iff in Hq. destruct Hq as [Hw Hc].
  apply (substitution_uses_up _ R0 true (word_pattern K) x); try assumption.
  - apply (keyword_never_empty K [Re.WordB] HK).
  - reflexivity.
Qed.

Lemma nvl_rule_tidy :
  tidy "COALESCE(" false
    (step_of (Re.seqs [Re.WordB; Re.lit_i "NVL"; Re.spaces0; Re.chr "("])
       (Re.expand
          (Re.template_of (Re.seqs [Re.WordB; Re.lit_i "NVL"; Re.spaces0; Re.chr "("])
             "COALESCE("))).
Proof.
  apply (tidy_keyword_paren "NVL" "COALESCE("); try reflexivity.
Qed.

Lemma nvl_rule_keeps (q : keyword_pattern) :
  stays_away "COALESCE(" false q = true ->
  forall x : string,
    no_match (kp_regex q) x = true ->
    no_match (kp_regex q)
      (SQLConverter.apply_rule x
         (Re.seqs [Re.WordB; Re.lit_i "NVL"; Re.spaces0; Re.chr "("], "COALESCE(")) = true.
Proof.
  intros Hq x Hx. rewrite apply_rule_sub.
  unfold stays_away in Hq. apply andb_true_iff in Hq. destruct Hq as [Hw Hc].
  apply (substitution_keeps_away _ _ "COALESCE(" false q x); try assumption.
  - apply (keyword_never_empty "NVL" [Re.spaces0; Re.chr "("]). reflexivity.
  - reflexivity.
  - exact nvl_rule_tidy.
Qed.

Lemma nvl_rule_uses_up (x : string) :
  no_match (kp_regex nvl_pattern)
    (SQLConverter.apply_rule x
       (Re.seqs [Re.WordB; Re.lit_i "NVL"; Re.spaces0; Re.chr "("], "COALESCE(")) = true.
Proof.
  rewrite apply_rule_sub.
  apply (substitution_uses_up _ "COALESCE(" false nvl_pattern x); try reflexivity.
  - apply (keyword_never_empty "NVL" [Re.spaces0; Re.chr "("]). reflexivity.
  - exact nvl_rule_tidy.
Qed.

Lemma decimal_rule_keeps (q : keyword_pattern) :
  stays_away "DECIMAL(" false q = true ->
  forall x : string,
    no_match (kp_regex q) x = true ->
    no_match (kp_regex q)
      (SQLConverter.apply_rule x
         (Re.seqs [Re.WordB; Re.lit_i "NUMBER("; Re.Grp 1 Re.digits1; Re.chr ",";
                   Re.spaces0; Re.Grp 2 Re.digits1; Re.chr ")"],
          "DECIMAL(\1,\2)")) = true.
Proof.
  intros Hq x Hx. rewrite apply_rule_sub.
  unfold stays_away in Hq. apply andb_true_iff in Hq. destruct Hq as [Hw Hc].
  apply (substitution_keeps_away _ _ "DECIMAL(" false q x); try assumption.
  - apply (keyword_never_empty "NUMBER("
             [Re.Grp 1 Re.digits1; Re.chr ","; Re.spaces0; Re.Grp 2 Re.digits1; Re.chr ")"]).
    reflexivity.
  - reflexivity.
  - exact tidy_decimal.
Qed.

Lemma storage_rule_idle (q : keyword_pattern) (x : string) :
  no_match (kp_regex q) x = true ->
  SQLConverter.apply_rule x (kp_regex q, "") = x.
Proof.
  intros H. unfold SQLConverter.apply_rule. apply sub_fixed_no_match.
  unfold no_match in H. cbn [fst].
  destruct (Re.search (kp_regex q) x); [discriminate | reflexivity].
Qed.

(** ** The precision forms need the word [NUMBER] *)

Lemma ci_prefix_longer (A B : string) :
  forall s K' rest,
    ci_prefix (A ++ B) s = PMatch K' rest ->
    exists a b,
      ci_prefix A s = PMatch a (b ++ rest) /\ ci_prefix B (b ++ rest) = PMatch b rest.
Proof.
  induction A as [| k A IH]; intros s K' rest H.
  - simpl in *. exists "", K'. split; [| ].
    + f_equal. exact (proj1 (ci_prefix_match _ _ _ _ H)).
    + rewrite <- (proj1 (ci_prefix_match _ _ _ _ H)). exact H.
  - simpl in H. destruct s as [| y s]; [discriminate |].
    destruct (Ascii.eqb (Str.lower_chr y) (Str.lower_chr k)) eqn:E; [| discriminate].
    destruct (ci_prefix (A ++ B) s) as [m r | |] eqn:E2; try discriminate.
    injection H as <- <-.
    destruct (IH _ _ _ E2) as (a & b & Ha & Hb).
    exists (String y a), b. simpl. rewrite E, Ha. now split.
Qed.

Lemma number_form_needs_number (K2 : string) (tl : list Re.regex) (x : string) :
  no_match (kp_regex (word_pattern "NUMBER")) x = true ->
  no_match (Re.seqs (Re.WordB :: Re.lit_i ("NUMBER(" ++ K2) :: tl)) x = true.
Proof.
  intros H. unfold no_match at 1.
  destruct (Re.search _ x) as [m |] eqn:E; [| reflexivity].
  exfalso. unfold Re.search in E.
  destruct (search_from_inv _ _ _ _ E) as (u & s' & Hx & Hm).
  assert (HK : first_is Str.is_alpha ("NUMBER(" ++ K2) = true) by reflexivity.
  destruct (keyword_match _ tl false _ _ m HK Hm)
    as (Hpx & K' & rest & Ec & _ & _ & _).
  change ("NUMBER(" ++ K2) with ("NUMBER" ++ (String "(" K2)) in Ec.
  destruct (ci_prefix_longer _ _ _ _ _ Ec) as (a & b & Ha & Hb).
  assert (Hrest : Re.word_first (b ++ rest) = false).
  { simpl in Hb. destruct (b ++ rest) as [| y r]; [reflexivity |].
    destruct (Ascii.eqb (Str.lower_chr y) (Str.lower_chr "(")) eqn:Ey; [| discriminate].
    simpl. now rewrite (same_letter_class Str.is_word y "(" is_word_lower Ey). }
  assert (Hhit : kw_hit (word_pattern "NUMBER") (Str.rev_onto u "") s' = true).
  { unfold kw_hit. cbn [word_pattern kp_lead kp_key kp_tail lead_ok tail_ok].
    rewrite Hpx, Ha, Hrest. reflexivity. }
  rewrite (no_match_keyword (word_pattern "NUMBER") x eq_refl) in H. subst x.
  rewrite (occurs_at _ u s' Hhit) in H. discriminate.
Qed.

(** ** One pass of the syntax rewriter *)

Lemma storage_free_spec (s : string) :
  storage_free s = true ->
  no_match (kp_regex tablespace_pattern) s = true /\
  no_match (kp_regex storage_pattern) s = true /\
  no_match (kp_regex (storage_number_pattern "PCTFREE")) s = true /\
  no_match (kp_regex (storage_number_pattern "PCTUSED")) s = true /\
  no_match (kp_regex (storage_number_pattern "INITRANS")) s = true /\
  no_match (kp_regex (storage_number_pattern "MAXTRANS")) s = true.
Proof.
  intros H.
  change (no_match (kp_regex tablespace_pattern) s &&
          (no_match (kp_regex storage_pattern) s &&
           (no_match (kp_regex (storage_number_pattern "PCTFREE")) s &&
            (no_match (kp_regex (storage_number_pattern "PCTUSED")) s &&
             (no_match (kp_regex (storage_number_pattern "INITRANS")) s &&
              (no_match (kp_regex (storage_number_pattern "MAXTRANS")) s && true)))))
          = true) in H.
  repeat (apply andb_true_iff in H; destruct H as [? H]).
  repeat split; assumption.
Qed.

(** Carries what is known of [x] over a rule that keeps keywords away. *)
Ltac carry L x :=
  repeat match goal with
         | H : no_match (kp_regex _) x = true |- _ =>
             apply L in H; [| vm_compute; reflexivity]
         end.

Ltac name_step x y :=
  match goal with
  | |- context [SQLConverter.apply_rule x ?r] =>
      set (y := SQLConverter.apply_rule x r) in *
  end.

Ltac idle_step x q H :=
  match goal with
  | |- context [SQLConverter.apply_rule x ?r] =>
      replace (SQLConverter.apply_rule x r) with x
        by (symmetry; exact (storage_rule_idle q x H))
  end.

Lemma pass_settles (s : string) :
  storage_free s = true ->
  forallb (fun q => no_match (kp_regex q) (SQLConverter._convert_oracle_syntax s))
    settled_patterns = true.
Proof.
  intros Hs. destruct (storage_free_spec s Hs) as (T & S & P1 & P2 & P3 & P4).
  clear Hs.
  unfold SQLConverter._convert_oracle_syntax, SQLConverter.oracle_rules.
  cbn [fold_left].
  pose proof (word_rule_uses_up "SYSDATE" "CURRENT_DATE" s (fun _ => eq_refl) eq_refl eq_refl)
    as Q1.
  carry (fun q => word_rule_keeps "SYSDATE" "CURRENT_DATE" true q (fun _ => eq_refl) eq_refl) s.
  name_step s x1.
  pose proof (word_rule_uses_up "SYSTIMESTAMP" "CURRENT_TIMESTAMP" x1
                (fun _ => eq_refl) eq_refl eq_refl) as Q2.
  carry (fun q => word_rule_keeps "SYSTIMESTAMP" "CURRENT_TIMESTAMP" true q
                    (fun _ => eq_refl) eq_refl) x1.
  name_step x1 x2.
  pose proof (nvl_rule_uses_up x2) as Q3.
  carry nvl_rule_keeps x2.
  name_step x2 x3.
  idle_step x3 tablespace_pattern T.
  idle_step x3 storage_pattern S.
  idle_step x3 (storage_number_pattern "PCTFREE") P1.
  idle_step x3 (storage_number_pattern "PCTUSED") P2.
  idle_step x3 (storage_number_pattern "INITRANS") P3.
  idle_step x3 (storage_number_pattern "MAXTRANS") P4.
  pose proof (word_rule_uses_up "VARCHAR2" "VARCHAR" x3 (fun _ => eq_refl) eq_refl eq_refl)
    as Q10.
  carry (fun q => word_rule_keeps "VARCHAR2" "VARCHAR" true q (fun _ => eq_refl) eq_refl) x3.
  name_step x3 x10.
  carry (fun q => word_rule_keeps "NUMBER(10)" "INTEGER" false q (fun _ => eq_refl) eq_refl) x10.
  name_step x10 x11.
  carry (fun q => word_rule_keeps "NUMBER(19)" "BIGINT" false q (fun _ => eq_refl) eq_refl) x11.
  name_step x11 x12.
  carry (fun q => word_rule_keeps "NUMBER(1)" "BOOLEAN" false q (fun _ => eq_refl) eq_refl) x12.
  name_step x12 x13.
  carry decimal_rule_keeps x13.
  name_step x13 x14.
  pose proof (word_rule_uses_up "NUMBER" "NUMERIC" x14 (fun _ => eq_refl) eq_refl eq_refl)
    as Q15.
  carry (fun q => word_rule_keeps "NUMBER" "NUMERIC" true q (fun _ => eq_refl) eq_refl) x14.
  name_step x14 x15.
  cbn [forallb settled_patterns].
  rewrite Q1, Q2, Q3, T, S, P1, P2, P3, P4, Q10, Q15. reflexivity.
Qed.

Lemma pass_leaves_no_pattern (s : string) :
  storage_free s = true ->
  oracle_pattern_free (SQLConverter._convert_oracle_syntax s) = true.
Proof.
  intros Hs. pose proof (pass_settles s Hs) as H.
  cbn [forallb settled_patterns] in H.
  repeat (apply andb_true_iff in H; destruct H as [? H]).
  assert (N : forall K2 tl,
             no_match (Re.seqs (Re.WordB :: Re.lit_i ("NUMBER(" ++ K2) :: tl))
               (SQLConverter._convert_oracle_syntax s) = true).
  { intros K2 tl. now apply number_form_needs_number. }
  unfold oracle_pattern_free, SQLConverter.oracle_rules. cbn [forallb fst].
  repeat (apply andb_true_intro; split);
    first [ assumption
          | exact (N "10)" [Re.WordB])
          | exact (N "19)" [Re.WordB])
          | exact (N "1)" [Re.WordB])
          | exact (N "" [Re.Grp 1 Re.digits1; Re.chr ","; Re.spaces0;
                         Re.Grp 2 Re.digits1; Re.chr ")"])
          | reflexivity ].
Qed.

(** ** The migration script, a parse miss and the emitted stub *)






(** ** The syntax rewriter run twice *)


